(** * nifti_series: discovery and matching of per-patient imaging files

    A shallow embedding of [nifti_series.py].  The program walks a dataset
    directory, resolves "series" and "mask" files by naming heuristics and
    answers counting queries over two dictionaries.  Those dictionaries are
    class attributes of [Patient], the diagnostics go to append-only text
    files, and failures are Python exceptions: the embedding therefore
    threads one [world] (directory tree, class attributes, objects handed
    to the caller, diagnostic sink) through a state-and-exception monad. *)

From Stdlib Require Import String Ascii List Bool Arith Lia.
Import ListNotations.
Local Open Scope string_scope.
Local Open Scope list_scope.

Set Implicit Arguments.

(** ** Python strings *)

Module Str.

(** [str.lower] on the ASCII range; other bytes are left as they are. *)
Definition lower_ascii (c : ascii) : ascii :=
  let n := nat_of_ascii c in
  if (65 <=? n)%nat && (n <=? 90)%nat then ascii_of_nat (n + 32) else c.

Fixpoint lower (s : string) : string :=
  match s with
  | EmptyString => EmptyString
  | String c t => String (lower_ascii c) (lower t)
  end.

(** [hay.startswith(needle)] *)
Fixpoint startswith (needle hay : string) : bool :=
  match needle, hay with
  | EmptyString, _ => true
  | String _ _, EmptyString => false
  | String a n', String b h' => Ascii.eqb a b && startswith n' h'
  end.

(** [needle in hay] *)
Fixpoint contains (needle hay : string) : bool :=
  startswith needle hay ||
  match hay with
  | EmptyString => false
  | String _ t => contains needle t
  end.

(** [s.endswith(c)] for a one-character suffix. *)
Fixpoint endswith_char (c : ascii) (s : string) : bool :=
  match s with
  | EmptyString => false
  | String a EmptyString => Ascii.eqb a c
  | String _ t => endswith_char c t
  end.

(** Truth value of a string: [not s] holds for the empty string only. *)
Definition is_empty (s : string) : bool :=
  match s with EmptyString => true | _ => false end.

End Str.

(** ** Python dictionaries

    Insertion-ordered; assigning to a key that is present keeps its place. *)

Module Dict.
Section Ops.
Variable V : Type.

Definition t := list (string * V).

Fixpoint get (k : string) (d : t) : option V :=
  match d with
  | [] => None
  | (k', v) :: r => if String.eqb k k' then Some v else get k r
  end.

Fixpoint set (k : string) (v : V) (d : t) : t :=
  match d with
  | [] => [(k, v)]
  | (k', v') :: r =>
      if String.eqb k k' then (k, v) :: r else (k', v') :: set k v r
  end.

Definition keys (d : t) : list string := map fst d.
Definition values (d : t) : list V := map snd d.

(** [{k: v0 for k in ks}] *)
Definition from_keys (ks : list string) (v0 : V) : t :=
  fold_left (fun d k => set k v0 d) ks [].

(** A dictionary laid out over the keys [ks] by a function, and the
    function changed at one key: used to state loop invariants. *)
Definition tabulate (g : string -> V) (ks : list string) : t :=
  map (fun k => (k, g k)) ks.

Definition override (g : string -> V) (k : string) (v : V)
  : string -> V :=
  fun k' => if String.eqb k' k then v else g k'.
End Ops.
End Dict.

(** ** Domain records *)

(** [Series.path] holds a string when built by series discovery and a list
    of strings when built by mask discovery. *)
Inductive path_value :=
| PathStr (s : string)
| PathList (l : list string).

(** Truth value used by [not path]. *)
Definition path_falsy (p : path_value) : bool :=
  match p with
  | PathStr s => Str.is_empty s
  | PathList l => match l with [] => true | _ => false end
  end.

Record Series := mkSeries { series_type : string; path : path_value }.

(** [class Mask(Series)]: the inherited fields and the doctor. *)
Record Mask := mkMask { mask_base : Series; doctor : option string }.

Definition get_type (s : Series) : string := series_type s.
Definition get_path (s : Series) : path_value := path s.
Definition get_doctor (m : Mask) : option string := doctor m.

Record Patient := mkPatient {
  patient_id : string;
  patient_path : string;
  warnings_file : string;
  logs_file : string
}.

Record DatasetDiscover := mkDataset { root : string }.

(** [self.images] and [self.masks]: the value of a key is a list (or,
    for masks, a dictionary of lists) whose items are objects or [None].
    The program never stores [None] as a value, so the tests
    [series_list is not None] and [doctor_dict is not None] of the
    queries always pass and are left out. *)
Definition images_index := Dict.t (list (option Series)).
Definition doctor_index := Dict.t (list (option Mask)).
Definition masks_index := Dict.t doctor_index.

(** ** Exceptions, diagnostics, world *)

Inductive exn :=
| IndexError
| NameError (name : string)
| AttributeError (attr : string)
| KeyError (key : string)
| OSError (path : string)
| StopIteration
| Exception (msg : string).

(** The keyword arguments of the discovery methods, with the defaults of
    their signatures for the keys a caller leaves out. *)
Record kwargs := mkKwargs {
  warnings : bool;
  exceptions : option (list string);
  full_match : bool;
  try_full_match : bool
}.

Definition no_kwargs : kwargs := mkKwargs true None false false.

(** Module-level constants. *)
Definition series_to_fetch : list string := ["adc"; "dwi"].
Definition mask_config : kwargs := mkKwargs true None true false.
Definition series_config : kwargs := mkKwargs true None false true.

(** A diagnostic line.  The interpolated values are kept as data instead
    of being rendered by the f-strings. *)
Inductive message :=
| FileExcluded (file excp : string)
| FoldersFound (series_desc : string) (folder_list : list string)
| FilesFound (folder : string) (files : list string)
| SelectCall (who series_desc : string) (excs : option (list string))
    (try_full full : bool)
| SeriesSelected (file_list : list string)
| MasksSelected (file_lists : list (list string))
| RunFetch (who ser_desc file_extension : string) (kw : kwargs)
| MultipleSeriesFolders (series_desc : string) (folder_list : list string)
| MultipleMaskFolders (n : nat)
| TakingFirstMaskFolder (n : nat)
| MultipleSeriesForType (series_type : string).

Inductive severity := PID | WARNING.

(** One appended line: destination file, prefix, patient id, message. *)
Record line := mkLine {
  line_file : string; line_tag : severity; line_pid : string;
  line_msg : message
}.

(** The directory tree as [os.listdir], [os.path.isdir] and [open] see
    it: every directory path with its entries.  A path that is not listed
    here is not a directory. *)
Definition filesystem := list (string * list string).

(** A dictionary object other than the class attributes: what
    [copy.deepcopy] of an index allocates. *)
Inductive object :=
| MasksObject (m : masks_index)
| ImagesObject (i : images_index).

Record world := mkWorld {
  fs : filesystem;
  cwd : string;
  (** [Patient.images], [Patient.masks], [DatasetDiscover.patients]:
      class attributes, one object each for the whole process. *)
  cls_images : images_index;
  cls_masks : masks_index;
  cls_patients : Dict.t Patient;
  (** objects allocated by [copy.deepcopy] and handed to the caller *)
  copies : list object;
  sink : list line
}.

Inductive outcome (A : Type) :=
| Ok (a : A)
| Raise (e : exn).
Arguments Raise {A} e.

Definition M (A : Type) := world -> outcome A * world.

Definition ret {A} (a : A) : M A := fun w => (Ok a, w).
Definition raise {A} (e : exn) : M A := fun w => (Raise e, w).
Definition bind {A B} (m : M A) (k : A -> M B) : M B :=
  fun w => match m w with
           | (Ok a, w') => k a w'
           | (Raise e, w') => (Raise e, w')
           end.

Declare Scope py_scope.
Delimit Scope py_scope with py.
Notation "x <- m ;; k" := (bind m (fun x => k))
  (at level 61, m at next level, right associativity) : py_scope.
Notation "m ;;; k" := (bind m (fun _ => k))
  (at level 61, right associativity) : py_scope.
Local Open Scope py_scope.

Definition value {A} (r : outcome A * world) : outcome A := fst r.
Definition after {A} (r : outcome A * world) : world := snd r.

(** [[f(x) for x in l]] for an effectful [f]. *)
Fixpoint mapM {A B} (f : A -> M B) (l : list A) : M (list B) :=
  match l with
  | [] => ret []
  | x :: r => y <- f x ;; ys <- mapM f r ;; ret (y :: ys)
  end.

(** [[x for x in l if c(x)]] for an effectful condition. *)
Fixpoint filterM {A} (c : A -> M bool) (l : list A) : M (list A) :=
  match l with
  | [] => ret []
  | x :: r => b <- c x ;; xs <- filterM c r ;; ret (if b then x :: xs else xs)
  end.

(** [for x in l: acc = body(acc, x)] *)
Fixpoint foldM {A S} (body : S -> A -> M S) (l : list A) (acc : S) : M S :=
  match l with
  | [] => ret acc
  | x :: r => acc' <- body acc x ;; foldM body r acc'
  end.

(** ** The [os] module *)

Module os.

Fixpoint lookup (p : string) (t : filesystem) : option (list string) :=
  match t with
  | [] => None
  | (d, entries) :: r => if String.eqb p d then Some entries else lookup p r
  end.

Definition listdir (p : string) : M (list string) :=
  fun w => match lookup p (fs w) with
           | Some entries => (Ok entries, w)
           | None => (Raise (OSError p), w)
           end.

Definition isdir (p : string) : M bool :=
  fun w =>
    (Ok (match lookup p (fs w) with Some _ => true | None => false end), w).

Definition getcwd : M string := fun w => (Ok (cwd w), w).

(** [posixpath.join] of two components. *)
Definition join (a b : string) : string :=
  if Str.startswith "/" b then b
  else if Str.is_empty a || Str.endswith_char "/"%char a then (a ++ b)%string
  else (a ++ "/" ++ b)%string.

(** [posixpath.split]: what precedes the last slash, its trailing
    slashes dropped unless it consists of slashes only, and what follows
    that slash. *)
Fixpoint rsplit (p : string) : option (string * string) :=
  match p with
  | EmptyString => None
  | String c r =>
      match rsplit r with
      | Some (head, tail) => Some (String c head, tail)
      | None =>
          if Ascii.eqb c "/" then Some (String c EmptyString, r) else None
      end
  end.

Fixpoint rstrip_slash (s : string) : string :=
  match s with
  | EmptyString => EmptyString
  | String c r =>
      match rstrip_slash r with
      | EmptyString =>
          if Ascii.eqb c "/" then EmptyString else String c EmptyString
      | r' => String c r'
      end
  end.

Definition split (p : string) : string * string :=
  match rsplit p with
  | None => (EmptyString, p)
  | Some (head, tail) =>
      (match rstrip_slash head with
       | EmptyString => head
       | head' => head'
       end, tail)
  end.

End os.

(** ** Patient: diagnostics

    The lines appended to the two diagnostic files are kept in the sink of
    the world, in the order of the writes; the files themselves enter the
    directory tree when the constructor opens them. *)

Definition append_line (l : line) : M unit :=
  fun w => (Ok tt, mkWorld (fs w) (cwd w) (cls_images w) (cls_masks w)
                     (cls_patients w) (copies w) (sink w ++ [l])).

Definition _write_log (self : Patient) (msg : message) : M unit :=
  append_line (mkLine (logs_file self) PID (patient_id self) msg).

Definition _write_warning (self : Patient) (msg : message) : M unit :=
  append_line (mkLine (warnings_file self) WARNING (patient_id self) msg).

(** ** Patient: file matching *)

(** The [for excp in exceptions] loop of [_check_exception_words]. *)
Fixpoint check_loop (self : Patient) (file_name : string)
    (exceptions : list string) : M bool :=
  match exceptions with
  | [] => ret true
  | excp :: r =>
      if Str.contains excp file_name
      then _write_log self (FileExcluded file_name excp) ;;; ret false
      else check_loop self file_name r
  end.

Definition _check_exception_words (self : Patient) (file_name : string)
    (exceptions : option (list string)) : M bool :=
  match exceptions with
  | None => ret true
  | Some l => check_loop self file_name l
  end.

(** [_select_files]: [result] is assigned by the first [if] and possibly
    again by the second one. *)
Definition _select_files (self : Patient) (series_desc folder
    file_extension : string) (exceptions : option (list string))
    (full_match try_full_match : bool) : M (list string) :=
  result <-
    (if full_match || try_full_match then
       files <- os.listdir folder ;;
       kept <- filterM (fun file =>
                 if String.eqb (Str.lower file)
                      (Str.lower series_desc ++ file_extension)%string
                 then _check_exception_words self file exceptions
                 else ret false) files ;;
       ret (map (os.join folder) kept)
     else ret []) ;;
  if (negb full_match && negb try_full_match)
     || (try_full_match && (length result =? 0)%nat) then
    files <- os.listdir folder ;;
    kept <- filterM (fun file =>
              if Str.contains file_extension file
              then _check_exception_words self file exceptions
              else ret false) files ;;
    ret (map (os.join folder) kept)
  else ret result.

(** ** Patient: building entries *)

(** [not path] is asked only when neither argument is [None]. *)
Definition _create_mask (series_desc : option string)
    (path : option path_value) (doctor : option string) : option Mask :=
  match series_desc, path with
  | Some d, Some p =>
      if path_falsy p then None else Some (mkMask (mkSeries d p) doctor)
  | _, _ => None
  end.

Definition _create_series (series_desc : option string)
    (path : option path_value) : option Series :=
  match series_desc, path with
  | Some d, Some p => if path_falsy p then None else Some (mkSeries d p)
  | _, _ => None
  end.

(** [d[k]] and [d[k] += x] *)
Definition getitem {V} (d : Dict.t V) (k : string) : M V :=
  match Dict.get k d with
  | Some v => ret v
  | None => raise (KeyError k)
  end.

Definition extend_item {V} (d : Dict.t (list V)) (k : string) (x : list V)
  : M (Dict.t (list V)) :=
  cur <- getitem d k ;; ret (Dict.set k (cur ++ x) d).

Definition incr_item (d : Dict.t nat) (k : string) : M (Dict.t nat) :=
  cur <- getitem d k ;; ret (Dict.set k (cur + 1) d).

(** ** Patient: series discovery *)

Definition _fetch_single_series (self : Patient) (series_desc
    file_extension : string) (kw : kwargs) : M (list (option Series)) :=
  entries <- os.listdir (patient_path self) ;;
  let folder_list :=
    map (os.join (patient_path self))
      (filter (fun folder =>
                 Str.contains (Str.lower series_desc) (Str.lower folder))
         entries) in
  _write_log self (FoldersFound series_desc folder_list) ;;;
  (* the method called here is [self.write_warning], which [Patient]
     does not define *)
  (if (1 <? length folder_list)%nat && warnings kw
   then raise (AttributeError "write_warning") else ret tt) ;;;
  file_list <-
    foldM (fun file_list folder =>
             files <- os.listdir folder ;;
             _write_log self (FilesFound folder files) ;;;
             _write_log self
               (SelectCall "_fetch_single_series" series_desc
                  (exceptions kw) (try_full_match kw) (full_match kw)) ;;;
             sel <- _select_files self series_desc folder file_extension
                      (exceptions kw) (full_match kw) (try_full_match kw) ;;
             ret (file_list ++ sel))
      folder_list [] ;;
  _write_log self (SeriesSelected file_list) ;;;
  ret (map (fun path => _create_series (Some series_desc)
                          (Some (PathStr path))) file_list).

(** ** Patient: mask discovery *)

Definition mask_folder_name : string := "masks".

Definition _fetch_single_mask (self : Patient) (series_desc
    file_extension : string) (kw : kwargs) : M doctor_index :=
  entries <- os.listdir (patient_path self) ;;
  let masks_folder_list :=
    map (os.join (patient_path self))
      (filter (fun folder =>
                 Str.contains (Str.lower mask_folder_name) (Str.lower folder))
         entries) in
  (* both diagnostics interpolate [len(mask_folder_list)], a name that is
     bound nowhere: evaluating the first f-string raises *)
  (if (1 <? length masks_folder_list)%nat
   then raise (NameError "mask_folder_list") else ret tt) ;;;
  first <- match masks_folder_list with
           | [] => raise IndexError
           | x :: _ => ret x
           end ;;
  let mask_folder_path := os.join (patient_path self) first in
  sub <- os.listdir mask_folder_path ;;
  doctors_list <- filterM (fun folder =>
                    os.isdir (os.join mask_folder_path folder)) sub ;;
  file_dict <-
    foldM (fun file_dict doctor =>
             let folder := os.join mask_folder_path doctor in
             files <- os.listdir folder ;;
             _write_log self (FilesFound folder files) ;;;
             _write_log self
               (SelectCall "_fetch_single_mask" series_desc
                  (exceptions kw) (try_full_match kw) (full_match kw)) ;;;
             sel <- _select_files self series_desc folder file_extension
                      (exceptions kw) (full_match kw) (try_full_match kw) ;;
             extend_item file_dict doctor sel)
      doctors_list (Dict.from_keys doctors_list []) ;;
  _write_log self (MasksSelected (Dict.values file_dict)) ;;;
  (* [for doctor, path in file_dict.items()]: [path] is the whole list *)
  masks_dict <-
    foldM (fun masks_dict item =>
             let '(doctor, path) := item in
             extend_item masks_dict doctor
               [_create_mask (Some series_desc) (Some (PathList path))
                  (Some doctor)])
      file_dict (Dict.from_keys doctors_list []) ;;
  (* [copy.deepcopy(masks_dict)]: the only reference is the one returned *)
  ret masks_dict.

(** ** The shared store

    No method of [Patient] ever binds [images] or [masks] on an instance:
    [self.images] and [self.masks] always resolve to the class attributes,
    whichever patient [self] is. *)

Definition self_images (self : Patient) : M images_index :=
  fun w => (Ok (cls_images w), w).

Definition self_masks (self : Patient) : M masks_index :=
  fun w => (Ok (cls_masks w), w).

(** [self.images[k] = v] and [self.masks[k] = v] *)
Definition set_self_images (self : Patient) (k : string)
    (v : list (option Series)) : M unit :=
  fun w => (Ok tt, mkWorld (fs w) (cwd w) (Dict.set k v (cls_images w))
                     (cls_masks w) (cls_patients w) (copies w) (sink w)).

Definition set_self_masks (self : Patient) (k : string) (v : doctor_index)
  : M unit :=
  fun w => (Ok tt, mkWorld (fs w) (cwd w) (cls_images w)
                     (Dict.set k v (cls_masks w)) (cls_patients w)
                     (copies w) (sink w)).

(** What a caller holds after a fetch is a reference to a dictionary:
    to the class attribute itself, or to an object that [copy.deepcopy]
    allocated. *)
Inductive masks_ref := MasksAttr | MasksCopy (n : nat).
Inductive images_ref := ImagesAttr | ImagesCopy (n : nat).

(** [copy.deepcopy(self.masks)]: a new object graph, disjoint from the
    one it was copied from. *)
Definition deepcopy_masks (self : Patient) : M masks_ref :=
  fun w => (Ok (MasksCopy (length (copies w))),
            mkWorld (fs w) (cwd w) (cls_images w) (cls_masks w)
              (cls_patients w) (copies w ++ [MasksObject (cls_masks w)])
              (sink w)).

(** The dictionary a reference leads to; a reference to a copy leads
    nowhere when no such object of that kind was allocated. *)
Definition read_masks (r : masks_ref) (w : world) : option masks_index :=
  match r with
  | MasksAttr => Some (cls_masks w)
  | MasksCopy n =>
      match nth_error (copies w) n with
      | Some (MasksObject m) => Some m
      | _ => None
      end
  end.

Definition read_images (r : images_ref) (w : world) : option images_index :=
  match r with
  | ImagesAttr => Some (cls_images w)
  | ImagesCopy n =>
      match nth_error (copies w) n with
      | Some (ImagesObject i) => Some i
      | _ => None
      end
  end.

Definition on_masks (f : masks_index -> masks_index) (o : object) : object :=
  match o with
  | MasksObject m => MasksObject (f m)
  | ImagesObject i => ImagesObject i
  end.

Definition on_images (f : images_index -> images_index) (o : object)
  : object :=
  match o with
  | MasksObject m => MasksObject m
  | ImagesObject i => ImagesObject (f i)
  end.

Fixpoint list_update {A} (n : nat) (f : A -> A) (l : list A) : list A :=
  match l, n with
  | [], _ => []
  | x :: r, O => f x :: r
  | x :: r, S n' => x :: list_update n' f r
  end.

(** A caller mutating, in place and at any depth, the object it holds. *)
Definition mutate_masks (r : masks_ref) (f : masks_index -> masks_index)
  : M unit :=
  fun w => (Ok tt,
            match r with
            | MasksAttr =>
                mkWorld (fs w) (cwd w) (cls_images w) (f (cls_masks w))
                  (cls_patients w) (copies w) (sink w)
            | MasksCopy n =>
                mkWorld (fs w) (cwd w) (cls_images w) (cls_masks w)
                  (cls_patients w) (list_update n (on_masks f) (copies w))
                  (sink w)
            end).

Definition mutate_images (r : images_ref) (f : images_index -> images_index)
  : M unit :=
  fun w => (Ok tt,
            match r with
            | ImagesAttr =>
                mkWorld (fs w) (cwd w) (f (cls_images w)) (cls_masks w)
                  (cls_patients w) (copies w) (sink w)
            | ImagesCopy n =>
                mkWorld (fs w) (cwd w) (cls_images w) (cls_masks w)
                  (cls_patients w) (list_update n (on_images f) (copies w))
                  (sink w)
            end).

(** ** Patient: public discovery *)

Definition fetch_masks (self : Patient) (series_list : list string)
    (file_extension : string) (kw : kwargs) : M masks_ref :=
  foldM (fun (_ : unit) ser_desc =>
           _write_log self
             (RunFetch "_fetch_single_mask" ser_desc file_extension kw) ;;;
           m <- _fetch_single_mask self ser_desc file_extension kw ;;
           set_self_masks self ser_desc m)
    series_list tt ;;;
  deepcopy_masks self.

Definition fetch_series (self : Patient) (series_list : list string)
    (file_extension : string) (kw : kwargs) : M images_ref :=
  foldM (fun (_ : unit) ser_desc =>
           _write_log self
             (RunFetch "_fetch_single_series" ser_desc file_extension kw) ;;;
           s <- _fetch_single_series self ser_desc file_extension kw ;;
           set_self_images self ser_desc s)
    series_list tt ;;;
  ret ImagesAttr.

Definition default_extension : string := ".nii.gz".

(** [data = {'masks': ..., 'series': ...}] *)
Definition fetch_all (self : Patient) (series_list : list string)
    (mask_config series_config : kwargs) : M (masks_ref * images_ref) :=
  m <- fetch_masks self series_list default_extension mask_config ;;
  s <- fetch_series self series_list default_extension series_config ;;
  ret (m, s).

(** ** Patient: queries *)

Definition doctor_key (d : option string) : string :=
  match d with Some s => s | None => "None" end.

Definition count_masks_per (self : Patient) (count_type : string)
  : M (Dict.t nat) :=
  fetch_all self series_to_fetch mask_config series_config ;;;
  masks <- self_masks self ;;
  count <-
    (if String.eqb (Str.lower count_type) "series_type" then
       ret (Dict.from_keys (Dict.keys masks) 0)
     else if String.eqb (Str.lower count_type) "doctor" then
       match Dict.values masks with
       | [] => raise StopIteration
       | d :: _ => ret (Dict.from_keys (Dict.keys d) 0)
       end
     else raise (Exception "Invalid count_type")) ;;
  foldM (fun count item =>
     let '(mask_type, doctor_dict) := item in
     foldM (fun count item' =>
        let '(doctor, mask_list) := (item' : string * list (option Mask)) in
        foldM (fun count mask =>
           match mask with
           | Some mask =>
               if String.eqb (Str.lower count_type) "series_type" then
                 incr_item count (get_type (mask_base mask))
               else if String.eqb (Str.lower count_type) "doctor" then
                 incr_item count (doctor_key (get_doctor mask))
               else ret count
           | None => ret count
           end) mask_list count)
       doctor_dict count)
    masks count.

(** [{**type_count, **doctor_count}] *)
Definition merge {V} (a b : Dict.t V) : Dict.t V :=
  fold_left (fun d kv => Dict.set (fst kv) (snd kv) d) b a.

Definition count_masks_overall (self : Patient) : M (Dict.t nat) :=
  type_count <- count_masks_per self "series_type" ;;
  doctor_count <- count_masks_per self "doctor" ;;
  ret (merge type_count doctor_count).

Definition count_series_per_type (self : Patient) : M (Dict.t nat) :=
  fetch_all self series_to_fetch mask_config series_config ;;;
  images <- self_images self ;;
  foldM (fun count series_list =>
     foldM (fun count series =>
        match series with
        | Some series => incr_item count (get_type series)
        | None => ret count
        end) series_list count)
    (Dict.values images) (Dict.from_keys (Dict.keys images) 0).

Definition get_id (self : Patient) : string := patient_id self.

(** The result is a [set]: kept here as a list without repetitions. *)
Definition get_series_types (self : Patient) : M (list string) :=
  images <- self_images self ;;
  series_type_list <-
    foldM (fun acc item =>
       let '(series_type, series_list) :=
         (item : string * list (option Series)) in
       (if (1 <? length series_list)%nat
        then _write_warning self (MultipleSeriesForType series_type)
        else ret tt) ;;;
       foldM (fun acc series =>
          match series with
          | Some series => ret (acc ++ [get_type series])
          | None => raise (AttributeError "get_type")
          end) series_list acc)
      images [] ;;
  ret (nodup string_dec series_type_list).

Definition get_series_by_type (self : Patient) (series_type : string)
  : M (list (option Series)) :=
  fetch_all self series_to_fetch mask_config series_config ;;;
  images <- self_images self ;;
  getitem images series_type.

Definition get_mask_list (self : Patient) : M (list Mask) :=
  fetch_all self series_to_fetch mask_config series_config ;;;
  masks <- self_masks self ;;
  foldM (fun result mask_per_doctor =>
     foldM (fun result mask_list =>
        foldM (fun result mask =>
           match mask with
           | Some mask => ret (result ++ [mask])
           | None => ret result
           end) mask_list result)
       (Dict.values mask_per_doctor) result)
    (Dict.values masks) [].

(** ** Patient and DatasetDiscover: construction *)

(** A file created in a directory shows in its listing. *)
Fixpoint add_entry (dir name : string) (t : filesystem) : filesystem :=
  match t with
  | [] => []
  | (d, entries) :: r =>
      if String.eqb dir d then
        (d, if existsb (String.eqb name) entries then entries
            else entries ++ [name]) :: r
      else (d, entries) :: add_entry dir name r
  end.

(** [open(p, 'a').close()]: the file is created when it does not exist,
    and nothing is written.  A name without directory part lies in the
    working directory.  The call raises [OSError] for [p] when [p] has no
    last component or ends in a dot component, when the directory that
    is to hold the file does not exist, and when [p] is itself a
    directory.  The world holds no permissions and no limits, so nothing
    else makes it fail. *)
Definition open_append (p : string) : M unit :=
  fun w =>
    let '(head, tail) := os.split p in
    let dir := if Str.is_empty head then cwd w else head in
    if Str.is_empty tail || String.eqb tail "." || String.eqb tail ".."
    then (Raise (OSError p), w)
    else
      match os.lookup dir (fs w), os.lookup (os.join dir tail) (fs w) with
      | Some _, None =>
          (Ok tt, mkWorld (add_entry dir tail (fs w)) (cwd w) (cls_images w)
                    (cls_masks w) (cls_patients w) (copies w) (sink w))
      | _, _ => (Raise (OSError p), w)
      end.

Definition Patient_init (patient_id patient_path : string)
    (warnings_file logs_file : option string) : M Patient :=
  wf <- match warnings_file with
        | None =>
            open_append "warnings.txt" ;;;
            d <- os.getcwd ;; ret (os.join d "warnings.txt")
        | Some f => open_append f ;;; ret f
        end ;;
  lf <- match logs_file with
        | None =>
            open_append "logs.txt" ;;;
            d <- os.getcwd ;; ret (os.join d "logs.txt")
        | Some f => open_append f ;;; ret f
        end ;;
  ret (mkPatient patient_id patient_path wf lf).

Definition def_mask_config : kwargs := mkKwargs true None true false.
Definition def_series_config : kwargs := mkKwargs true None false true.

Definition set_patient (self : DatasetDiscover) (k : string) (p : Patient)
  : M unit :=
  fun w => (Ok tt, mkWorld (fs w) (cwd w) (cls_images w) (cls_masks w)
                     (Dict.set k p (cls_patients w)) (copies w) (sink w)).

(** The discovery call on the new patient is commented out in the source:
    nothing is fetched here. *)
Definition fetch_patients (self : DatasetDiscover)
    (patient_id_list modalities : list string)
    (mask_config series_config : option kwargs) : M (Dict.t Patient) :=
  let mask_config :=
    match mask_config with None => def_mask_config | Some c => c end in
  let series_config :=
    match series_config with None => def_series_config | Some c => c end in
  foldM (fun (_ : unit) patient_id =>
           let patient_path := os.join (root self) patient_id in
           d <- os.isdir patient_path ;;
           if negb d then ret tt
           else
             patient <- Patient_init patient_id patient_path None None ;;
             set_patient self patient_id patient)
    patient_id_list tt ;;;
  fun w => (Ok (cls_patients w), w).

Definition get_series_type_count (self : DatasetDiscover)
  : M (Dict.t (Dict.t nat)) :=
  fun w =>
    foldM (fun result patient =>
             c <- count_series_per_type patient ;;
             ret (Dict.set (get_id patient) c result))
      (Dict.values (cls_patients w)) [] w.

(** [rule] is the caller's function, called with the count mapping as
    keyword arguments; it may write, and raise. *)
Definition get_patients_by_mask_count (self : DatasetDiscover)
    (count_type : string) (rule : Dict.t nat -> M bool) : M (list Patient) :=
  fun w =>
    foldM (fun selected patient =>
             count <- count_masks_per patient count_type ;;
             b <- rule count ;;
             ret (if b then selected ++ [patient] else selected))
      (Dict.values (cls_patients w)) [] w.

Definition get_overall_mask_count (self : DatasetDiscover)
  : M (Dict.t (Dict.t nat)) :=
  fun w =>
    foldM (fun result patient =>
             c <- count_masks_overall patient ;;
             ret (Dict.set (get_id patient) c result))
      (Dict.values (cls_patients w)) [] w.

(** [[ser.get_path() for ser in patient.get_series_by_type(series_type)]]:
    an item that is [None] has no [get_path]. *)
Definition get_series_paths (self : DatasetDiscover) (series_type : string)
  : M (Dict.t (list path_value)) :=
  fun w =>
    foldM (fun result patient =>
             series <- get_series_by_type patient series_type ;;
             paths <- mapM (fun ser =>
                        match ser with
                        | Some ser => ret (get_path ser)
                        | None => raise (AttributeError "get_path")
                        end) series ;;
             ret (Dict.set (get_id patient) paths result))
      (Dict.values (cls_patients w)) [] w.

(** ** Series: loading the data

    [nb.load(p).get_fdata()] belongs to the imaging library: it is a
    parameter here.  [self.path[0]] is the first item of a list of paths
    and the first character of a path that is a string. *)

Section Loader.
Variable Data : Type.
Variable nb_load : string -> M Data.

Definition get_data (self : Series) : M Data :=
  match path self with
  | PathStr s =>
      match s with
      | EmptyString => raise IndexError
      | String c _ => nb_load (String c EmptyString)
      end
  | PathList l =>
      match l with
      | [] => raise IndexError
      | p :: _ => nb_load p
      end
  end.
End Loader.

(** ** Vocabulary of the statements *)

(** The exact-match rule: the lowercase name is the lowercase logical
    name followed by the extension. *)
Definition exact_match (series_desc file_extension file : string) : bool :=
  String.eqb (Str.lower file) (Str.lower series_desc ++ file_extension)%string.

(** The permissive rule: the extension occurs in the name. *)
Definition has_extension (file_extension file : string) : bool :=
  Str.contains file_extension file.

(** A name survives when none of the exception words occurs in it. *)
Definition survives (exceptions : option (list string)) (file : string)
  : bool :=
  match exceptions with
  | None => true
  | Some l => negb (existsb (fun excp => Str.contains excp file) l)
  end.

(** The exception filter on its own, as both comprehensions of
    [_select_files] apply it. *)
Definition filter_exceptions (self : Patient)
    (exceptions : option (list string)) (files : list string)
  : M (list string) :=
  filterM (fun file => _check_exception_words self file exceptions) files.

(** The names selected in a folder whose listing is [files], spelled out
    per mode: the exact matches that survive, the names with the
    extension that survive, and which of the two each pair of flags
    yields. *)
Definition exact_survivors (series_desc file_extension : string)
    (exceptions : option (list string)) (files : list string)
  : list string :=
  filter (fun file => exact_match series_desc file_extension file
                      && survives exceptions file) files.

Definition permissive_survivors (file_extension : string)
    (exceptions : option (list string)) (files : list string)
  : list string :=
  filter (fun file => has_extension file_extension file
                      && survives exceptions file) files.

Definition selected_names (series_desc file_extension : string)
    (exceptions : option (list string)) (full_match try_full_match : bool)
    (files : list string) : list string :=
  let exact := exact_survivors series_desc file_extension exceptions files in
  let permissive := permissive_survivors file_extension exceptions files in
  match full_match, try_full_match with
  | false, false => permissive
  | true, false => exact
  | _, true => match exact with [] => permissive | _ => exact end
  end.

(** The sink only grows. *)
Definition sink_extends (w w' : world) : Prop :=
  exists ls, sink w' = sink w ++ ls.

(** Two worlds that differ in lines appended to the sink at most. *)
Definition frame (w w' : world) : Prop :=
  fs w' = fs w /\ cwd w' = cwd w /\ cls_images w' = cls_images w /\
  cls_masks w' = cls_masks w /\ cls_patients w' = cls_patients w /\
  copies w' = copies w /\ sink_extends w w'.

(** A computation that reads the directory tree and writes diagnostics,
    and does nothing else. *)
Definition reader {A} (m : M A) : Prop :=
  (forall w, frame w (after (m w))) /\
  (forall w w', fs w = fs w' -> value (m w) = value (m w')).

(** Names of the folders of a listing that match a logical name. *)
Definition matching_folders (name : string) (entries : list string)
  : list string :=
  filter (fun folder => Str.contains (Str.lower name) (Str.lower folder))
    entries.

(** The entries of a listing that are directories: the doctors. *)
Definition doctors_of (t : filesystem) (mask_folder_path : string)
    (sub : list string) : list string :=
  filter (fun folder =>
            match os.lookup (os.join mask_folder_path folder) t with
            | Some _ => true
            | None => false
            end) sub.

Definition listing (t : filesystem) (p : string) : list string :=
  match os.lookup p t with Some l => l | None => [] end.

(** The paths the matcher resolves in a folder. *)
Definition resolved_paths (t : filesystem) (series_desc file_extension
    : string) (kw : kwargs) (folder : string) : list string :=
  map (os.join folder)
    (selected_names series_desc file_extension (exceptions kw)
       (full_match kw) (try_full_match kw) (listing t folder)).

(** The effect of a loop of [d[key x] += add x] on a tabulated
    dictionary. *)
Definition accumulate {A V} (key : A -> string) (add : A -> list V)
    (todo : list A) (g : string -> list V) : string -> list V :=
  fold_left (fun g x => Dict.override g (key x) (g (key x) ++ add x)) todo g.

(** A computation whose exceptions all satisfy [P]. *)
Definition raises_only {A} (P : exn -> Prop) (m : M A) : Prop :=
  forall w e, value (m w) = Raise e -> P e.

(** The exceptions series discovery can end with. *)
Definition series_fault (e : exn) : Prop :=
  (exists p, e = OSError p) \/ e = AttributeError "write_warning".

(** What a computation returns at [w], or [default] when it raises. *)
Definition discovered {A} (m : M A) (w : world) (default : A) : A :=
  match value (m w) with Ok a => a | Raise _ => default end.

(** Worlds that agree on everything but one index and lines appended
    to the sink. *)
Definition frame_but_masks (w w' : world) : Prop :=
  fs w' = fs w /\ cwd w' = cwd w /\ cls_images w' = cls_images w /\
  cls_patients w' = cls_patients w /\ copies w' = copies w /\
  sink_extends w w'.

Definition frame_but_images (w w' : world) : Prop :=
  fs w' = fs w /\ cwd w' = cwd w /\ cls_masks w' = cls_masks w /\
  cls_patients w' = cls_patients w /\ copies w' = copies w /\
  sink_extends w w'.

(** [for k in ks: d[k] = value_of k] *)
Definition assign_all {V} (value_of : string -> V) (ks : list string)
    (d : Dict.t V) : Dict.t V :=
  fold_left (fun d k => Dict.set k (value_of k) d) ks d.

(** A computation that leaves the world as it found it. *)
Definition stateless {A} (m : M A) : Prop := forall w, after (m w) = w.

(** An index counts as populated once it has a key. *)
Definition populated {V} (d : Dict.t V) : bool :=
  match d with [] => false | _ => true end.

(** The exception word that excludes a name: the first one, in the order
    of the list, that occurs in it. *)
Definition excluding_word (exceptions : option (list string))
    (file : string) : option string :=
  match exceptions with
  | None => None
  | Some l => find (fun excp => Str.contains excp file) l
  end.

(** An entry as series discovery builds it: present, of the given kind,
    its path one non-empty string. *)
Definition series_entry_of (kind : string) (item : option Series) : Prop :=
  exists p, p <> ""%string /\ item = Some (mkSeries kind (PathStr p)).

(** The items of a list that are not [None], and how many they are. *)
Fixpoint somes {A} (l : list (option A)) : list A :=
  match l with
  | [] => []
  | Some x :: r => x :: somes r
  | None :: r => somes r
  end.

Definition present {A} (l : list (option A)) : nat := length (somes l).

(** How often a key occurs in a list of keys. *)
Definition occurrences (k : string) (keys : list string) : nat :=
  length (filter (String.eqb k) keys).

(** A series index as discovery keeps it: no kind twice, and under each
    kind only entries of that kind. *)
Definition images_wf (d : images_index) : Prop :=
  NoDup (Dict.keys d) /\
  forall k l s, In (k, l) d -> In (Some s) l -> series_type s = k.

(** Every mask of a mask index, in the order the queries walk it. *)
Definition all_masks (d : masks_index) : list Mask :=
  somes (flat_map (fun doctor_dict => concat (Dict.values doctor_dict))
           (Dict.values d)).

(** The items (masks or [None]) of a mask index, in the order the queries
    walk it: kind after kind, doctor after doctor. *)
Definition mask_items (d : masks_index) : list (option Mask) :=
  flat_map (fun doctor_dict => concat (Dict.values doctor_dict))
    (Dict.values d).

(** A mask index as discovery keeps it: no kind twice, and under a kind
    and a doctor only masks of that kind attributed to that doctor. *)
Definition masks_wf (d : masks_index) : Prop :=
  NoDup (Dict.keys d) /\
  forall k doctor_dict doc l m,
    In (k, doctor_dict) d -> In (doc, l) doctor_dict -> In (Some m) l ->
    series_type (mask_base m) = k /\ doctor m = Some doc.

(** The key under which the count by doctor files a mask. *)
Definition mask_doctor_key (m : Mask) : string := doctor_key (get_doctor m).

Definition mask_type (m : Mask) : string := get_type (mask_base m).

(** The patient [fetch_patients] builds for an id, and the catalog it
    leaves: the ids whose directory exists are entered in turn. *)
Definition new_patient (self : DatasetDiscover) (w : world)
    (patient_id : string) : Patient :=
  mkPatient patient_id (os.join (root self) patient_id)
    (os.join (cwd w) "warnings.txt") (os.join (cwd w) "logs.txt").

Definition is_directory (w : world) (p : string) : bool :=
  match os.lookup p (fs w) with Some _ => true | None => false end.

Definition registered (self : DatasetDiscover) (w : world)
    (ids : list string) : Dict.t Patient :=
  fold_left (fun d id =>
               if is_directory w (os.join (root self) id)
               then Dict.set id (new_patient self w id) d else d)
    ids (cls_patients w).

(** Some listed id has its directory, so that a patient is built. *)
Definition constructs (self : DatasetDiscover) (w : world)
    (ids : list string) : bool :=
  existsb (fun id => is_directory w (os.join (root self) id)) ids.

(** Both diagnostic files can be opened in the working directory. *)
Definition diagnostics_ready (w : world) : bool :=
  is_directory w (cwd w)
  && negb (is_directory w (os.join (cwd w) "warnings.txt"))
  && negb (is_directory w (os.join (cwd w) "logs.txt")).

(** The tree once both diagnostic files exist. *)
Definition with_diagnostics (w : world) : filesystem :=
  add_entry (cwd w) "logs.txt" (add_entry (cwd w) "warnings.txt" (fs w)).

(** The world with another tree and another catalog. *)
Definition with_catalog (w : world) (t : filesystem) (d : Dict.t Patient)
  : world :=
  mkWorld t (cwd w) (cls_images w) (cls_masks w) d (copies w) (sink w).

(** What building patients may change: the catalog, and the entries of
    the working directory.  No directory appears or disappears. *)
Definition registers_only (w w' : world) : Prop :=
  cwd w' = cwd w /\ cls_images w' = cls_images w /\
  cls_masks w' = cls_masks w /\ copies w' = copies w /\
  sink w' = sink w /\
  (forall p, is_directory w' p = is_directory w p) /\
  (forall p, p <> cwd w -> os.lookup p (fs w') = os.lookup p (fs w)).

(** The line [_write_warning] appends. *)
Definition warning_line (self : Patient) (msg : message) : line :=
  mkLine (warnings_file self) WARNING (patient_id self) msg.

(** The line [_write_log] appends. *)
Definition log_line (self : Patient) (msg : message) : line :=
  mkLine (logs_file self) PID (patient_id self) msg.

(** A computation that leaves the directory tree as it found it, however
    it ends. *)
Definition keeps_tree {A} (m : M A) : Prop :=
  forall w, fs (after (m w)) = fs w.

(** ** Sample datasets

    Directory trees and patients on which the statements below are run. *)

Module Sample.

Definition home : string := "/home/user".

Definition at_start (t : filesystem) : world :=
  mkWorld t home [] [] [] [] [].

Definition patient (pid : string) : Patient :=
  mkPatient pid (os.join "/data" pid)
    (os.join home "warnings.txt") (os.join home "logs.txt").

(** One series folder with an exact and an extra file, one doctor; the
    working directory is empty. *)
Definition tree : filesystem :=
  [ ("/data", ["p1"; "p2"]);
    ("/data/p1", ["ADC"; "MASKS"]);
    ("/data/p1/ADC", ["adc.nii.gz"; "adc_extra.nii.gz"]);
    ("/data/p1/MASKS", ["doctorA"; "notes.txt"]);
    ("/data/p1/MASKS/doctorA", ["adc.nii.gz"; "adc_v2.nii.gz"]);
    ("/data/p2", ["DWI"; "MASKS"]);
    ("/data/p2/DWI", ["dwi.nii.gz"]);
    ("/data/p2/MASKS", ["doctorB"]);
    ("/data/p2/MASKS/doctorB", ["dwi.nii.gz"]);
    ("/home/user", []) ].

(** A patient without a masks folder. *)
Definition tree_no_masks : filesystem :=
  [ ("/data", ["p1"]);
    ("/data/p1", ["ADC"; "notes"]);
    ("/data/p1/ADC", ["adc.nii.gz"]) ].

(** A patient with two masks folders. *)
Definition tree_two_masks : filesystem :=
  [ ("/data", ["p1"]);
    ("/data/p1", ["ADC"; "MASKS"; "masks_old"]);
    ("/data/p1/ADC", ["adc.nii.gz"]);
    ("/data/p1/MASKS", ["doctorA"]);
    ("/data/p1/MASKS/doctorA", ["adc.nii.gz"]);
    ("/data/p1/masks_old", ["doctorA"]);
    ("/data/p1/masks_old/doctorA", ["adc.nii.gz"]) ].

(** A folder whose exact match carries an exception word. *)
Definition tree_upper : filesystem :=
  [ ("/data", ["p1"]);
    ("/data/p1", ["ADC"; "MASKS"]);
    ("/data/p1/ADC", ["ADC.nii.gz"; "adc_v2.nii.gz"]);
    ("/data/p1/MASKS", []) ].

Definition p1 : Patient := patient "p1".

(** The world after a discovery of "adc" alone with the permissive
    defaults of the signatures. *)
Definition after_custom_discovery : world :=
  after (fetch_all (patient "p1") ["adc"] no_kwargs no_kwargs
           (at_start tree)).
Definition p2 : Patient := patient "p2".
Definition dataset : DatasetDiscover := mkDataset "/data".

(** The dataset built over both patients, then a series discovery of
    "adc" on the first patient, then the same on the second. *)
Definition catalog : world :=
  after (fetch_patients dataset ["p1"; "p2"] series_to_fetch None None
           (at_start tree)).

Definition after_first_patient : world :=
  after (fetch_series p1 ["adc"] default_extension series_config catalog).

Definition after_second_patient : world :=
  after (fetch_series p2 ["adc"] default_extension series_config
           after_first_patient).


(** The world after the first patient discovered masks of a kind that is
    not a default one. *)
Definition after_foreign_masks : world :=
  after (fetch_masks p1 ["t1"] default_extension no_kwargs (at_start tree)).

(** The same patient reached through a relative path. *)
Definition tree_relative : filesystem :=
  [ ("data", ["p1"]);
    ("data/p1", ["ADC"; "MASKS"]);
    ("data/p1/ADC", ["adc.nii.gz"]);
    ("data/p1/MASKS", ["doctorA"]);
    ("data/p1/MASKS/doctorA", ["adc.nii.gz"]) ].

Definition relative_patient : Patient :=
  mkPatient "p1" "data/p1" (os.join home "warnings.txt")
    (os.join home "logs.txt").

(** A dataset whose second patient has no masks folder. *)
Definition tree_mixed : filesystem :=
  [ ("/data", ["p1"; "p2"]);
    ("/data/p1", ["ADC"; "MASKS"]);
    ("/data/p1/ADC", ["adc.nii.gz"]);
    ("/data/p1/MASKS", ["doctorA"]);
    ("/data/p1/MASKS/doctorA", ["adc.nii.gz"]);
    ("/data/p2", ["DWI"]);
    ("/data/p2/DWI", ["dwi.nii.gz"]);
    ("/home/user", []) ].

Definition catalog_mixed : world :=
  after (fetch_patients dataset ["p1"; "p2"] series_to_fetch None None
           (at_start tree_mixed)).

End Sample.

(** * Properties *)

Unset Implicit Arguments.

(** ** Strings and dictionaries *)

Module StrFacts.

Lemma startswith_app (n h : string) :
  Str.startswith n (n ++ h)%string = true.
Proof.
  induction n as [|c n IH]; simpl; [reflexivity|].
  now rewrite Ascii.eqb_refl, IH.
Qed.

Lemma startswith_inv (n h : string) :
  Str.startswith n h = true -> exists r, h = (n ++ r)%string.
Proof.
  revert h; induction n as [|c n IH]; intros h H.
  - now exists h.
  - destruct h as [|d h]; simpl in H; [discriminate|].
    apply andb_true_iff in H as [Hc Hr].
    apply Ascii.eqb_eq in Hc; subst d.
    destruct (IH _ Hr) as [r ->]. now exists r.
Qed.

(** [needle in hay] holds exactly when [hay] splits around [needle]. *)
Lemma contains_iff (n h : string) :
  Str.contains n h = true <->
  exists a b, h = (a ++ n ++ b)%string.
Proof.
  split.
  - induction h as [|c h IH]; simpl; intros H.
    + rewrite orb_false_r in H.
      destruct (startswith_inv _ _ H) as [r Hr]. now exists ""%string, r.
    + apply orb_true_iff in H as [H|H].
      * destruct (startswith_inv n (String c h) H) as [r Hr].
        now exists ""%string, r.
      * destruct (IH H) as (a & b & ->). now exists (String c a), b.
  - intros (a & b & ->). induction a as [|c a IH].
    + simpl. destruct (n ++ b)%string eqn:E; simpl.
      * rewrite orb_false_r. rewrite <- E. apply startswith_app.
      * apply orb_true_iff; left. rewrite <- E. apply startswith_app.
    + simpl. rewrite IH. apply orb_true_r.
Qed.

Lemma lower_app (a b : string) :
  Str.lower (a ++ b) = (Str.lower a ++ Str.lower b)%string.
Proof. induction a as [|c a IH]; simpl; [reflexivity | now rewrite IH]. Qed.

End StrFacts.

Module DictFacts.
Section Facts.
Variable V : Type.
Implicit Types (d : Dict.t V) (k : string) (v : V).

Lemma get_set_same d k v : Dict.get k (Dict.set k v d) = Some v.
Proof.
  induction d as [|[k' v'] d IH]; simpl.
  - now rewrite String.eqb_refl.
  - destruct (String.eqb k k') eqn:E; simpl.
    + now rewrite String.eqb_refl.
    + now rewrite E.
Qed.

Lemma get_set_other d k k' v :
  k' <> k -> Dict.get k' (Dict.set k v d) = Dict.get k' d.
Proof.
  intros Hne. induction d as [|[k0 v0] d IH]; simpl.
  - destruct (String.eqb k' k) eqn:E; [|reflexivity].
    apply String.eqb_eq in E. contradiction.
  - destruct (String.eqb k k0) eqn:E; simpl.
    + apply String.eqb_eq in E; subst k0.
      destruct (String.eqb k' k) eqn:E'; [|reflexivity].
      apply String.eqb_eq in E'. contradiction.
    + now rewrite IH.
Qed.

Lemma keys_set_present d k v :
  In k (Dict.keys d) -> Dict.keys (Dict.set k v d) = Dict.keys d.
Proof.
  induction d as [|[k0 v0] d IH]; simpl; [tauto|].
  intros H. destruct (String.eqb k k0) eqn:E; simpl.
  - apply String.eqb_eq in E. now subst.
  - f_equal. apply IH. destruct H as [H|H]; [|exact H].
    subst k0. now rewrite String.eqb_refl in E.
Qed.

Lemma keys_tabulate (g : string -> V) ks :
  Dict.keys (Dict.tabulate g ks) = ks.
Proof.
  unfold Dict.keys, Dict.tabulate. rewrite map_map; simpl. apply map_id.
Qed.

Lemma get_tabulate (g : string -> V) ks k :
  In k ks -> Dict.get k (Dict.tabulate g ks) = Some (g k).
Proof.
  induction ks as [|k0 ks IH]; simpl; [tauto|].
  intros H. destruct (String.eqb k k0) eqn:E.
  - apply String.eqb_eq in E. now subst.
  - apply IH. destruct H as [H|H]; [|exact H].
    subst k0. now rewrite String.eqb_refl in E.
Qed.

Lemma tabulate_ext (g g' : string -> V) ks :
  (forall k, In k ks -> g k = g' k) ->
  Dict.tabulate g ks = Dict.tabulate g' ks.
Proof.
  intros H. unfold Dict.tabulate. apply map_ext_in. intros k Hk.
  now rewrite H.
Qed.

Lemma override_same (g : string -> V) k v : Dict.override g k v k = v.
Proof. unfold Dict.override. now rewrite String.eqb_refl. Qed.

Lemma override_other (g : string -> V) k k' v :
  k' <> k -> Dict.override g k v k' = g k'.
Proof.
  intros H. unfold Dict.override.
  destruct (String.eqb k' k) eqn:E; [|reflexivity].
  apply String.eqb_eq in E. contradiction.
Qed.

Lemma set_tabulate (g : string -> V) ks k v :
  NoDup ks -> In k ks ->
  Dict.set k v (Dict.tabulate g ks) =
  Dict.tabulate (Dict.override g k v) ks.
Proof.
  induction ks as [|k0 ks IH]; simpl; [tauto|].
  intros Hnd H. inversion Hnd as [|? ? Hnotin Hnd']; subst.
  destruct (String.eqb k k0) eqn:E.
  - apply String.eqb_eq in E; subst k0. rewrite override_same.
    f_equal. apply tabulate_ext. intros k' Hk'.
    rewrite override_other; [reflexivity|]. intros ->. contradiction.
  - assert (k0 <> k) as Hne
      by (intros ->; now rewrite String.eqb_refl in E).
    rewrite override_other by exact Hne. f_equal. apply IH; [exact Hnd'|].
    destruct H as [H|H]; [contradiction | exact H].
Qed.

Lemma from_keys_tabulate ks (v0 : V) :
  NoDup ks -> Dict.from_keys ks v0 = Dict.tabulate (fun _ => v0) ks.
Proof.
  unfold Dict.from_keys.
  enough (forall pre, NoDup (pre ++ ks) ->
            fold_left (fun d k => Dict.set k v0 d) ks
              (Dict.tabulate (fun _ => v0) pre) =
            Dict.tabulate (fun _ => v0) (pre ++ ks)) as H
    by (intros Hnd; exact (H [] Hnd)).
  induction ks as [|k ks IH]; intros pre Hnd; simpl.
  - now rewrite app_nil_r.
  - replace (Dict.set k v0 (Dict.tabulate (fun _ => v0) pre))
      with (Dict.tabulate (fun _ : string => v0) (pre ++ [k])).
    + rewrite IH; rewrite <- app_assoc; [reflexivity | exact Hnd].
    + assert (~ In k pre) as Hk.
      { apply NoDup_remove_2 in Hnd. intros Hin. apply Hnd.
        apply in_or_app. now left. }
      clear IH Hnd. induction pre as [|p pre IHp]; simpl; [reflexivity|].
      destruct (String.eqb k p) eqn:E.
      * apply String.eqb_eq in E. subst p. exfalso. apply Hk. now left.
      * f_equal. apply IHp. intros Hin. apply Hk. now right.
Qed.

End Facts.
End DictFacts.

(** ** The monad *)

Section MonadFacts.
Context {A B : Type}.

Lemma bind_ok (m : M A) (k : A -> M B) w a w' :
  m w = (Ok a, w') -> bind m k w = k a w'.
Proof. intros H. unfold bind. now rewrite H. Qed.

Lemma bind_raise (m : M A) (k : A -> M B) w e w' :
  m w = (Raise e, w') -> bind m k w = (Raise e, w').
Proof. intros H. unfold bind. now rewrite H. Qed.

Lemma bind_ok_inv (m : M A) (k : A -> M B) w b w2 :
  bind m k w = (Ok b, w2) ->
  exists a w1, m w = (Ok a, w1) /\ k a w1 = (Ok b, w2).
Proof.
  unfold bind. destruct (m w) as [[a|e] w1]; intros H.
  - now exists a, w1.
  - discriminate.
Qed.

Lemma run_eta (r : outcome A * world) : r = (value r, after r).
Proof. now destruct r. Qed.
End MonadFacts.

(** ** Frames and readers *)

Lemma sink_extends_refl w : sink_extends w w.
Proof. exists []. now rewrite app_nil_r. Qed.

Lemma sink_extends_trans w1 w2 w3 :
  sink_extends w1 w2 -> sink_extends w2 w3 -> sink_extends w1 w3.
Proof.
  intros [l1 H1] [l2 H2]. exists (l1 ++ l2).
  now rewrite H2, H1, app_assoc.
Qed.

Lemma sink_extends_same w w' : sink w' = sink w -> sink_extends w w'.
Proof. intros H. exists []. now rewrite app_nil_r. Qed.

Lemma frame_refl w : frame w w.
Proof. unfold frame. pose proof (sink_extends_refl w). tauto. Qed.

Lemma frame_trans w1 w2 w3 : frame w1 w2 -> frame w2 w3 -> frame w1 w3.
Proof.
  unfold frame. intros H1 H2.
  assert (sink_extends w1 w3)
    by (eapply sink_extends_trans; [apply H1 | apply H2]).
  intuition congruence.
Qed.

Lemma frame_fs w w' : frame w w' -> fs w' = fs w.
Proof. unfold frame; tauto. Qed.

Section ReaderFacts.
Context {A B : Type}.

Lemma reader_ret (a : A) : reader (ret a).
Proof. split; intros; [apply frame_refl | reflexivity]. Qed.

Lemma reader_raise (e : exn) : reader (@raise A e).
Proof. split; intros; [apply frame_refl | reflexivity]. Qed.

Lemma reader_bind (m : M A) (k : A -> M B) :
  reader m -> (forall a, reader (k a)) -> reader (bind m k).
Proof.
  intros [Hf Hv] Hk. split.
  - intros w. unfold bind. specialize (Hf w).
    destruct (m w) as [[a|e] w1]; simpl in *; [|exact Hf].
    eapply frame_trans; [exact Hf | apply (Hk a)].
  - intros w w' Hfs. unfold bind.
    pose proof (Hv w w' Hfs) as Hval.
    pose proof (Hf w) as F1. pose proof (Hf w') as F2.
    destruct (m w) as [[a|e] w1], (m w') as [[a'|e'] w1'];
      simpl in *; try discriminate; inversion Hval; subst;
      [|reflexivity].
    apply (Hk a'). apply frame_fs in F1, F2. congruence.
Qed.

Lemma reader_value (m : M A) w w' :
  reader m -> fs w = fs w' -> value (m w) = value (m w').
Proof. intros [_ H]. apply H. Qed.

Lemma reader_frame (m : M A) w : reader m -> frame w (after (m w)).
Proof. intros [H _]. apply H. Qed.
End ReaderFacts.

Lemma reader_listdir p : reader (os.listdir p).
Proof.
  split.
  - intros w. unfold os.listdir.
    destruct (os.lookup p (fs w)); apply frame_refl.
  - intros w w' H. unfold os.listdir. rewrite <- H.
    now destruct (os.lookup p (fs w)).
Qed.

Lemma reader_isdir p : reader (os.isdir p).
Proof.
  split.
  - intros w. apply frame_refl.
  - intros w w' H. unfold os.isdir, value; simpl. now rewrite H.
Qed.

Lemma append_line_frame l w : frame w (after (append_line l w)).
Proof.
  unfold frame; simpl. repeat split. now exists [l].
Qed.

Lemma reader_append_line l : reader (append_line l).
Proof. split; intros; [apply append_line_frame | reflexivity]. Qed.

Lemma reader_write_log self msg : reader (_write_log self msg).
Proof. apply reader_append_line. Qed.

Lemma reader_write_warning self msg : reader (_write_warning self msg).
Proof. apply reader_append_line. Qed.

Lemma reader_getitem {V} (d : Dict.t V) k : reader (getitem d k).
Proof.
  unfold getitem. destruct (Dict.get k d);
    [apply reader_ret | apply reader_raise].
Qed.

Lemma reader_filterM {A} (c : A -> M bool) l :
  (forall x, reader (c x)) -> reader (filterM c l).
Proof.
  intros Hc. induction l as [|x l IH]; simpl.
  - apply reader_ret.
  - apply reader_bind; [apply Hc|]. intros b.
    apply reader_bind; [exact IH|]. intros xs. apply reader_ret.
Qed.

Lemma reader_foldM {A S} (body : S -> A -> M S) l acc :
  (forall s x, reader (body s x)) -> reader (foldM body l acc).
Proof.
  intros Hb. revert acc. induction l as [|x l IH]; intros acc; simpl.
  - apply reader_ret.
  - apply reader_bind; [apply Hb | intros; apply IH].
Qed.

Create HintDb reader discriminated.
#[local] Hint Resolve reader_ret reader_raise reader_listdir reader_isdir
  reader_append_line reader_write_log reader_write_warning reader_getitem
  : reader.

(** Peels a computation built from the combinators above. *)
Ltac reader_step :=
  match goal with
  | |- reader (bind _ _) => apply reader_bind; [|intros]
  | |- reader (filterM _ _) => apply reader_filterM; intros
  | |- reader (foldM _ _ _) => apply reader_foldM; intros
  | |- reader (if ?b then _ else _) => destruct b
  | |- reader (match ?x with _ => _ end) => destruct x
  | |- reader (let '(_, _) := ?x in _) => destruct x
  | |- reader _ => solve [auto with reader]
  end.
Ltac reader_auto := repeat reader_step.

Lemma reader_check_exception_words self file exceptions :
  reader (_check_exception_words self file exceptions).
Proof.
  destruct exceptions as [l|]; simpl; [|apply reader_ret].
  induction l as [|e l IH]; simpl; [apply reader_ret|].
  destruct (Str.contains e file); [reader_auto | exact IH].
Qed.
#[local] Hint Resolve reader_check_exception_words : reader.

Lemma reader_select_files self series_desc folder ext exceptions fm tfm :
  reader (_select_files self series_desc folder ext exceptions fm tfm).
Proof. unfold _select_files. reader_auto. Qed.
#[local] Hint Resolve reader_select_files : reader.

Lemma reader_extend_item {V} (d : Dict.t (list V)) k x :
  reader (extend_item d k x).
Proof. unfold extend_item. reader_auto. Qed.
#[local] Hint Resolve reader_extend_item : reader.

Lemma reader_fetch_single_series self series_desc ext kw :
  reader (_fetch_single_series self series_desc ext kw).
Proof. unfold _fetch_single_series. reader_auto. Qed.

Lemma reader_fetch_single_mask self series_desc ext kw :
  reader (_fetch_single_mask self series_desc ext kw).
Proof. unfold _fetch_single_mask. reader_auto. Qed.
#[local] Hint Resolve reader_fetch_single_series reader_fetch_single_mask
  : reader.

(** ** File matching *)

Lemma bind_ret {A B} (a : A) (k : A -> M B) w : bind (ret a) k w = k a w.
Proof. reflexivity. Qed.

Lemma bind_value_ok {A B} (m : M A) (k : A -> M B) w a :
  value (m w) = Ok a -> bind m k w = k a (after (m w)).
Proof.
  intros H. apply bind_ok. rewrite (run_eta (m w)). now rewrite H.
Qed.

Lemma bind_value_raise {A B} (m : M A) (k : A -> M B) w e :
  value (m w) = Raise e -> bind m k w = (Raise e, after (m w)).
Proof.
  intros H. apply bind_raise. rewrite (run_eta (m w)). now rewrite H.
Qed.

Lemma check_loop_value self file l w :
  value (check_loop self file l w) =
  Ok (negb (existsb (fun excp => Str.contains excp file) l)).
Proof.
  induction l as [|e l IH]; simpl; [reflexivity|].
  destruct (Str.contains e file); simpl; [reflexivity | exact IH].
Qed.

Lemma check_exception_words_value self file exceptions w :
  value (_check_exception_words self file exceptions w) =
  Ok (survives exceptions file).
Proof.
  destruct exceptions as [l|]; simpl; [apply check_loop_value | reflexivity].
Qed.

Lemma filterM_value {A} (c : A -> M bool) (g : A -> bool) l :
  (forall x w, value (c x w) = Ok (g x)) ->
  forall w, value (filterM c l w) = Ok (filter g l).
Proof.
  intros Hc. induction l as [|x l IH]; intros w; simpl; [reflexivity|].
  erewrite bind_value_ok by apply Hc.
  erewrite bind_value_ok by apply IH. reflexivity.
Qed.

Lemma listdir_value p w entries :
  os.lookup p (fs w) = Some entries -> os.listdir p w = (Ok entries, w).
Proof. intros H. unfold os.listdir. now rewrite H. Qed.

Lemma listdir_missing p w :
  os.lookup p (fs w) = None -> os.listdir p w = (Raise (OSError p), w).
Proof. intros H. unfold os.listdir. now rewrite H. Qed.

Lemma filterM_frame {A} (c : A -> M bool) l w :
  (forall x, reader (c x)) -> frame w (after (filterM c l w)).
Proof. intros H. apply reader_frame. now apply reader_filterM. Qed.

(** What [_select_files] returns in a folder that can be listed: the
    selected names of its listing, each joined to the folder. *)
Lemma select_files_value self series_desc folder ext exceptions fm tfm w
    files :
  os.lookup folder (fs w) = Some files ->
  value (_select_files self series_desc folder ext exceptions fm tfm w) =
  Ok (map (os.join folder)
        (selected_names series_desc ext exceptions fm tfm files)).
Proof.
  intros Hls. unfold _select_files.
  set (c1 := fun file : string =>
               if String.eqb (Str.lower file) (Str.lower series_desc ++ ext)
               then _check_exception_words self file exceptions
               else ret false).
  set (c2 := fun file : string =>
               if Str.contains ext file
               then _check_exception_words self file exceptions
               else ret false).
  assert (forall x w', value (c1 x w') =
            Ok (exact_match series_desc ext x && survives exceptions x)) as H1.
  { intros x w'. unfold c1, exact_match.
    destruct (String.eqb _ _); simpl;
      [apply check_exception_words_value | reflexivity]. }
  assert (forall x w', value (c2 x w') =
            Ok (has_extension ext x && survives exceptions x)) as H2.
  { intros x w'. unfold c2, has_extension.
    destruct (Str.contains ext x); simpl;
      [apply check_exception_words_value | reflexivity]. }
  assert (forall x, reader (c1 x)) as R1
    by (intros x; unfold c1; reader_auto).
  assert (forall x, reader (c2 x)) as R2
    by (intros x; unfold c2; reader_auto).
  assert (forall w', fs w' = fs w ->
            value ((files0 <- os.listdir folder ;;
                    kept <- filterM c2 files0 ;;
                    ret (map (os.join folder) kept)) w') =
            Ok (map (os.join folder)
                  (permissive_survivors ext exceptions files))) as P.
  { intros w' Hfs.
    erewrite bind_ok by (apply listdir_value; rewrite Hfs; exact Hls).
    erewrite bind_value_ok by (apply filterM_value; exact H2).
    reflexivity. }
  assert (forall w', fs w' = fs w ->
            value ((files0 <- os.listdir folder ;;
                    kept <- filterM c1 files0 ;;
                    ret (map (os.join folder) kept)) w') =
            Ok (map (os.join folder)
                  (exact_survivors series_desc ext exceptions files))) as Q.
  { intros w' Hfs.
    erewrite bind_ok by (apply listdir_value; rewrite Hfs; exact Hls).
    erewrite bind_value_ok by (apply filterM_value; exact H1).
    reflexivity. }
  assert (reader (files0 <- os.listdir folder ;;
                  kept <- filterM c1 files0 ;;
                  ret (map (os.join folder) kept))) as RQ by reader_auto.
  unfold selected_names.
  destruct fm, tfm; simpl.
  1, 3: erewrite bind_value_ok by (apply Q; reflexivity);
        rewrite length_map;
        destruct (exact_survivors series_desc ext exceptions files);
        simpl; [|reflexivity];
        apply P; apply frame_fs; apply reader_frame; exact RQ.
  - erewrite bind_value_ok by (apply Q; reflexivity). reflexivity.
  - apply (P w). reflexivity.
Qed.

Lemma exact_survivors_In series_desc ext exceptions files name :
  In name (exact_survivors series_desc ext exceptions files) <->
  In name files /\
  Str.lower name = (Str.lower series_desc ++ ext)%string /\
  survives exceptions name = true.
Proof.
  unfold exact_survivors, exact_match. rewrite filter_In, andb_true_iff.
  now rewrite String.eqb_eq.
Qed.

Lemma permissive_survivors_In ext exceptions files name :
  In name (permissive_survivors ext exceptions files) <->
  In name files /\
  (exists a b, name = (a ++ ext ++ b)%string) /\
  survives exceptions name = true.
Proof.
  unfold permissive_survivors, has_extension.
  rewrite filter_In, andb_true_iff. now rewrite StrFacts.contains_iff.
Qed.

Lemma survives_some l name :
  survives (Some l) name = true <->
  forall excp, In excp l -> Str.contains excp name = false.
Proof.
  simpl. rewrite negb_true_iff. split.
  - intros H excp Hin. destruct (Str.contains excp name) eqn:E; [|reflexivity].
    assert (existsb (fun e => Str.contains e name) l = true) as Hex
      by (apply existsb_exists; now exists excp).
    congruence.
  - intros H. destruct (existsb _ l) eqn:E; [|reflexivity].
    apply existsb_exists in E as (excp & Hin & Hc).
    rewrite (H _ Hin) in Hc. discriminate.
Qed.

(** With [full_match] alone the selection is the exact rule. *)
Lemma select_files_full_match_only self series_desc folder ext exceptions w
    files :
  os.lookup folder (fs w) = Some files ->
  value (_select_files self series_desc folder ext exceptions true false w) =
  Ok (map (os.join folder)
        (exact_survivors series_desc ext exceptions files)).
Proof. intros H. now rewrite (select_files_value _ _ _ _ _ _ _ _ _ H). Qed.

(** With both flags set the selection is the one of [try_full_match]. *)
Lemma select_files_both_flags self series_desc folder ext exceptions w files :
  os.lookup folder (fs w) = Some files ->
  value (_select_files self series_desc folder ext exceptions true true w) =
  value (_select_files self series_desc folder ext exceptions false true w).
Proof.
  intros H. now rewrite !(select_files_value _ _ _ _ _ _ _ _ _ H).
Qed.

(** Under [full_match], whatever [try_full_match] is, a listed name whose
    lowercase form is the lowercase logical name followed by the
    extension, and which no exception word excludes, is selected. *)
Lemma exact_name_qualifies_under_full_match self series_desc folder ext
    exceptions tfm w files name :
  os.lookup folder (fs w) = Some files ->
  In name files ->
  Str.lower name = (Str.lower series_desc ++ ext)%string ->
  survives exceptions name = true ->
  exists selected,
    value (_select_files self series_desc folder ext exceptions true tfm w) =
    Ok selected /\ In (os.join folder name) selected.
Proof.
  intros Hls Hin Hlow Hs.
  assert (In name (exact_survivors series_desc ext exceptions files)) as He
    by (apply exact_survivors_In; tauto).
  eexists. split; [apply select_files_value; exact Hls|].
  apply in_map. unfold selected_names.
  destruct tfm; [|exact He].
  destruct (exact_survivors series_desc ext exceptions files);
    [contradiction | exact He].
Qed.

(** C1.  In the folder [/data/p1/ADC], which holds [adc.nii.gz] and
    [adc_extra.nii.gz] and no file named [dwi.nii.gz], selecting "dwi" with
    [full_match] and [try_full_match] both set returns the two files that
    carry the extension, although no file passes the exact rule; with
    [full_match] alone the same selection is empty. *)
Theorem select_files_full_match_falls_back :
  exact_survivors "dwi" ".nii.gz" None
    ["adc.nii.gz"; "adc_extra.nii.gz"] = [] /\
  value (_select_files Sample.p1 "dwi" "/data/p1/ADC" ".nii.gz" None
           true true (Sample.at_start Sample.tree)) =
  Ok ["/data/p1/ADC/adc.nii.gz"; "/data/p1/ADC/adc_extra.nii.gz"] /\
  value (_select_files Sample.p1 "dwi" "/data/p1/ADC" ".nii.gz" None
           true false (Sample.at_start Sample.tree)) =
  Ok [].
Proof. repeat split; vm_compute; reflexivity. Qed.

(** C2 as stated fails: the folder holds the exact match [ADC.nii.gz],
    the exception word "ADC" excludes it, and the selection for "adc" under
    [try_full_match] is then [adc_v2.nii.gz], which is not an exact
    match, instead of the exact matches left by the filter (none). *)
Lemma try_full_match_excluded_exact_counterexample :
  existsb (exact_match "adc" ".nii.gz") ["ADC.nii.gz"; "adc_v2.nii.gz"]
  = true /\
  value (_select_files Sample.p1 "adc" "/data/p1/ADC" ".nii.gz"
           (Some ["ADC"]) false true (Sample.at_start Sample.tree_upper)) =
  Ok ["/data/p1/ADC/adc_v2.nii.gz"] /\
  exact_match "adc" ".nii.gz" "adc_v2.nii.gz" = false /\
  value (_select_files Sample.p1 "adc" "/data/p1/ADC" ".nii.gz"
           (Some ["ADC"]) false true (Sample.at_start Sample.tree_upper)) <>
  Ok (map (os.join "/data/p1/ADC")
        (filter (survives (Some ["ADC"]))
           (filter (exact_match "adc" ".nii.gz")
              ["ADC.nii.gz"; "adc_v2.nii.gz"]))).
Proof. repeat split; vm_compute; try reflexivity. discriminate. Qed.

(** C2, amended.  In a folder that can be listed, selection with
    [try_full_match] set and [full_match] unset returns the exact matches
    that no exception word excludes when there is at least one of them,
    and otherwise every name that contains the extension and that no
    exception word excludes; in both cases joined to the folder and in
    listing order. *)
Theorem try_full_match_selection self series_desc folder ext exceptions w
    files :
  os.lookup folder (fs w) = Some files ->
  (exact_survivors series_desc ext exceptions files <> [] ->
   value (_select_files self series_desc folder ext exceptions
            false true w) =
   Ok (map (os.join folder)
         (exact_survivors series_desc ext exceptions files))) /\
  (exact_survivors series_desc ext exceptions files = [] ->
   value (_select_files self series_desc folder ext exceptions
            false true w) =
   Ok (map (os.join folder)
         (permissive_survivors ext exceptions files))) /\
  (forall name,
     In name (exact_survivors series_desc ext exceptions files) <->
     In name files /\
     Str.lower name = (Str.lower series_desc ++ ext)%string /\
     survives exceptions name = true) /\
  (forall name,
     In name (permissive_survivors ext exceptions files) <->
     In name files /\ Str.contains ext name = true /\
     survives exceptions name = true).
Proof.
  intros H. rewrite (select_files_value _ _ _ _ _ _ _ _ _ H).
  unfold selected_names. split; [|split; [|split]].
  - intros Hne.
    destruct (exact_survivors series_desc ext exceptions files);
      [contradiction | reflexivity].
  - intros ->. reflexivity.
  - intros name. apply exact_survivors_In.
  - intros name. unfold permissive_survivors, has_extension.
    rewrite filter_In, andb_true_iff. reflexivity.
Qed.

Lemma try_full_match_selection_witness :
  os.lookup "/data/p1/ADC" (fs (Sample.at_start Sample.tree)) =
  Some ["adc.nii.gz"; "adc_extra.nii.gz"] /\
  value (_select_files Sample.p1 "adc" "/data/p1/ADC" ".nii.gz" None
           false true (Sample.at_start Sample.tree)) =
  Ok ["/data/p1/ADC/adc.nii.gz"].
Proof.
  split; [reflexivity|].
  destruct (try_full_match_selection Sample.p1 "adc" "/data/p1/ADC"
              ".nii.gz" None (Sample.at_start Sample.tree)
              ["adc.nii.gz"; "adc_extra.nii.gz"] eq_refl) as [H _].
  rewrite H; [reflexivity | vm_compute; discriminate].
Defined.

(** ** Exception filtering *)

Lemma filter_exceptions_value self exceptions files w :
  value (filter_exceptions self exceptions files w) =
  Ok (filter (survives exceptions) files).
Proof.
  unfold filter_exceptions. apply filterM_value.
  intros x w'. apply check_exception_words_value.
Qed.

Lemma survives_app l1 l2 name :
  survives (Some (l1 ++ l2)) name =
  survives (Some l1) name && survives (Some l2) name.
Proof. simpl. now rewrite existsb_app, negb_orb. Qed.

Lemma filter_twice {A} (f g : A -> bool) l :
  filter g (filter f l) = filter (fun x => f x && g x) l.
Proof.
  induction l as [|x l IH]; simpl; [reflexivity|].
  destruct (f x); simpl; [|exact IH].
  destruct (g x); now rewrite IH.
Qed.

Lemma filter_exceptions_twice self l1 l2 files w :
  value ((kept <- filter_exceptions self (Some l1) files ;;
          filter_exceptions self (Some l2) kept) w) =
  Ok (filter (survives (Some (l1 ++ l2))) files).
Proof.
  erewrite bind_value_ok by apply filter_exceptions_value.
  rewrite filter_exceptions_value, filter_twice.
  f_equal. apply filter_ext. intros name. now rewrite survives_app.
Qed.

(** C8.  Filtering a list of names by one exception list and the result
    by a second one leaves the names that filtering once by both lists
    leaves, in either order of the two passes and of the two lists, and
    filtering a filtered list again by the same exceptions changes
    nothing; so it is for "bad" and "worse". *)
Theorem exception_filtering_idempotent_order_independent self files w :
  (forall l1 l2,
     value ((kept <- filter_exceptions self (Some l1) files ;;
             filter_exceptions self (Some l2) kept) w) =
     value (filter_exceptions self (Some (l1 ++ l2)) files w) /\
     value ((kept <- filter_exceptions self (Some l2) files ;;
             filter_exceptions self (Some l1) kept) w) =
     value (filter_exceptions self (Some (l1 ++ l2)) files w) /\
     value (filter_exceptions self (Some (l2 ++ l1)) files w) =
     value (filter_exceptions self (Some (l1 ++ l2)) files w)) /\
  (forall exceptions,
     value ((kept <- filter_exceptions self exceptions files ;;
             filter_exceptions self exceptions kept) w) =
     value (filter_exceptions self exceptions files w)) /\
  value ((kept <- filter_exceptions self (Some ["bad"]) files ;;
          filter_exceptions self (Some ["worse"]) kept) w) =
  value (filter_exceptions self (Some ["bad"; "worse"]) files w).
Proof.
  assert (forall l1 l2,
            filter (survives (Some (l2 ++ l1))) files =
            filter (survives (Some (l1 ++ l2))) files) as Hswap.
  { intros l1 l2. apply filter_ext. intros name.
    rewrite !survives_app. apply andb_comm. }
  split; [|split].
  - intros l1 l2. rewrite !filter_exceptions_twice.
    rewrite !filter_exceptions_value. rewrite (Hswap l1 l2). tauto.
  - intros exceptions.
    erewrite bind_value_ok by apply filter_exceptions_value.
    rewrite !filter_exceptions_value, filter_twice.
    f_equal. apply filter_ext. intros name. apply andb_diag.
  - rewrite filter_exceptions_twice, filter_exceptions_value. reflexivity.
Qed.

(** ** Loops over a dictionary of lists *)

Section Accumulate.
Context {A V : Type}.
Variables (key : A -> string) (add : A -> list V).

Lemma accumulate_absent todo g k :
  ~ In k (map key todo) -> accumulate key add todo g k = g k.
Proof.
  revert g. induction todo as [|x todo IH]; intros g Hk; simpl;
    [reflexivity|].
  rewrite IH by (intros H; apply Hk; now right).
  apply DictFacts.override_other. intros ->. apply Hk. now left.
Qed.

Lemma accumulate_present todo g x :
  NoDup (map key todo) -> In x todo ->
  exists y, In y todo /\ key y = key x /\
            accumulate key add todo g (key x) = g (key x) ++ add y.
Proof.
  revert g. induction todo as [|x0 todo IH]; intros g Hnd Hin;
    [contradiction|].
  simpl in Hnd. inversion Hnd as [|? ? Hfresh Hnd']; subst.
  destruct (string_dec (key x0) (key x)) as [E|E].
  - exists x0. split; [now left|]. split; [exact E|]. simpl.
    rewrite <- E. rewrite accumulate_absent by exact Hfresh.
    apply DictFacts.override_same.
  - destruct Hin as [->|Hin]; [contradiction|].
    destruct (IH (Dict.override g (key x0) (g (key x0) ++ add x0))
                Hnd' Hin) as (y & Hy & Hk & Hacc).
    exists y. split; [now right|]. split; [exact Hk|]. simpl.
    rewrite Hacc. rewrite DictFacts.override_other; [reflexivity|].
    intros H. apply E. now symmetry.
Qed.

(** A loop whose body extends the list at [key x] by [add x], on a
    dictionary tabulated over distinct keys [ks]. *)
Lemma foldM_accumulate (P : world -> Prop) ks
    (body : Dict.t (list V) -> A -> M (Dict.t (list V))) :
  (forall g x w, P w -> In (key x) ks ->
     exists w', body (Dict.tabulate g ks) x w =
                (Ok (Dict.tabulate
                       (Dict.override g (key x) (g (key x) ++ add x)) ks),
                 w') /\ P w') ->
  forall todo g w,
    P w -> (forall x, In x todo -> In (key x) ks) ->
    exists w', foldM body todo (Dict.tabulate g ks) w =
               (Ok (Dict.tabulate (accumulate key add todo g) ks), w')
               /\ P w'.
Proof.
  intros Hbody. induction todo as [|x todo IH]; intros g w Hw Hin; simpl.
  - exists w. now split.
  - destruct (Hbody g x w Hw (Hin x (or_introl eq_refl)))
      as (w1 & Hrun & Hw1).
    erewrite bind_ok by exact Hrun.
    apply IH; [exact Hw1|]. intros y Hy. apply Hin. now right.
Qed.
End Accumulate.

Lemma extend_item_tabulate {V} (g : string -> list V) ks k x w :
  NoDup ks -> In k ks ->
  extend_item (Dict.tabulate g ks) k x w =
  (Ok (Dict.tabulate (Dict.override g k (g k ++ x)) ks), w).
Proof.
  intros Hnd Hin. unfold extend_item, getitem.
  rewrite DictFacts.get_tabulate by exact Hin.
  unfold bind, ret. now rewrite DictFacts.set_tabulate.
Qed.

Lemma filterM_isdir (path_of : string -> string) l w :
  filterM (fun folder => os.isdir (path_of folder)) l w =
  (Ok (filter (fun folder =>
                 match os.lookup (path_of folder) (fs w) with
                 | Some _ => true
                 | None => false
                 end) l), w).
Proof.
  induction l as [|x l IH]; simpl; [reflexivity|].
  unfold bind at 1. unfold os.isdir at 1. unfold bind at 1. rewrite IH.
  unfold ret. now destruct (os.lookup (path_of x) (fs w)).
Qed.

Lemma write_log_frame self msg w :
  exists w', _write_log self msg w = (Ok tt, w') /\ frame w w'.
Proof.
  eexists; split; [reflexivity|].
  apply (append_line_frame
           (mkLine (logs_file self) PID (patient_id self) msg) w).
Qed.

(** ** Mask discovery *)

Lemma NoDup_filter {A} (f : A -> bool) l : NoDup l -> NoDup (filter f l).
Proof.
  induction 1 as [|x l Hx Hnd IH]; simpl; [constructor|].
  destruct (f x); [|exact IH].
  constructor; [|exact IH]. intros H. apply Hx.
  apply filter_In in H. tauto.
Qed.

Lemma doctors_of_listable t mfp sub doctor :
  In doctor (doctors_of t mfp sub) ->
  os.lookup (os.join mfp doctor) t = Some (listing t (os.join mfp doctor)).
Proof.
  unfold doctors_of, listing. rewrite filter_In. intros [_ H].
  now destruct (os.lookup (os.join mfp doctor) t).
Qed.

(** The run of [_fetch_single_mask] on a patient with one masks folder
    that can be listed: one key per doctor, holding one item. *)
Lemma fetch_single_mask_run self series_desc ext kw w entries m sub :
  os.lookup (patient_path self) (fs w) = Some entries ->
  matching_folders mask_folder_name entries = [m] ->
  os.lookup (os.join (patient_path self) (os.join (patient_path self) m))
    (fs w) = Some sub ->
  NoDup sub ->
  exists w',
    _fetch_single_mask self series_desc ext kw w =
    (Ok (Dict.tabulate
           (fun doctor =>
              [_create_mask (Some series_desc)
                 (Some (PathList
                    (resolved_paths (fs w) series_desc ext kw
                       (os.join
                          (os.join (patient_path self)
                             (os.join (patient_path self) m)) doctor))))
                 (Some doctor)])
           (doctors_of (fs w)
              (os.join (patient_path self) (os.join (patient_path self) m))
              sub)), w')
    /\ frame w w'.
Proof.
  intros Hls Hm Hsub Hnd.
  set (mfp := os.join (patient_path self) (os.join (patient_path self) m))
    in *.
  set (doctors := doctors_of (fs w) mfp sub).
  assert (NoDup doctors) as Hdoc by (apply NoDup_filter; exact Hnd).
  unfold _fetch_single_mask.
  erewrite bind_ok by (apply listdir_value; exact Hls).
  change (filter _ entries) with (matching_folders mask_folder_name entries).
  rewrite Hm.
  cbn [map length Nat.ltb Nat.leb].
  rewrite !bind_ret.
  change (os.join (patient_path self) (os.join (patient_path self) m))
    with mfp.
  erewrite bind_ok by (apply listdir_value; exact Hsub).
  erewrite bind_ok by apply filterM_isdir.
  change (filter _ sub) with doctors.
  rewrite !DictFacts.from_keys_tabulate by exact Hdoc.
  (* first loop: the selected paths of every doctor *)
  set (add1 := fun doctor : string =>
                 resolved_paths (fs w) series_desc ext kw
                   (os.join mfp doctor)).
  match goal with
  | |- context [foldM ?body doctors (Dict.tabulate ?g0 doctors)] =>
      assert (exists w1,
                foldM body doctors (Dict.tabulate g0 doctors) w =
                (Ok (Dict.tabulate
                       (accumulate (fun d : string => d) add1 doctors g0)
                       doctors), w1) /\ frame w w1)
        as (w1 & Hloop1 & Hw1)
  end.
  { apply (foldM_accumulate (fun d : string => d) add1 (frame w));
      [|apply frame_refl | intros x Hx; exact Hx].
    intros g x w0 Hw0 Hx.
    pose proof (doctors_of_listable _ _ _ _ Hx) as Hlx.
    pose proof (frame_fs _ _ Hw0) as Hfs0.
    erewrite bind_ok by (apply listdir_value; rewrite Hfs0; exact Hlx).
    destruct (write_log_frame self
                (FilesFound (os.join mfp x) (listing (fs w) (os.join mfp x)))
                w0) as (wa & Ha & Fa).
    erewrite bind_ok by exact Ha.
    destruct (write_log_frame self
                (SelectCall "_fetch_single_mask" series_desc
                   (exceptions kw) (try_full_match kw) (full_match kw))
                wa) as (wb & Hb & Fb).
    erewrite bind_ok by exact Hb.
    assert (frame w wb) as Fwb
      by (eapply frame_trans; [exact Hw0 | eapply frame_trans; eassumption]).
    erewrite bind_value_ok
      by (apply select_files_value; rewrite (frame_fs _ _ Fwb); exact Hlx).
    rewrite extend_item_tabulate by assumption.
    eexists; split; [reflexivity|].
    eapply frame_trans; [exact Fwb|].
    apply reader_frame. apply reader_select_files. }
  erewrite bind_ok by exact Hloop1.
  set (G1 := accumulate (fun d : string => d) add1 doctors (fun _ => [])).
  destruct (write_log_frame self
              (MasksSelected (Dict.values (Dict.tabulate G1 doctors))) w1)
    as (w2 & Hlog & Hw2).
  erewrite bind_ok by exact Hlog.
  (* second loop: one item per doctor *)
  set (add2 := fun item : string * list string =>
                 [_create_mask (Some series_desc)
                    (Some (PathList (snd item))) (Some (fst item))]).
  match goal with
  | |- context [foldM ?body (Dict.tabulate G1 doctors)
                  (Dict.tabulate ?g0 doctors)] =>
      assert (exists w3,
                foldM body (Dict.tabulate G1 doctors)
                  (Dict.tabulate g0 doctors) w2 =
                (Ok (Dict.tabulate
                       (accumulate (@fst string (list string)) add2
                          (Dict.tabulate G1 doctors) g0) doctors), w3)
                /\ w3 = w2)
        as (w3 & Hloop2 & ->)
  end.
  { apply (foldM_accumulate (@fst string (list string)) add2
             (fun w' => w' = w2)); [|reflexivity|].
    - intros g [doctor path0] w0 -> Hx. simpl in Hx.
      rewrite extend_item_tabulate by assumption.
      eexists; split; reflexivity.
    - intros [doctor path0] Hx. unfold Dict.tabulate in Hx.
      apply in_map_iff in Hx as (k & Hk & Hin). inversion Hk; subst.
      exact Hin. }
  erewrite bind_ok by exact Hloop2.
  exists w2. split; [|eapply frame_trans; eassumption].
  unfold ret. f_equal. f_equal.
  apply DictFacts.tabulate_ext. intros k Hk.
  assert (NoDup (map fst (Dict.tabulate G1 doctors))) as Hnd2.
  { change (map fst (Dict.tabulate G1 doctors))
      with (Dict.keys (Dict.tabulate G1 doctors)).
    now rewrite DictFacts.keys_tabulate. }
  assert (In (k, G1 k) (Dict.tabulate G1 doctors)) as Hin2.
  { unfold Dict.tabulate. apply in_map_iff. now exists k. }
  destruct (accumulate_present (@fst string (list string)) add2
              (Dict.tabulate G1 doctors) (fun _ => []) (k, G1 k) Hnd2 Hin2)
    as ([k' p'] & Hy & Hfst & Hacc).
  simpl in Hfst; subst k'. simpl fst in Hacc. rewrite Hacc. simpl.
  unfold add2; simpl. repeat f_equal.
  unfold Dict.tabulate in Hy. apply in_map_iff in Hy as (k0 & Hk0 & _).
  inversion Hk0; subst.
  assert (NoDup (map (fun d : string => d) doctors)) as Hnd1
    by (now rewrite map_id).
  destruct (accumulate_present (fun d : string => d) add1 doctors
              (fun _ => []) k Hnd1 Hk) as (y & _ & -> & Hacc1).
  unfold G1. rewrite Hacc1. reflexivity.
Qed.

Lemma fetch_single_mask_no_folder self series_desc ext kw w entries :
  os.lookup (patient_path self) (fs w) = Some entries ->
  matching_folders mask_folder_name entries = [] ->
  _fetch_single_mask self series_desc ext kw w = (Raise IndexError, w).
Proof.
  intros Hls Hm. unfold _fetch_single_mask.
  erewrite bind_ok by (apply listdir_value; exact Hls).
  change (filter _ entries) with (matching_folders mask_folder_name entries).
  rewrite Hm. reflexivity.
Qed.

Lemma fetch_single_mask_several_folders self series_desc ext kw w entries :
  os.lookup (patient_path self) (fs w) = Some entries ->
  1 < length (matching_folders mask_folder_name entries) ->
  _fetch_single_mask self series_desc ext kw w =
  (Raise (NameError "mask_folder_list"), w).
Proof.
  intros Hls Hm. unfold _fetch_single_mask.
  erewrite bind_ok by (apply listdir_value; exact Hls).
  change (filter _ entries) with (matching_folders mask_folder_name entries).
  rewrite length_map. apply Nat.ltb_lt in Hm. rewrite Hm. reflexivity.
Qed.

Lemma matching_folders_none name entries :
  (forall folder, In folder entries ->
     Str.contains (Str.lower name) (Str.lower folder) = false) ->
  matching_folders name entries = [].
Proof.
  intros H. unfold matching_folders.
  induction entries as [|x l IH]; simpl; [reflexivity|].
  rewrite (H x (or_introl eq_refl)). apply IH.
  intros folder Hin. apply H. now right.
Qed.

(** ** Series discovery *)

Section RaisesOnly.
Variable P : exn -> Prop.
Hypothesis P_os : forall p, P (OSError p).

Lemma ro_ret {A} (a : A) : raises_only P (ret a).
Proof. intros w e H. discriminate. Qed.

Lemma ro_raise {A} e : P e -> raises_only P (@raise A e).
Proof. intros He w e' H. inversion H. now subst. Qed.

Lemma ro_bind {A B} (m : M A) (k : A -> M B) :
  raises_only P m -> (forall a, raises_only P (k a)) ->
  raises_only P (bind m k).
Proof.
  intros Hm Hk w e. unfold bind. specialize (Hm w).
  destruct (m w) as [[a|e'] w1]; simpl in *.
  - apply Hk.
  - intros H. inversion H; subst. now apply Hm.
Qed.

Lemma ro_listdir p : raises_only P (os.listdir p).
Proof.
  intros w e. unfold os.listdir.
  destruct (os.lookup p (fs w)); simpl; intros H; inversion H.
  apply P_os.
Qed.

Lemma ro_append_line l : raises_only P (append_line l).
Proof. intros w e H. discriminate. Qed.

Lemma ro_filterM {A} (c : A -> M bool) l :
  (forall x, raises_only P (c x)) -> raises_only P (filterM c l).
Proof.
  intros Hc. induction l as [|x l IH]; simpl; [apply ro_ret|].
  apply ro_bind; [apply Hc|]. intros b.
  apply ro_bind; [exact IH|]. intros xs. apply ro_ret.
Qed.

Lemma ro_foldM {A S} (body : S -> A -> M S) l acc :
  (forall s x, raises_only P (body s x)) ->
  raises_only P (foldM body l acc).
Proof.
  intros Hb. revert acc. induction l as [|x l IH]; intros acc; simpl.
  - apply ro_ret.
  - apply ro_bind; [apply Hb | intros; apply IH].
Qed.

Lemma ro_check_exception_words self file exceptions :
  raises_only P (_check_exception_words self file exceptions).
Proof.
  intros w e H. rewrite check_exception_words_value in H. discriminate.
Qed.

Lemma ro_select_files self series_desc folder ext exceptions fm tfm :
  raises_only P
    (_select_files self series_desc folder ext exceptions fm tfm).
Proof.
  unfold _select_files.
  repeat first
    [ apply ro_bind; [|intros]
    | apply ro_listdir
    | apply ro_ret
    | apply ro_filterM; intros
    | apply ro_check_exception_words
    | match goal with
      | |- raises_only _ (if ?b then _ else _) => destruct b
      end ].
Qed.
End RaisesOnly.

(** Series discovery fails only on a folder that cannot be listed or on
    the missing [write_warning] method. *)
Lemma fetch_single_series_faults self series_desc ext kw :
  raises_only series_fault (_fetch_single_series self series_desc ext kw).
Proof.
  assert (forall p, series_fault (OSError p)) as Hos
    by (intros p; left; now exists p).
  unfold _fetch_single_series.
  repeat first
    [ apply ro_select_files; exact Hos
    | apply ro_bind; [|intros]
    | apply ro_listdir; exact Hos
    | apply ro_ret
    | apply ro_append_line
    | apply ro_foldM; intros
    | apply ro_raise; now right
    | match goal with
      | |- raises_only _ (if ?b then _ else _) => destruct b
      end ].
Qed.

Lemma fetch_single_series_no_folder self series_desc ext kw w entries :
  os.lookup (patient_path self) (fs w) = Some entries ->
  matching_folders series_desc entries = [] ->
  value (_fetch_single_series self series_desc ext kw w) = Ok [].
Proof.
  intros Hls Hm. unfold _fetch_single_series.
  erewrite bind_ok by (apply listdir_value; exact Hls).
  change (filter _ entries) with (matching_folders series_desc entries).
  rewrite Hm. reflexivity.
Qed.

Lemma fetch_single_series_one_folder self series_desc ext kw w entries
    folder files :
  os.lookup (patient_path self) (fs w) = Some entries ->
  matching_folders series_desc entries = [folder] ->
  os.lookup (os.join (patient_path self) folder) (fs w) = Some files ->
  value (_fetch_single_series self series_desc ext kw w) =
  Ok (map (fun path => _create_series (Some series_desc)
                         (Some (PathStr path)))
        (resolved_paths (fs w) series_desc ext kw
           (os.join (patient_path self) folder))).
Proof.
  intros Hls Hm Hf. unfold _fetch_single_series.
  erewrite bind_ok by (apply listdir_value; exact Hls).
  change (filter _ entries) with (matching_folders series_desc entries).
  rewrite Hm. cbn [map length Nat.ltb Nat.leb andb foldM].
  destruct (write_log_frame self
              (FoldersFound series_desc
                 [os.join (patient_path self) folder]) w)
    as (w1 & H1 & F1).
  erewrite bind_ok by exact H1. rewrite bind_ret.
  pose proof (frame_fs _ _ F1) as E1.
  set (dir := os.join (patient_path self) folder) in *.
  assert (exists w5,
            (files0 <- os.listdir dir ;;
             _write_log self (FilesFound dir files0) ;;;
             _write_log self
               (SelectCall "_fetch_single_series" series_desc
                  (exceptions kw) (try_full_match kw) (full_match kw)) ;;;
             sel <- _select_files self series_desc dir ext (exceptions kw)
                      (full_match kw) (try_full_match kw) ;;
             ret ([] ++ sel)) w1 =
            (Ok (resolved_paths (fs w) series_desc ext kw dir), w5))
    as (w5 & H5).
  { erewrite bind_ok by (apply listdir_value; rewrite E1; exact Hf).
    destruct (write_log_frame self (FilesFound dir files) w1)
      as (w2 & H2 & F2).
    erewrite bind_ok by exact H2.
    destruct (write_log_frame self
                (SelectCall "_fetch_single_series" series_desc
                   (exceptions kw) (try_full_match kw) (full_match kw)) w2)
      as (w3 & H3 & F3).
    erewrite bind_ok by exact H3.
    assert (fs w3 = fs w) as E3.
    { apply frame_fs in F2, F3. congruence. }
    erewrite bind_value_ok
      by (apply select_files_value; rewrite E3; exact Hf).
    eexists. unfold ret, resolved_paths, listing.
    fold dir. rewrite Hf. reflexivity. }
  erewrite bind_ok by (erewrite bind_ok by exact H5; reflexivity).
  destruct (write_log_frame self
              (SeriesSelected (resolved_paths (fs w) series_desc ext kw dir))
              w5) as (w6 & H6 & F6).
  erewrite bind_ok by exact H6. reflexivity.
Qed.

(** ** The two public discovery loops *)

Section FetchLoop.
Context {V : Type}.
Variables (self : Patient) (who ext : string) (kw : kwargs).
Variables (F : string -> M V) (store : string -> V -> M unit).
Variables (get : world -> Dict.t V) (R : world -> world -> Prop).
Variable dflt : V.

Hypothesis F_reader : forall k, reader (F k).
Hypothesis R_refl : forall w, R w w.
Hypothesis R_trans : forall w1 w2 w3, R w1 w2 -> R w2 w3 -> R w1 w3.
Hypothesis R_fs : forall w w', R w w' -> fs w' = fs w.
Hypothesis R_frame :
  forall w w', frame w w' -> R w w' /\ get w' = get w.
Hypothesis store_run :
  forall k v w, exists w',
    store k v w = (Ok tt, w') /\ R w w' /\ get w' = Dict.set k v (get w).

Let body := fun (_ : unit) (k : string) =>
  (_write_log self (RunFetch who k ext kw) ;;;
   v <- F k ;; store k v)%py.

(** One turn of the loop: the value is the one [F] has on any world
    with the same directory tree. *)
Lemma fetch_turn k w0 w :
  fs w = fs w0 ->
  (exists v w', value (F k w0) = Ok v /\ body tt k w = (Ok tt, w') /\
                R w w' /\ get w' = Dict.set k v (get w)) \/
  (exists e w', value (F k w0) = Raise e /\ body tt k w = (Raise e, w') /\
                R w w' /\ get w' = get w).
Proof.
  intros Hfs. unfold body.
  destruct (write_log_frame self (RunFetch who k ext kw) w)
    as (w1 & H1 & F1).
  erewrite bind_ok by exact H1.
  pose proof (reader_value (F k) w1 w0 (F_reader k)) as Hval.
  rewrite (frame_fs _ _ F1), Hfs in Hval. specialize (Hval eq_refl).
  pose proof (reader_frame (F k) w1 (F_reader k)) as F2.
  assert (frame w (after (F k w1))) as F12
    by (eapply frame_trans; eassumption).
  destruct (R_frame _ _ F12) as [HR Hget].
  destruct (value (F k w1)) as [v|e] eqn:Ev.
  - left. destruct (store_run k v (after (F k w1)))
      as (w3 & H3 & R3 & G3).
    exists v, w3. split; [now symmetry|].
    erewrite bind_value_ok by exact Ev. rewrite H3.
    split; [reflexivity|]. split; [eapply R_trans; eassumption|].
    now rewrite G3, Hget.
  - right. exists e, (after (F k w1)). split; [now symmetry|].
    erewrite bind_value_raise by exact Ev. tauto.
Qed.

(** A loop that ends normally has stored, for every key in turn, what
    [F] returns on the directory tree. *)
Lemma fetch_loop_ok ks w0 : forall w u w',
  fs w = fs w0 ->
  foldM body ks tt w = (Ok u, w') ->
  (forall k, In k ks -> value (F k w0) = Ok (discovered (F k) w0 dflt)) /\
  R w w' /\
  get w' = assign_all (fun k => discovered (F k) w0 dflt) ks (get w).
Proof.
  induction ks as [|k ks IH]; intros w u w' Hfs Hrun; simpl in Hrun.
  - inversion Hrun; subst. split; [intros k []|]. split; [apply R_refl|].
    reflexivity.
  - destruct (fetch_turn k w0 w Hfs)
      as [(v & w1 & Hv & Hb & HR & Hg)|(e & w1 & Hv & Hb & HR & Hg)].
    + erewrite bind_ok in Hrun by exact Hb.
      destruct (IH w1 u w') as (Hall & HR' & Hg');
        [rewrite (R_fs _ _ HR); exact Hfs | exact Hrun |].
      assert (discovered (F k) w0 dflt = v) as Hd
        by (unfold discovered; now rewrite Hv).
      split; [|split].
      * intros k' [<-|Hin]; [now rewrite Hd | now apply Hall].
      * eapply R_trans; eassumption.
      * rewrite Hg', Hg. unfold assign_all; simpl. now rewrite Hd.
    + erewrite bind_raise in Hrun by exact Hb. discriminate.
Qed.

(** A loop all of whose discoveries succeed ends normally. *)
Lemma fetch_loop_total ks w0 : forall w,
  fs w = fs w0 ->
  (forall k, In k ks -> exists v, value (F k w0) = Ok v) ->
  exists w', foldM body ks tt w = (Ok tt, w').
Proof.
  induction ks as [|k ks IH]; intros w Hfs Hall; simpl.
  - now exists w.
  - destruct (fetch_turn k w0 w Hfs)
      as [(v & w1 & Hv & Hb & HR & Hg)|(e & w1 & Hv & Hb & HR & Hg)].
    + erewrite bind_ok by exact Hb. apply IH.
      * rewrite (R_fs _ _ HR). exact Hfs.
      * intros k' Hk'. apply Hall. now right.
    + destruct (Hall k (or_introl eq_refl)) as [v Hv']. congruence.
Qed.

(** The first discovery that fails ends the loop with its exception. *)
Lemma fetch_loop_first_raise k ks w e :
  value (F k w) = Raise e ->
  exists w', foldM body (k :: ks) tt w = (Raise e, w') /\
             R w w' /\ get w' = get w.
Proof.
  intros Hv. simpl.
  destruct (fetch_turn k w w eq_refl)
    as [(v & w1 & Hv' & _)|(e' & w1 & Hv' & Hb & HR & Hg)];
    [congruence|].
  assert (e' = e) by congruence. subst e'.
  exists w1. erewrite bind_raise by exact Hb. tauto.
Qed.

Hypothesis R_sink : forall w w', R w w' -> sink_extends w w'.

(** A loop that ends normally has first written that it runs the
    discovery of its first key. *)
Lemma fetch_loop_logs k ks w u w' :
  foldM body (k :: ks) tt w = (Ok u, w') ->
  exists ls,
    sink w' =
    sink w ++
    mkLine (logs_file self) PID (patient_id self) (RunFetch who k ext kw)
    :: ls.
Proof.
  intros Hrun. simpl in Hrun.
  apply bind_ok_inv in Hrun as (a & w1 & Hbody & Hrest).
  unfold body in Hbody.
  apply bind_ok_inv in Hbody as (t & wl & Hlog & Hbody).
  apply bind_ok_inv in Hbody as (v & w2 & HF & Hstore).
  inversion Hlog; subst wl; clear Hlog.
  match type of HF with
  | F k ?wl = _ =>
      pose proof (reader_frame (F k) wl (F_reader k)) as F2;
      rewrite HF in F2; simpl in F2
  end.
  destruct (store_run k v w2) as (w1' & Hst & HR & _).
  rewrite Hstore in Hst. injection Hst as Ha Hw. subst a w1'.
  destruct (fetch_loop_ok ks w1 w1 u w' eq_refl Hrest) as (_ & HR' & _).
  destruct F2 as (_ & _ & _ & _ & _ & _ & [l2 E2]).
  destruct (R_sink _ _ HR) as [l3 E3].
  destruct (R_sink _ _ HR') as [l4 E4].
  exists (l2 ++ l3 ++ l4). rewrite E4, E3, E2. simpl.
  rewrite <- !app_assoc. reflexivity.
Qed.
End FetchLoop.

Lemma frame_but_masks_refl w : frame_but_masks w w.
Proof.
  unfold frame_but_masks. pose proof (sink_extends_refl w). tauto.
Qed.

Lemma frame_but_masks_trans w1 w2 w3 :
  frame_but_masks w1 w2 -> frame_but_masks w2 w3 -> frame_but_masks w1 w3.
Proof.
  unfold frame_but_masks. intros H1 H2.
  assert (sink_extends w1 w3)
    by (eapply sink_extends_trans; [apply H1 | apply H2]).
  intuition congruence.
Qed.

Lemma frame_but_images_refl w : frame_but_images w w.
Proof.
  unfold frame_but_images. pose proof (sink_extends_refl w). tauto.
Qed.

Lemma frame_but_images_trans w1 w2 w3 :
  frame_but_images w1 w2 -> frame_but_images w2 w3 -> frame_but_images w1 w3.
Proof.
  unfold frame_but_images. intros H1 H2.
  assert (sink_extends w1 w3)
    by (eapply sink_extends_trans; [apply H1 | apply H2]).
  intuition congruence.
Qed.

Lemma set_self_masks_run self k v w :
  exists w', set_self_masks self k v w = (Ok tt, w') /\
             frame_but_masks w w' /\
             cls_masks w' = Dict.set k v (cls_masks w).
Proof.
  eexists. split; [reflexivity|]. split; [|reflexivity].
  unfold frame_but_masks; simpl. repeat split.
  now apply sink_extends_same.
Qed.

Lemma set_self_images_run self k v w :
  exists w', set_self_images self k v w = (Ok tt, w') /\
             frame_but_images w w' /\
             cls_images w' = Dict.set k v (cls_images w).
Proof.
  eexists. split; [reflexivity|]. split; [|reflexivity].
  unfold frame_but_images; simpl. repeat split.
  now apply sink_extends_same.
Qed.

Lemma get_assign_all_notin {V} (f : string -> V) ks d k :
  ~ In k ks -> Dict.get k (assign_all f ks d) = Dict.get k d.
Proof.
  unfold assign_all. revert d. induction ks as [|k0 ks IH]; intros d Hk;
    simpl; [reflexivity|].
  rewrite IH by (intros H; apply Hk; now right).
  apply DictFacts.get_set_other. intros ->. apply Hk. now left.
Qed.

Lemma get_assign_all_in {V} (f : string -> V) ks d k :
  In k ks -> Dict.get k (assign_all f ks d) = Some (f k).
Proof.
  revert d. induction ks as [|k0 ks IH]; intros d Hin; [contradiction|].
  change (assign_all f (k0 :: ks) d)
    with (assign_all f ks (Dict.set k0 (f k0) d)).
  destruct (in_dec string_dec k ks) as [Hk|Hk]; [now apply IH|].
  destruct Hin as [->|Hin]; [|contradiction].
  rewrite get_assign_all_notin by exact Hk.
  apply DictFacts.get_set_same.
Qed.

Lemma assign_all_ext {V} (f g : string -> V) ks d :
  (forall k, f k = g k) -> assign_all f ks d = assign_all g ks d.
Proof.
  intros H. unfold assign_all. revert d.
  induction ks as [|k ks IH]; intros d; simpl; [reflexivity|].
  now rewrite H, IH.
Qed.

Lemma discovered_fs {A} (m : M A) w w' d :
  reader m -> fs w = fs w' -> discovered m w d = discovered m w' d.
Proof.
  intros Hm Hfs. unfold discovered.
  now rewrite (reader_value m w w' Hm Hfs).
Qed.

(** The side conditions of the loop lemmas, for either index. *)
Ltac loop_side :=
  first
    [ exact frame_but_masks_refl | exact frame_but_masks_trans
    | exact frame_but_images_refl | exact frame_but_images_trans
    | exact (set_self_masks_run _) | exact (set_self_images_run _)
    | intros; apply reader_fetch_single_mask
    | intros; apply reader_fetch_single_series
    | unfold frame, frame_but_masks; tauto
    | unfold frame, frame_but_images; tauto ].

Lemma fetch_masks_ok self ks ext kw w r w' :
  fetch_masks self ks ext kw w = (Ok r, w') ->
  (forall k, In k ks ->
     value (_fetch_single_mask self k ext kw w) =
     Ok (discovered (_fetch_single_mask self k ext kw) w [])) /\
  cls_masks w' =
    assign_all (fun k => discovered (_fetch_single_mask self k ext kw) w [])
      ks (cls_masks w) /\
  r = MasksCopy (length (copies w)) /\
  copies w' = copies w ++ [MasksObject (cls_masks w')] /\
  fs w' = fs w /\ cwd w' = cwd w /\ cls_images w' = cls_images w /\
  cls_patients w' = cls_patients w /\ sink_extends w w'.
Proof.
  unfold fetch_masks. intros Hrun.
  apply bind_ok_inv in Hrun as (u & w1 & Hloop & Hcopy).
  apply (fetch_loop_ok self "_fetch_single_mask" ext kw
           (fun k => _fetch_single_mask self k ext kw)
           (set_self_masks self) cls_masks frame_but_masks [])
    with (w0 := w) in Hloop; try loop_side.
  destruct Hloop as (Hall & (Hfs & Hcwd & Him & Hpa & Hco & Hsk) & Hget).
  unfold deepcopy_masks in Hcopy. inversion Hcopy; subst; simpl.
  rewrite Hco, Hget. tauto.
Qed.

Lemma fetch_series_ok self ks ext kw w r w' :
  fetch_series self ks ext kw w = (Ok r, w') ->
  (forall k, In k ks ->
     value (_fetch_single_series self k ext kw w) =
     Ok (discovered (_fetch_single_series self k ext kw) w [])) /\
  cls_images w' =
    assign_all (fun k => discovered (_fetch_single_series self k ext kw) w [])
      ks (cls_images w) /\
  frame_but_images w w'.
Proof.
  unfold fetch_series. intros Hrun.
  apply bind_ok_inv in Hrun as (u & w1 & Hloop & Hret).
  inversion Hret; subst.
  apply (fetch_loop_ok self "_fetch_single_series" ext kw
           (fun k => _fetch_single_series self k ext kw)
           (set_self_images self) cls_images frame_but_images [])
    with (w0 := w) in Hloop; try loop_side.
Qed.

Lemma fetch_masks_total self ks ext kw w :
  (forall k, In k ks ->
     exists v, value (_fetch_single_mask self k ext kw w) = Ok v) ->
  exists w', fetch_masks self ks ext kw w =
             (Ok (MasksCopy (length (copies w))), w').
Proof.
  intros Hall. unfold fetch_masks.
  destruct (fetch_loop_total self "_fetch_single_mask" ext kw
              (fun k => _fetch_single_mask self k ext kw)
              (set_self_masks self) cls_masks frame_but_masks) with
    (ks := ks) (w0 := w) (w := w) as (w1 & Hloop);
    try loop_side; try exact Hall.
  pose proof Hloop as Hloop'.
  apply (fetch_loop_ok self "_fetch_single_mask" ext kw
           (fun k => _fetch_single_mask self k ext kw)
           (set_self_masks self) cls_masks frame_but_masks [])
    with (w0 := w) in Hloop'; try loop_side.
  destruct Hloop' as (_ & (_ & _ & _ & _ & Hco & _) & _).
  erewrite bind_ok by exact Hloop. unfold deepcopy_masks.
  rewrite Hco. eexists; reflexivity.
Qed.

Lemma fetch_series_total self ks ext kw w :
  (forall k, In k ks ->
     exists v, value (_fetch_single_series self k ext kw w) = Ok v) ->
  exists w', fetch_series self ks ext kw w = (Ok ImagesAttr, w').
Proof.
  intros Hall. unfold fetch_series.
  destruct (fetch_loop_total self "_fetch_single_series" ext kw
              (fun k => _fetch_single_series self k ext kw)
              (set_self_images self) cls_images frame_but_images) with
    (ks := ks) (w0 := w) (w := w) as (w1 & Hloop);
    try loop_side; try exact Hall.
  erewrite bind_ok by exact Hloop. eexists; reflexivity.
Qed.

Lemma fetch_masks_first_raise self k ks ext kw w e :
  value (_fetch_single_mask self k ext kw w) = Raise e ->
  value (fetch_masks self (k :: ks) ext kw w) = Raise e /\
  cls_masks (after (fetch_masks self (k :: ks) ext kw w)) = cls_masks w /\
  cls_images (after (fetch_masks self (k :: ks) ext kw w)) = cls_images w.
Proof.
  intros Hv. unfold fetch_masks.
  destruct (fetch_loop_first_raise self "_fetch_single_mask" ext kw
              (fun k => _fetch_single_mask self k ext kw)
              (set_self_masks self) cls_masks frame_but_masks)
    with (k := k) (ks := ks) (w := w) (e := e)
    as (w1 & Hloop & HR & Hget); try loop_side; try exact Hv.
  erewrite bind_raise by exact Hloop. simpl.
  unfold frame_but_masks in HR. tauto.
Qed.

(** ** Missing and repeated masks folders *)



(** C5.  On the patient directory [/data/p1] that holds the two folders
    [MASKS] and [masks_old], mask discovery ends with [NameError] (the
    diagnostics name [mask_folder_list], which is bound nowhere): nothing
    is written to the sink, no folder is used and no result is returned,
    by [_fetch_single_mask] or by [fetch_masks], and the mask index stays
    empty. *)
Theorem several_masks_folders_raise_name_error :
  matching_folders mask_folder_name ["ADC"; "MASKS"; "masks_old"] =
  ["MASKS"; "masks_old"] /\
  _fetch_single_mask Sample.p1 "adc" ".nii.gz" mask_config
    (Sample.at_start Sample.tree_two_masks) =
  (Raise (NameError "mask_folder_list"),
   Sample.at_start Sample.tree_two_masks) /\
  sink (after (_fetch_single_mask Sample.p1 "adc" ".nii.gz" mask_config
                 (Sample.at_start Sample.tree_two_masks))) = [] /\
  value (fetch_masks Sample.p1 ["adc"] ".nii.gz" mask_config
           (Sample.at_start Sample.tree_two_masks)) =
  Raise (NameError "mask_folder_list") /\
  cls_masks (after (fetch_masks Sample.p1 ["adc"] ".nii.gz" mask_config
                      (Sample.at_start Sample.tree_two_masks))) = [].
Proof.
  split; [reflexivity|].
  assert (_fetch_single_mask Sample.p1 "adc" ".nii.gz" mask_config
            (Sample.at_start Sample.tree_two_masks) =
          (Raise (NameError "mask_folder_list"),
           Sample.at_start Sample.tree_two_masks)) as H.
  { apply fetch_single_mask_several_folders
      with (entries := ["ADC"; "MASKS"; "masks_old"]); [reflexivity|].
    vm_compute. lia. }
  split; [exact H|]. split; [now rewrite H|].
  destruct (fetch_masks_first_raise Sample.p1 "adc" [] ".nii.gz" mask_config
              (Sample.at_start Sample.tree_two_masks)
              (NameError "mask_folder_list")) as (Hv & Hm & _);
    [now rewrite H|].
  split; [exact Hv | exact Hm].
Qed.

(** ** One item per doctor *)




(** ** Discovery on every read *)

Lemma fetch_masks_logs self k ks ext kw w r w' :
  fetch_masks self (k :: ks) ext kw w = (Ok r, w') ->
  exists ls,
    sink w' =
    sink w ++
    mkLine (logs_file self) PID (patient_id self)
      (RunFetch "_fetch_single_mask" k ext kw) :: ls.
Proof.
  unfold fetch_masks. intros Hrun.
  apply bind_ok_inv in Hrun as (u & w1 & Hloop & Hcopy).
  apply (fetch_loop_logs self "_fetch_single_mask" ext kw
           (fun k => _fetch_single_mask self k ext kw)
           (set_self_masks self) cls_masks frame_but_masks [])
    in Hloop; try loop_side.
  unfold deepcopy_masks in Hcopy. inversion Hcopy; subst; simpl.
  exact Hloop.
Qed.

(** [return self.images]: what [fetch_series] hands back is the class
    attribute. *)
Lemma fetch_series_ref self ks ext kw w r w' :
  fetch_series self ks ext kw w = (Ok r, w') -> r = ImagesAttr.
Proof.
  unfold fetch_series. intros Hrun.
  apply bind_ok_inv in Hrun as (u & w1 & _ & Hret).
  now inversion Hret.
Qed.

(** What a successful [fetch_all] leaves: under every requested kind the
    result of a discovery run on the directory tree as it is. *)
Lemma fetch_all_ok self ks mc sc w r w' :
  fetch_all self ks mc sc w = (Ok r, w') ->
  r = (MasksCopy (length (copies w)), ImagesAttr) /\
  (forall k, In k ks ->
     value (_fetch_single_mask self k default_extension mc w) =
     Ok (discovered (_fetch_single_mask self k default_extension mc) w [])) /\
  (forall k, In k ks ->
     value (_fetch_single_series self k default_extension sc w) =
     Ok (discovered (_fetch_single_series self k default_extension sc) w []))
  /\
  cls_masks w' =
    assign_all
      (fun k => discovered (_fetch_single_mask self k default_extension mc)
                  w []) ks (cls_masks w) /\
  cls_images w' =
    assign_all
      (fun k => discovered (_fetch_single_series self k default_extension sc)
                  w []) ks (cls_images w) /\
  copies w' = copies w ++ [MasksObject (cls_masks w')] /\
  fs w' = fs w /\ cwd w' = cwd w /\ cls_patients w' = cls_patients w /\
  sink_extends w w'.
Proof.
  unfold fetch_all. intros Hrun.
  apply bind_ok_inv in Hrun as (rm & w1 & Hm & Hrun).
  apply bind_ok_inv in Hrun as (rs & w2 & Hs & Hret).
  inversion Hret; subst; clear Hret.
  apply fetch_masks_ok in Hm
    as (Hmall & Hmget & -> & Hco & Hfs & Hcwd & Him & Hpa & Hsk).
  pose proof (fetch_series_ref _ _ _ _ _ _ _ Hs) as ->.
  apply fetch_series_ok in Hs
    as (Hsall & Hsget & (Hfs' & Hcwd' & Hma' & Hpa' & Hco' & Hsk')).
  assert (forall k,
            discovered (_fetch_single_series self k default_extension sc)
              w1 [] =
            discovered (_fetch_single_series self k default_extension sc)
              w []) as Hd.
  { intros k. apply discovered_fs;
      [apply reader_fetch_single_series | exact Hfs]. }
  split; [reflexivity|]. split; [exact Hmall|]. split; [|split; [|split]].
  - intros k Hk. rewrite <- Hd. rewrite <- (Hsall k Hk).
    apply reader_value; [apply reader_fetch_single_series | now symmetry].
  - now rewrite Hma'.
  - rewrite Hsget, Him. apply assign_all_ext. exact Hd.
  - rewrite Hco', Hma'. repeat split; try congruence.
    eapply sink_extends_trans; eassumption.
Qed.

Section Stateless.
Context {A B : Type}.

Lemma stateless_ret (a : A) : stateless (ret a).
Proof. intros w. reflexivity. Qed.

Lemma stateless_raise e : stateless (@raise A e).
Proof. intros w. reflexivity. Qed.

Lemma stateless_bind (m : M A) (k : A -> M B) :
  stateless m -> (forall a, stateless (k a)) -> stateless (bind m k).
Proof.
  intros Hm Hk w. unfold bind. specialize (Hm w).
  destruct (m w) as [[a|e] w1]; simpl in *; subst; [apply Hk|reflexivity].
Qed.

Lemma stateless_foldM (body : B -> A -> M B) l acc :
  (forall s x, stateless (body s x)) -> stateless (foldM body l acc).
Proof.
  intros Hb. revert acc. induction l as [|x l IH]; intros acc; simpl.
  - intros w. reflexivity.
  - intros w. unfold bind. specialize (Hb acc x w).
    destruct (body acc x w) as [[s|e] w1]; simpl in *; subst;
      [apply IH | reflexivity].
Qed.

(** A query that runs [m] and then only reads leaves the world [m]
    left. *)
Lemma after_bind_stateless (m : M A) (k : A -> M B) w a w1 :
  m w = (Ok a, w1) -> (forall a, stateless (k a)) ->
  after (bind m k w) = w1.
Proof. intros Hm Hk. erewrite bind_ok by exact Hm. apply Hk. Qed.
End Stateless.

Lemma stateless_getitem {V} (d : Dict.t V) k : stateless (getitem d k).
Proof. unfold getitem. now destruct (Dict.get k d). Qed.

Lemma stateless_incr_item d k : stateless (incr_item d k).
Proof.
  unfold incr_item. apply stateless_bind; [apply stateless_getitem|].
  intros a. apply stateless_ret.
Qed.

Lemma stateless_self_images self : stateless (self_images self).
Proof. intros w. reflexivity. Qed.

Lemma stateless_self_masks self : stateless (self_masks self).
Proof. intros w. reflexivity. Qed.

Ltac stateless_auto :=
  repeat first
    [ apply stateless_incr_item
    | apply stateless_getitem
    | apply stateless_self_images
    | apply stateless_self_masks
    | apply stateless_ret
    | apply stateless_raise
    | apply stateless_bind; [|intros]
    | apply stateless_foldM; intros
    | match goal with
      | |- stateless (if ?b then _ else _) => destruct b
      | |- stateless (match ?x with _ => _ end) => destruct x
      | |- stateless (let '(_, _) := ?x in _) => destruct x
      end ].

(** C3 as stated fails: after a discovery of "adc" with the permissive
    defaults both indices are populated and the series index holds two
    entries for "adc"; the count of series by type then answers one for
    "adc", replaces the two entries by the one of a new discovery under
    the default configuration, and writes the diagnostics of that new
    discovery. *)
Lemma aggregate_query_not_memoized_counterexample :
  populated (cls_images Sample.after_custom_discovery) = true /\
  populated (cls_masks Sample.after_custom_discovery) = true /\
  Dict.get "adc" (cls_images Sample.after_custom_discovery) =
  Some [Some (mkSeries "adc" (PathStr "/data/p1/ADC/adc.nii.gz"));
        Some (mkSeries "adc" (PathStr "/data/p1/ADC/adc_extra.nii.gz"))] /\
  value (count_series_per_type Sample.p1 Sample.after_custom_discovery) =
  Ok [("adc", 1); ("dwi", 0)] /\
  Dict.get "adc"
    (cls_images (after (count_series_per_type Sample.p1
                          Sample.after_custom_discovery))) =
  Some [Some (mkSeries "adc" (PathStr "/data/p1/ADC/adc.nii.gz"))] /\
  length (sink Sample.after_custom_discovery) <
  length (sink (after (count_series_per_type Sample.p1
                         Sample.after_custom_discovery))).
Proof. repeat split; vm_compute; try reflexivity. lia. Qed.

Lemma stateless_count_series_body self (u : masks_ref * images_ref) :
  stateless
    (images <- self_images self ;;
     foldM (fun count series_list =>
        foldM (fun count series =>
           match series with
           | Some series => incr_item count (get_type series)
           | None => ret count
           end) series_list count)
       (Dict.values images) (Dict.from_keys (Dict.keys images) 0)).
Proof. stateless_auto. Qed.

Lemma after_count_series_per_type self w r w1 :
  fetch_all self series_to_fetch mask_config series_config w = (Ok r, w1) ->
  after (count_series_per_type self w) = w1.
Proof.
  intros H. unfold count_series_per_type.
  eapply after_bind_stateless; [exact H|].
  intros a. apply stateless_count_series_body; exact a.
Qed.

Lemma after_count_masks_per self count_type w r w1 :
  fetch_all self series_to_fetch mask_config series_config w = (Ok r, w1) ->
  after (count_masks_per self count_type w) = w1.
Proof.
  intros H. unfold count_masks_per.
  eapply after_bind_stateless; [exact H|].
  intros a. stateless_auto.
Qed.

Lemma after_get_mask_list self w r w1 :
  fetch_all self series_to_fetch mask_config series_config w = (Ok r, w1) ->
  after (get_mask_list self w) = w1.
Proof.
  intros H. unfold get_mask_list.
  eapply after_bind_stateless; [exact H|].
  intros a. stateless_auto.
Qed.

Lemma after_get_series_by_type self series_type w r w1 :
  fetch_all self series_to_fetch mask_config series_config w = (Ok r, w1) ->
  after (get_series_by_type self series_type w) = w1.
Proof.
  intros H. unfold get_series_by_type.
  eapply after_bind_stateless; [exact H|].
  intros a. stateless_auto.
Qed.

(** C3, amended.  Every aggregate query (count of series by type, count
    of masks by dimension, mask list, series by type) first runs the
    discovery of the default kinds under the default configuration,
    whether or not the indices are populated.  When that discovery fails
    the query fails with the same exception.  When it succeeds the query
    leaves the world the discovery left: the diagnostics of the new run
    are in the sink, each default kind holds in both indices what the
    discovery returns on the directory tree as it is now, whatever the
    indices held before, the series of a default kind are answered from
    that, and only the keys of other kinds are kept. *)
Theorem aggregate_queries_rediscover self w :
  (forall e,
     value (fetch_all self series_to_fetch mask_config series_config w) =
     Raise e ->
     value (count_series_per_type self w) = Raise e /\
     (forall count_type,
        value (count_masks_per self count_type w) = Raise e) /\
     value (get_mask_list self w) = Raise e /\
     (forall series_type,
        value (get_series_by_type self series_type w) = Raise e)) /\
  (forall r w1,
     fetch_all self series_to_fetch mask_config series_config w =
     (Ok r, w1) ->
     after (count_series_per_type self w) = w1 /\
     (forall count_type, after (count_masks_per self count_type w) = w1) /\
     after (get_mask_list self w) = w1 /\
     (forall series_type,
        after (get_series_by_type self series_type w) = w1) /\
     (exists ls,
        sink w1 =
        sink w ++
        mkLine (logs_file self) PID (patient_id self)
          (RunFetch "_fetch_single_mask" "adc" default_extension mask_config)
        :: ls) /\
     (forall kind, In kind series_to_fetch ->
        value (_fetch_single_series self kind default_extension
                 series_config w) =
        Ok (discovered (_fetch_single_series self kind default_extension
                          series_config) w []) /\
        value (_fetch_single_mask self kind default_extension
                 mask_config w) =
        Ok (discovered (_fetch_single_mask self kind default_extension
                          mask_config) w []) /\
        Dict.get kind (cls_images w1) =
        Some (discovered (_fetch_single_series self kind default_extension
                            series_config) w []) /\
        Dict.get kind (cls_masks w1) =
        Some (discovered (_fetch_single_mask self kind default_extension
                            mask_config) w []) /\
        value (get_series_by_type self kind w) =
        Ok (discovered (_fetch_single_series self kind default_extension
                          series_config) w [])) /\
     (forall kind, ~ In kind series_to_fetch ->
        Dict.get kind (cls_images w1) = Dict.get kind (cls_images w) /\
        Dict.get kind (cls_masks w1) = Dict.get kind (cls_masks w))).
Proof.
  split.
  - intros e He.
    unfold count_series_per_type, count_masks_per, get_mask_list,
      get_series_by_type.
    repeat split; intros; erewrite bind_value_raise by exact He;
      reflexivity.
  - intros r w1 Hrun.
    pose proof (fetch_all_ok _ _ _ _ _ _ _ Hrun)
      as (Hr & Hmall & Hsall & Hmget & Hsget & Hco & Hfs & _).
    split; [eapply after_count_series_per_type; exact Hrun|].
    split; [intros; eapply after_count_masks_per; exact Hrun|].
    split; [eapply after_get_mask_list; exact Hrun|].
    split; [intros; eapply after_get_series_by_type; exact Hrun|].
    split; [|split].
    + unfold fetch_all in Hrun.
      apply bind_ok_inv in Hrun as (rm & wm & Hm & Hrun).
      apply bind_ok_inv in Hrun as (rs & ws & Hs & Hret).
      inversion Hret; subst; clear Hret.
      apply fetch_masks_logs in Hm as [l1 E1].
      apply fetch_series_ok in Hs as (_ & _ & (_ & _ & _ & _ & _ & [l2 E2])).
      exists (l1 ++ l2). rewrite E2, E1. rewrite <- app_assoc. reflexivity.
    + intros kind Hk.
      split; [now apply Hsall|]. split; [now apply Hmall|].
      assert (Dict.get kind (cls_images w1) =
              Some (discovered (_fetch_single_series self kind
                                  default_extension series_config) w []))
        as Himg.
      { rewrite Hsget.
        exact (get_assign_all_in
                 (fun k => discovered
                             (_fetch_single_series self k default_extension
                                series_config) w []) _ _ kind Hk). }
      split; [exact Himg|]. split.
      { rewrite Hmget.
        exact (get_assign_all_in
                 (fun k => discovered
                             (_fetch_single_mask self k default_extension
                                mask_config) w []) _ _ kind Hk). }
      unfold get_series_by_type. erewrite bind_ok by exact Hrun.
      unfold bind, self_images, getitem. now rewrite Himg.
    + intros kind Hk. rewrite Hsget, Hmget.
      split; now apply get_assign_all_notin.
Qed.

Lemma aggregate_queries_rediscover_witness :
  value (get_series_by_type Sample.p1 "adc" Sample.after_custom_discovery) =
  Ok [Some (mkSeries "adc" (PathStr "/data/p1/ADC/adc.nii.gz"))].
Proof.
  destruct (aggregate_queries_rediscover Sample.p1
              Sample.after_custom_discovery) as [_ H].
  destruct (fetch_all Sample.p1 series_to_fetch mask_config series_config
              Sample.after_custom_discovery) as [[r|e] w1] eqn:E.
  - destruct (H r w1 eq_refl) as (_ & _ & _ & _ & _ & Hk & _).
    destruct (Hk "adc" (or_introl eq_refl)) as (_ & _ & _ & _ & ->).
    vm_compute. reflexivity.
  - vm_compute in E. discriminate.
Defined.

(** ** Counting masks by an unknown dimension *)

(** C7 as stated fails: on a patient without masks folder the count by
    the dimension "invalid" ends with [IndexError], raised by the
    discovery that runs first, and not with the configuration error. *)
Lemma invalid_dimension_counterexample :
  Str.lower "invalid" <> "series_type" /\
  Str.lower "invalid" <> "doctor" /\
  value (count_masks_per Sample.p1 "invalid"
           (Sample.at_start Sample.tree_no_masks)) = Raise IndexError /\
  value (count_masks_per Sample.p1 "invalid"
           (Sample.at_start Sample.tree_no_masks)) <>
  Raise (Exception "Invalid count_type").
Proof. repeat split; vm_compute; try reflexivity; discriminate. Qed.

(** C7, amended.  The mask count by a dimension whose lowercase form is
    neither "series_type" nor "doctor" never returns a count: in every
    world it ends with an exception.  When the discovery that the query
    runs first succeeds, that exception is the configuration error
    "Invalid count_type", raised once in the world the discovery left;
    when the discovery fails, the query ends with the discovery's
    exception and the dimension is not examined. *)
Theorem invalid_dimension_never_counts self count_type w :
  Str.lower count_type <> "series_type" ->
  Str.lower count_type <> "doctor" ->
  (exists e, value (count_masks_per self count_type w) = Raise e) /\
  (forall r w1,
     fetch_all self series_to_fetch mask_config series_config w =
     (Ok r, w1) ->
     count_masks_per self count_type w =
     (Raise (Exception "Invalid count_type"), w1)) /\
  (forall e,
     value (fetch_all self series_to_fetch mask_config series_config w) =
     Raise e ->
     value (count_masks_per self count_type w) = Raise e).
Proof.
  intros Hs Hd.
  apply String.eqb_neq in Hs, Hd.
  assert (forall r w1,
            fetch_all self series_to_fetch mask_config series_config w =
            (Ok r, w1) ->
            count_masks_per self count_type w =
            (Raise (Exception "Invalid count_type"), w1)) as Hok.
  { intros r w1 Hrun. unfold count_masks_per.
    erewrite bind_ok by exact Hrun.
    unfold bind at 1. unfold self_masks at 1.
    rewrite Hs, Hd. reflexivity. }
  assert (forall e,
            value (fetch_all self series_to_fetch mask_config series_config
                     w) = Raise e ->
            value (count_masks_per self count_type w) = Raise e) as Hfail.
  { intros e He. unfold count_masks_per.
    erewrite bind_value_raise by exact He. reflexivity. }
  split; [|split; assumption].
  destruct (fetch_all self series_to_fetch mask_config series_config w)
    as [[r|e] w1] eqn:E.
  - exists (Exception "Invalid count_type"). now rewrite (Hok r w1).
  - exists e. now apply Hfail.
Qed.

Lemma invalid_dimension_never_counts_witness :
  Str.lower "Invalid" <> "series_type" /\
  Str.lower "Invalid" <> "doctor" /\
  exists e, value (count_masks_per Sample.p1 "Invalid"
                     (Sample.at_start Sample.tree)) = Raise e.
Proof.
  assert (Str.lower "Invalid" <> "series_type") as H1
    by (vm_compute; discriminate).
  assert (Str.lower "Invalid" <> "doctor") as H2
    by (vm_compute; discriminate).
  split; [exact H1|]. split; [exact H2|].
  exact (proj1 (invalid_dimension_never_counts Sample.p1 "Invalid"
                  (Sample.at_start Sample.tree) H1 H2)).
Defined.

(** ** Sharing between patients *)

(** Whichever patient reads them, the indices are the same objects. *)
Lemma indices_are_shared self other w :
  self_images self w = self_images other w /\
  self_masks self w = self_masks other w.
Proof. split; reflexivity. Qed.

(** What one patient discovers is what any other patient then reads
    under that kind. *)
Lemma discovery_visible_through_any_patient self other kind ext kw w r w' :
  fetch_series self [kind] ext kw w = (Ok r, w') ->
  value ((images <- self_images other ;; getitem images kind) w') =
  value (_fetch_single_series self kind ext kw w).
Proof.
  intros Hrun. apply fetch_series_ok in Hrun as (Hall & Hget & _).
  unfold bind, self_images, getitem. rewrite Hget.
  rewrite get_assign_all_in by (now left).
  now rewrite (Hall kind (or_introl eq_refl)).
Qed.

(** C9.  In the dataset built over the patients [p1] (who has an [ADC]
    folder) and [p2] (who has none), [p1] and [p2] are two entries of the
    catalog with different directories.  After series discovery of "adc"
    on [p1], the index read through [p1] holds the file of [p1] and [p1]
    reports the type "adc".  After the same discovery on [p2], the index
    read through [p1] holds no entry under "adc" and [p1] reports no
    type: the discovery on [p2] has replaced what is visible through
    [p1], since both read the one class attribute. *)
Theorem discovery_on_one_patient_changes_another :
  value (fetch_patients Sample.dataset ["p1"; "p2"] series_to_fetch None None
           (Sample.at_start Sample.tree)) =
  Ok [("p1", Sample.p1); ("p2", Sample.p2)] /\
  patient_path Sample.p1 <> patient_path Sample.p2 /\
  value (self_images Sample.p1 Sample.after_first_patient) =
  Ok [("adc", [Some (mkSeries "adc" (PathStr "/data/p1/ADC/adc.nii.gz"))])] /\
  value (get_series_types Sample.p1 Sample.after_first_patient) =
  Ok ["adc"] /\
  value (self_images Sample.p1 Sample.after_second_patient) =
  Ok [("adc", [])] /\
  value (get_series_types Sample.p1 Sample.after_second_patient) = Ok [].
Proof.
  repeat split; try (vm_compute; reflexivity).
  vm_compute. discriminate.
Qed.

(** ** What the two fetches hand to the caller *)

Lemma nth_error_snoc {A} (l : list A) x :
  nth_error (l ++ [x]) (length l) = Some x.
Proof. induction l as [|y l IH]; simpl; [reflexivity | exact IH]. Qed.

Lemma nth_error_list_update {A} (f : A -> A) l n :
  nth_error (list_update n f l) n = option_map f (nth_error l n).
Proof.
  revert n. induction l as [|x l IH]; intros [|n]; simpl;
    try reflexivity. apply IH.
Qed.

(** A mutation through a reference to a copy changes no class
    attribute: what a fetch hands back decides whether its caller can
    change the indices. *)
Lemma mutation_of_a_copy_is_private n w :
  (forall f, cls_masks (after (mutate_masks (MasksCopy n) f w)) = cls_masks w
             /\ cls_images (after (mutate_masks (MasksCopy n) f w)) =
                cls_images w) /\
  (forall f, cls_masks (after (mutate_images (ImagesCopy n) f w)) =
             cls_masks w
             /\ cls_images (after (mutate_images (ImagesCopy n) f w)) =
                cls_images w).
Proof. split; intros f; split; reflexivity. Qed.

(** C10.  A successful [fetch_masks] returns an object allocated by the
    copy, which holds what the mask index holds and is not the index: any
    mutation of it, by any function, leaves the mask index and the series
    index as they were and only changes the copy.  A successful
    [fetch_series] allocates nothing and returns a reference to the
    series index itself, not to a copy: after a mutation through the
    returned reference every patient reads the mutated index, the
    assignment of a key is what the index then holds under that key,
    clearing it makes the patient report no series type, and, when the
    key is not a default kind, the series-by-type query answers the
    assigned value. *)
Theorem fetch_masks_copies_fetch_series_aliases self series_list ext kw w :
  (forall r w1,
     fetch_masks self series_list ext kw w = (Ok r, w1) ->
     r = MasksCopy (length (copies w)) /\
     read_masks r w1 = Some (cls_masks w1) /\
     forall f other,
       cls_masks (after (mutate_masks r f w1)) = cls_masks w1 /\
       cls_images (after (mutate_masks r f w1)) = cls_images w1 /\
       read_masks r (after (mutate_masks r f w1)) = Some (f (cls_masks w1)) /\
       value (self_masks other (after (mutate_masks r f w1))) =
       Ok (cls_masks w1)) /\
  (forall r w1,
     fetch_series self series_list ext kw w = (Ok r, w1) ->
     r = ImagesAttr /\
     copies w1 = copies w /\
     read_images r w1 = Some (cls_images w1) /\
     (forall f other,
        value (self_images other (after (mutate_images r f w1))) =
        Ok (f (cls_images w1))) /\
     (forall k v other,
        value ((images <- self_images other ;; getitem images k)
                 (after (mutate_images r (Dict.set k v) w1))) = Ok v) /\
     (forall other,
        value (get_series_types other
                 (after (mutate_images r (fun _ => []) w1))) = Ok []) /\
     (forall k v other r2 w2,
        ~ In k series_to_fetch ->
        fetch_all other series_to_fetch mask_config series_config
          (after (mutate_images r (Dict.set k v) w1)) = (Ok r2, w2) ->
        value (get_series_by_type other k
                 (after (mutate_images r (Dict.set k v) w1))) = Ok v)).
Proof.
  split.
  - intros r w1 Hrun.
    apply fetch_masks_ok in Hrun as (_ & _ & -> & Hco & _).
    split; [reflexivity|]. split.
    + simpl. rewrite Hco. now rewrite nth_error_snoc.
    + intros f other. simpl. repeat split.
      rewrite nth_error_list_update, Hco, nth_error_snoc. reflexivity.
  - intros r w1 Hrun.
    pose proof (fetch_series_ref _ _ _ _ _ _ _ Hrun) as ->.
    apply fetch_series_ok in Hrun
      as (_ & _ & (_ & _ & _ & _ & Hco & _)).
    split; [reflexivity|]. split; [exact Hco|]. split; [reflexivity|].
    split; [intros; reflexivity|]. split; [|split].
    + intros k v other. unfold bind, self_images, getitem; simpl.
      now rewrite DictFacts.get_set_same.
    + intros other. reflexivity.
    + intros k v other r2 w2 Hk Hall.
      pose proof (fetch_all_ok _ _ _ _ _ _ _ Hall)
        as (_ & _ & _ & _ & Hsget & _).
      unfold get_series_by_type. erewrite bind_ok by exact Hall.
      unfold bind, self_images, getitem. rewrite Hsget.
      rewrite get_assign_all_notin by exact Hk. simpl.
      now rewrite DictFacts.get_set_same.
Qed.

Lemma fetch_masks_copies_fetch_series_aliases_witness :
  exists r w1,
    fetch_masks Sample.p1 ["adc"] default_extension mask_config
      (Sample.at_start Sample.tree) = (Ok r, w1) /\
    cls_masks (after (mutate_masks r (fun _ => []) w1)) = cls_masks w1 /\
    exists s w2,
      fetch_series Sample.p1 ["adc"] default_extension series_config
        (Sample.at_start Sample.tree) = (Ok s, w2) /\
      value (get_series_types Sample.p1 w2) = Ok ["adc"] /\
      value (get_series_types Sample.p1
               (after (mutate_images s (fun _ => []) w2))) = Ok [].
Proof.
  destruct (fetch_masks_copies_fetch_series_aliases Sample.p1 ["adc"]
              default_extension mask_config (Sample.at_start Sample.tree))
    as [Hm _].
  destruct (fetch_masks_copies_fetch_series_aliases Sample.p1 ["adc"]
              default_extension series_config (Sample.at_start Sample.tree))
    as [_ Hs].
  destruct (fetch_masks Sample.p1 ["adc"] default_extension mask_config
              (Sample.at_start Sample.tree)) as [[r|e] w1] eqn:Em;
    [|vm_compute in Em; discriminate].
  destruct (fetch_series Sample.p1 ["adc"] default_extension series_config
              (Sample.at_start Sample.tree)) as [[s|e] w2] eqn:Es;
    [|vm_compute in Es; discriminate].
  exists r, w1. split; [reflexivity|].
  destruct (Hm r w1 eq_refl) as (_ & _ & Hmut).
  split; [apply (Hmut (fun _ => []) Sample.p1)|].
  exists s, w2. split; [reflexivity|].
  destruct (Hs s w2 eq_refl) as (_ & _ & _ & _ & _ & Hclear & _).
  split; [|apply Hclear].
  replace w2
    with (after (fetch_series Sample.p1 ["adc"] default_extension
                   series_config (Sample.at_start Sample.tree)))
    by (now rewrite Es).
  vm_compute. reflexivity.
Defined.

(** * Further properties of the code *)

(** ** The exception test and its diagnostics *)

Lemma excluding_word_survives exceptions file :
  survives exceptions file = true <-> excluding_word exceptions file = None.
Proof.
  destruct exceptions as [l|]; simpl; [|tauto].
  rewrite negb_true_iff.
  induction l as [|e l IH]; simpl; [tauto|].
  destruct (Str.contains e file); simpl; [|exact IH].
  split; discriminate.
Qed.

(** X1.  [_check_exception_words] answers [True] and writes nothing for
    a name in which no exception word occurs (or when there is no
    exception list); otherwise it answers [False] and appends exactly
    one line to the log, naming the file and the first exception word,
    in list order, that occurs in it. *)
Theorem check_exception_words_run self file exceptions w :
  match excluding_word exceptions file with
  | None => _check_exception_words self file exceptions w = (Ok true, w)
  | Some excp =>
      Str.contains excp file = true /\
      value (_check_exception_words self file exceptions w) = Ok false /\
      sink (after (_check_exception_words self file exceptions w)) =
      sink w ++ [log_line self (FileExcluded file excp)] /\
      frame w (after (_check_exception_words self file exceptions w))
  end.
Proof.
  destruct exceptions as [l|]; simpl; [|reflexivity].
  induction l as [|e l IH]; simpl; [reflexivity|].
  destruct (Str.contains e file) eqn:E; simpl; [|exact IH].
  split; [exact E|]. split; [reflexivity|]. split; [reflexivity|].
  apply (append_line_frame (log_line self (FileExcluded file e)) w).
Qed.

(** ** What [_select_files] can return *)

Lemma exact_survivors_incl series_desc ext exceptions files name :
  In name (exact_survivors series_desc ext exceptions files) ->
  In name files /\ exact_match series_desc ext name = true /\
  survives exceptions name = true.
Proof.
  unfold exact_survivors. rewrite filter_In, andb_true_iff. tauto.
Qed.

Lemma permissive_survivors_incl ext exceptions files name :
  In name (permissive_survivors ext exceptions files) ->
  In name files /\ has_extension ext name = true /\
  survives exceptions name = true.
Proof.
  unfold permissive_survivors. rewrite filter_In, andb_true_iff. tauto.
Qed.

Lemma in_sublist_filter {A} (f : A -> bool) (l : list A) x :
  In x (filter f l) -> In x l /\ f x = true.
Proof. apply filter_In. Qed.

Lemma selected_names_sound series_desc ext exceptions fm tfm files name :
  In name (selected_names series_desc ext exceptions fm tfm files) ->
  In name files /\ survives exceptions name = true /\
  (exact_match series_desc ext name = true \/
   has_extension ext name = true) /\
  (fm = true -> tfm = false -> exact_match series_desc ext name = true).
Proof.
  unfold selected_names.
  destruct fm, tfm;
    try destruct (exact_survivors series_desc ext exceptions files) eqn:E;
    try rewrite <- E; intros H;
    try (apply exact_survivors_incl in H; intuition discriminate);
    try (apply permissive_survivors_incl in H; intuition discriminate).
Qed.

(** X2.  In every mode a path returned by [_select_files] is the
    folder joined to a name of its listing in which no exception word
    occurs and which passes the exact rule or carries the extension;
    with [full_match] alone it passes the exact rule.  Nothing else is
    ever returned, and no more paths than the folder has names. *)
Theorem select_files_sound self series_desc folder ext exceptions fm tfm w
    files selected :
  os.lookup folder (fs w) = Some files ->
  value (_select_files self series_desc folder ext exceptions fm tfm w) =
  Ok selected ->
  length selected <= length files /\
  forall p, In p selected ->
    exists name,
      p = os.join folder name /\ In name files /\
      survives exceptions name = true /\
      excluding_word exceptions name = None /\
      (exact_match series_desc ext name = true \/
       has_extension ext name = true) /\
      (fm = true -> tfm = false ->
       exact_match series_desc ext name = true).
Proof.
  intros Hls Hv. rewrite (select_files_value _ _ _ _ _ _ _ _ _ Hls) in Hv.
  injection Hv as <-.
  assert (forall name,
            In name (selected_names series_desc ext exceptions fm tfm files)
            -> In name files /\ survives exceptions name = true /\
               (exact_match series_desc ext name = true \/
                has_extension ext name = true) /\
               (fm = true -> tfm = false ->
                exact_match series_desc ext name = true)) as Hin.
  { intros name. apply selected_names_sound. }
  split.
  - rewrite length_map. unfold selected_names.
    destruct fm, tfm;
      try destruct (exact_survivors series_desc ext exceptions files) eqn:E;
      try rewrite <- E; apply filter_length_le.
  - intros p Hp. apply in_map_iff in Hp as (name & <- & Hname).
    exists name. destruct (Hin name Hname) as (H1 & H2 & H3 & H4).
    repeat split; try assumption.
    now apply excluding_word_survives.
Qed.

Lemma select_files_sound_witness :
  os.lookup "/data/p1/ADC" (fs (Sample.at_start Sample.tree)) =
  Some ["adc.nii.gz"; "adc_extra.nii.gz"] /\
  length ["/data/p1/ADC/adc.nii.gz"] <= 2.
Proof.
  split; [reflexivity|].
  exact (proj1 (select_files_sound Sample.p1 "adc" "/data/p1/ADC" ".nii.gz"
                  None true false (Sample.at_start Sample.tree)
                  ["adc.nii.gz"; "adc_extra.nii.gz"]
                  ["/data/p1/ADC/adc.nii.gz"] eq_refl eq_refl)).
Defined.

(** X3.  With neither flag set, [_select_files] on a folder that can be
    listed returns, in listing order, exactly the names that contain the
    extension and no exception word, each joined to the folder: a path is
    returned if and only if it is the folder joined to such a name. *)
Theorem select_files_default_mode self series_desc folder ext exceptions w
    files :
  os.lookup folder (fs w) = Some files ->
  value (_select_files self series_desc folder ext exceptions false false w)
  = Ok (map (os.join folder)
          (filter (fun name => Str.contains ext name
                               && survives exceptions name) files)) /\
  forall name,
    In name (filter (fun name => Str.contains ext name
                                 && survives exceptions name) files) <->
    In name files /\ (exists a b, name = (a ++ ext ++ b)%string) /\
    (forall l excp, exceptions = Some l -> In excp l ->
       Str.contains excp name = false).
Proof.
  intros Hls. split.
  - now rewrite (select_files_value _ _ _ _ _ _ _ _ _ Hls).
  - intros name. rewrite filter_In, andb_true_iff, StrFacts.contains_iff.
    destruct exceptions as [l|].
    + rewrite survives_some. split.
      * intros (H1 & H2 & H3). split; [exact H1|]. split; [exact H2|].
        intros l0 excp E. injection E as <-. apply H3.
      * intros (H1 & H2 & H3). split; [exact H1|]. split; [exact H2|].
        intros excp. now apply (H3 l).
    + simpl. split.
      * intros (H1 & H2 & _). split; [exact H1|]. split; [exact H2|].
        intros l excp E. discriminate.
      * intros (H1 & H2 & _). tauto.
Qed.

Lemma select_files_default_mode_witness :
  os.lookup "/data/p1/ADC" (fs (Sample.at_start Sample.tree)) =
  Some ["adc.nii.gz"; "adc_extra.nii.gz"] /\
  value (_select_files Sample.p1 "dwi" "/data/p1/ADC" ".nii.gz"
           (Some ["extra"]) false false (Sample.at_start Sample.tree)) =
  Ok ["/data/p1/ADC/adc.nii.gz"].
Proof.
  split; [reflexivity|].
  rewrite (proj1 (select_files_default_mode Sample.p1 "dwi" "/data/p1/ADC"
                    ".nii.gz" (Some ["extra"])
                    (Sample.at_start Sample.tree)
                    ["adc.nii.gz"; "adc_extra.nii.gz"] eq_refl)).
  reflexivity.
Defined.

(** X4.  On a folder that cannot be listed (absent, or a file),
    [_select_files] with either flag set, or with none, raises the
    [OSError] of [os.listdir] for that folder and writes nothing. *)
Theorem select_files_unlistable self series_desc folder ext exceptions fm
    tfm w :
  os.lookup folder (fs w) = None ->
  _select_files self series_desc folder ext exceptions fm tfm w =
  (Raise (OSError folder), w).
Proof.
  intros Hls. unfold _select_files.
  destruct fm, tfm; simpl;
    try (erewrite bind_raise;
         [reflexivity
         | erewrite bind_raise; [reflexivity | now apply listdir_missing]]).
  rewrite bind_ret. erewrite bind_raise;
    [reflexivity | now apply listdir_missing].
Qed.

Lemma select_files_unlistable_witness :
  os.lookup "/data/p1/MASKS/notes.txt" (fs (Sample.at_start Sample.tree)) =
  None /\
  value (_select_files Sample.p1 "adc" "/data/p1/MASKS/notes.txt" ".nii.gz"
           None true false (Sample.at_start Sample.tree)) =
  Raise (OSError "/data/p1/MASKS/notes.txt").
Proof.
  split; [reflexivity|].
  now rewrite (select_files_unlistable Sample.p1 "adc"
                 "/data/p1/MASKS/notes.txt" ".nii.gz" None true false
                 (Sample.at_start Sample.tree) eq_refl).
Defined.

(** ** Series discovery over several folders *)

Lemma foldM_invariant {A S} (P : S -> Prop) (body : S -> A -> M S) l :
  (forall s x w s' w', P s -> In x l -> body s x w = (Ok s', w') -> P s') ->
  forall acc w r w', P acc -> foldM body l acc w = (Ok r, w') -> P r.
Proof.
  induction l as [|x l IH]; intros Hb acc w r w' Hacc Hrun; simpl in Hrun.
  - injection Hrun as <- _. exact Hacc.
  - apply bind_ok_inv in Hrun as (s1 & w1 & H1 & Hrest).
    apply (IH (fun s y w0 s' w0' Hs Hy => Hb s y w0 s' w0' Hs (or_intror Hy))
             s1 w1 r w'); [|exact Hrest].
    eapply Hb; [exact Hacc | now left | exact H1].
Qed.

Lemma join_nonempty a b : a <> ""%string -> os.join a b <> ""%string.
Proof.
  intros Ha. unfold os.join.
  destruct (Str.startswith "/" b) eqn:Eb.
  - destruct b; [discriminate | discriminate].
  - destruct a as [|c a]; [contradiction|].
    destruct (Str.is_empty (String c a) || Str.endswith_char "/" (String c a));
      simpl; discriminate.
Qed.

(** X5.  When more than one entry of the patient directory matches the
    kind and [warnings] is on, [_fetch_single_series] writes the log line
    with the folders found and then raises [AttributeError] for the
    method [write_warning], which [Patient] does not have: no warning is
    written, no folder is scanned and no entry is returned. *)
Theorem fetch_single_series_several_folders self series_desc ext kw w
    entries :
  os.lookup (patient_path self) (fs w) = Some entries ->
  1 < length (matching_folders series_desc entries) ->
  warnings kw = true ->
  value (_fetch_single_series self series_desc ext kw w) =
  Raise (AttributeError "write_warning") /\
  sink (after (_fetch_single_series self series_desc ext kw w)) =
  sink w ++
  [log_line self
     (FoldersFound series_desc
        (map (os.join (patient_path self))
           (matching_folders series_desc entries)))] /\
  frame w (after (_fetch_single_series self series_desc ext kw w)).
Proof.
  intros Hls Hm Hw. unfold _fetch_single_series.
  erewrite bind_ok by (apply listdir_value; exact Hls).
  change (filter _ entries) with (matching_folders series_desc entries).
  set (folders := map (os.join (patient_path self))
                    (matching_folders series_desc entries)).
  assert ((1 <? length folders)%nat = true) as Hlt
    by (unfold folders; rewrite length_map; now apply Nat.ltb_lt).
  unfold bind at 1. unfold _write_log at 1, append_line at 1.
  rewrite Hlt, Hw. simpl.
  split; [reflexivity|]. split; [reflexivity|].
  apply (append_line_frame (log_line self (FoldersFound series_desc folders))
           w).
Qed.

Lemma fetch_single_series_several_folders_witness :
  os.lookup (patient_path Sample.p1)
    (fs (Sample.at_start Sample.tree_two_masks)) =
  Some ["ADC"; "MASKS"; "masks_old"] /\
  value (_fetch_single_series Sample.p1 "mask" ".nii.gz" no_kwargs
           (Sample.at_start Sample.tree_two_masks)) =
  Raise (AttributeError "write_warning").
Proof.
  split; [reflexivity|].
  apply (fetch_single_series_several_folders Sample.p1 "mask" ".nii.gz"
           no_kwargs (Sample.at_start Sample.tree_two_masks)
           ["ADC"; "MASKS"; "masks_old"] eq_refl).
  - vm_compute. lia.
  - reflexivity.
Defined.

Lemma series_folder_loop self series_desc ext kw w folders :
  (forall folder, In folder folders -> os.lookup folder (fs w) <> None) ->
  forall acc w0, frame w w0 ->
    exists w1,
      foldM (fun file_list folder =>
               files <- os.listdir folder ;;
               _write_log self (FilesFound folder files) ;;;
               _write_log self
                 (SelectCall "_fetch_single_series" series_desc
                    (exceptions kw) (try_full_match kw) (full_match kw)) ;;;
               sel <- _select_files self series_desc folder ext
                        (exceptions kw) (full_match kw)
                        (try_full_match kw) ;;
               ret (file_list ++ sel))
        folders acc w0 =
      (Ok (acc ++ flat_map (resolved_paths (fs w) series_desc ext kw)
                    folders), w1) /\ frame w w1.
Proof.
  induction folders as [|folder folders IH]; intros Hall acc w0 F0; simpl.
  - exists w0. rewrite app_nil_r. now split.
  - destruct (os.lookup folder (fs w)) as [files|] eqn:Hf;
      [|exfalso; now apply (Hall folder (or_introl eq_refl))].
    pose proof (frame_fs _ _ F0) as E0.
    set (body := fun (file_list : list string) (folder0 : string) => _).
    assert (exists w4,
              body acc folder w0 =
              (Ok (acc ++ resolved_paths (fs w) series_desc ext kw folder),
               w4) /\ frame w w4) as (w4 & Hb & F4).
    { unfold body.
      erewrite bind_ok by (apply listdir_value; rewrite E0; exact Hf).
      destruct (write_log_frame self (FilesFound folder files) w0)
        as (w2 & H2 & F2).
      erewrite bind_ok by exact H2.
      destruct (write_log_frame self
                  (SelectCall "_fetch_single_series" series_desc
                     (exceptions kw) (try_full_match kw) (full_match kw))
                  w2) as (w3 & H3 & F3).
      erewrite bind_ok by exact H3.
      assert (frame w w3) as Fw3
        by (eapply frame_trans; [exact F0 | eapply frame_trans; eassumption]).
      erewrite bind_value_ok
        by (apply select_files_value; rewrite (frame_fs _ _ Fw3); exact Hf).
      eexists. split.
      - unfold ret, resolved_paths, listing. rewrite Hf. reflexivity.
      - eapply frame_trans; [exact Fw3|].
        apply reader_frame. apply reader_select_files. }
    erewrite bind_ok by exact Hb.
    destruct (IH (fun f Hin => Hall f (or_intror Hin))
                (acc ++ resolved_paths (fs w) series_desc ext kw folder)
                w4 F4) as (w5 & H5 & F5).
    exists w5. split; [|exact F5].
    rewrite <- app_assoc in H5. exact H5.
Qed.

(** X6.  When [warnings] is off, or at most one entry matches, and
    every matching entry of the patient directory can be listed,
    [_fetch_single_series] returns one entry per resolved path: the
    paths the matcher resolves in each matching folder, folder after
    folder in listing order, concatenated. *)
Theorem fetch_single_series_concatenates self series_desc ext kw w entries :
  os.lookup (patient_path self) (fs w) = Some entries ->
  length (matching_folders series_desc entries) <= 1 \/
  warnings kw = false ->
  (forall folder, In folder (matching_folders series_desc entries) ->
     os.lookup (os.join (patient_path self) folder) (fs w) <> None) ->
  value (_fetch_single_series self series_desc ext kw w) =
  Ok (map (fun path => _create_series (Some series_desc)
                         (Some (PathStr path)))
        (flat_map (fun folder =>
                     resolved_paths (fs w) series_desc ext kw
                       (os.join (patient_path self) folder))
           (matching_folders series_desc entries))).
Proof.
  intros Hls Hquiet Hall. unfold _fetch_single_series.
  erewrite bind_ok by (apply listdir_value; exact Hls).
  change (filter _ entries) with (matching_folders series_desc entries).
  set (names := matching_folders series_desc entries) in *.
  destruct (write_log_frame self
              (FoldersFound series_desc
                 (map (os.join (patient_path self)) names)) w)
    as (w1 & H1 & F1).
  erewrite bind_ok by exact H1.
  assert ((1 <? length (map (os.join (patient_path self)) names))%nat
          && warnings kw = false) as Hno.
  { rewrite length_map. destruct Hquiet as [Hle|Hw].
    - apply Nat.ltb_ge in Hle. now rewrite Hle.
    - rewrite Hw. apply andb_false_r. }
  rewrite Hno. rewrite bind_ret.
  destruct (series_folder_loop self series_desc ext kw w
              (map (os.join (patient_path self)) names)) with
    (acc := @nil string) (w0 := w1) as (w2 & H2 & F2).
  { intros folder Hin. apply in_map_iff in Hin as (name & <- & Hname).
    now apply Hall. }
  { exact F1. }
  erewrite bind_ok by exact H2.
  destruct (write_log_frame self
              (SeriesSelected
                 ([] ++ flat_map (resolved_paths (fs w) series_desc ext kw)
                          (map (os.join (patient_path self)) names))) w2)
    as (w3 & H3 & F3).
  erewrite bind_ok by exact H3.
  unfold ret, value; simpl. do 2 f_equal.
  clear. induction names as [|n names IH]; simpl; [reflexivity|].
  now rewrite IH.
Qed.

Lemma fetch_single_series_concatenates_witness :
  os.lookup (patient_path Sample.p1)
    (fs (Sample.at_start Sample.tree_two_masks)) =
  Some ["ADC"; "MASKS"; "masks_old"] /\
  value (_fetch_single_series Sample.p1 "mask" ".nii.gz"
           (mkKwargs false None false false)
           (Sample.at_start Sample.tree_two_masks)) = Ok [].
Proof.
  split; [reflexivity|].
  rewrite (fetch_single_series_concatenates Sample.p1 "mask" ".nii.gz"
             (mkKwargs false None false false)
             (Sample.at_start Sample.tree_two_masks)
             ["ADC"; "MASKS"; "masks_old"] eq_refl).
  - reflexivity.
  - right. reflexivity.
  - intros folder [<-|[<-|[]]]; vm_compute; discriminate.
Defined.

Lemma select_files_joined self series_desc folder ext exceptions fm tfm w
    sel w' :
  _select_files self series_desc folder ext exceptions fm tfm w =
  (Ok sel, w') ->
  forall p, In p sel -> exists name, p = os.join folder name.
Proof.
  intros Hrun p Hp.
  destruct (os.lookup folder (fs w)) as [files|] eqn:Hls.
  - pose proof (select_files_value self series_desc folder ext exceptions
                  fm tfm w files Hls) as Hv.
    rewrite Hrun in Hv. simpl in Hv. injection Hv as ->.
    apply in_map_iff in Hp as (name & <- & _). now exists name.
  - unfold _select_files in Hrun.
    destruct fm, tfm; simpl in Hrun;
      try (erewrite bind_raise in Hrun;
           [discriminate
           | erewrite bind_raise; [reflexivity | now apply listdir_missing]]).
    rewrite bind_ret in Hrun. erewrite bind_raise in Hrun;
      [discriminate | now apply listdir_missing].
Qed.

(** How the items of series discovery are built: one entry per path, and
    every path a file name joined to a matching entry joined to the
    patient path. *)
Lemma fetch_single_series_built self series_desc ext kw w items :
  value (_fetch_single_series self series_desc ext kw w) = Ok items ->
  exists file_list,
    items = map (fun path => _create_series (Some series_desc)
                               (Some (PathStr path))) file_list /\
    forall p, In p file_list ->
      exists name file,
        p = os.join (os.join (patient_path self) name) file.
Proof.
  intros Hv.
  pose proof (run_eta (_fetch_single_series self series_desc ext kw w))
    as Hrun.
  rewrite Hv in Hrun. unfold _fetch_single_series in Hrun.
  apply bind_ok_inv in Hrun as (entries & w1 & _ & Hrun).
  apply bind_ok_inv in Hrun as (u1 & w2 & _ & Hrun).
  apply bind_ok_inv in Hrun as (u2 & w3 & _ & Hrun).
  apply bind_ok_inv in Hrun as (file_list & w4 & Hloop & Hrun).
  apply bind_ok_inv in Hrun as (u3 & w5 & _ & Hret).
  injection Hret as <- _.
  exists file_list. split; [reflexivity|].
  revert Hloop.
  apply (foldM_invariant
           (fun l : list string =>
              forall p, In p l ->
                exists name file,
                  p = os.join (os.join (patient_path self) name) file));
    [|intros p []].
  intros s folder w0 s' w0' Hs Hin Hbody p Hp.
  apply in_map_iff in Hin as (name & <- & _).
  apply bind_ok_inv in Hbody as (files & wa & _ & Hbody).
  apply bind_ok_inv in Hbody as (ua & wb & _ & Hbody).
  apply bind_ok_inv in Hbody as (ub & wc & _ & Hbody).
  apply bind_ok_inv in Hbody as (sel & wd & Hsel & Hret).
  injection Hret as <- _.
  apply in_app_or in Hp as [Hp|Hp]; [now apply Hs|].
  destruct (select_files_joined _ _ _ _ _ _ _ _ _ _ Hsel p Hp) as [file ->].
  now exists name, file.
Qed.

Lemma present_all {A} (l : list (option A)) :
  (forall item, In item l -> item <> None) -> present l = length l.
Proof.
  unfold present. induction l as [|[x|] l IH]; intros H; simpl;
    [reflexivity| |].
  - f_equal. apply IH. intros item Hi. apply H. now right.
  - exfalso. now apply (H None (or_introl eq_refl)).
Qed.

Lemma fetch_single_series_items_of self series_desc ext kw w items :
  patient_path self <> ""%string ->
  value (_fetch_single_series self series_desc ext kw w) = Ok items ->
  forall item, In item items -> series_entry_of series_desc item.
Proof.
  intros Hpath Hv.
  destruct (fetch_single_series_built _ _ _ _ _ _ Hv)
    as (file_list & -> & Hbuilt).
  intros item Hitem. apply in_map_iff in Hitem as (p & <- & Hp).
  destruct (Hbuilt p Hp) as (name & file & ->).
  exists (os.join (os.join (patient_path self) name) file).
  assert (os.join (os.join (patient_path self) name) file <> ""%string)
    as Hne by (apply join_nonempty; now apply join_nonempty).
  split; [exact Hne|].
  destruct (os.join (os.join (patient_path self) name) file);
    [contradiction | reflexivity].
Qed.

(** X7.  For a patient whose path is not the empty string, every item
    that [_fetch_single_series] returns is a present entry of the
    requested kind whose path is one non-empty string: series discovery
    never yields [None] and never an entry of another kind or with a list
    of paths, so the entries that count are all the items. *)
Theorem fetch_single_series_entries self series_desc ext kw w items :
  patient_path self <> ""%string ->
  value (_fetch_single_series self series_desc ext kw w) = Ok items ->
  Forall (series_entry_of series_desc) items /\
  present items = length items.
Proof.
  intros Hpath Hv.
  pose proof (fetch_single_series_items_of _ _ _ _ _ _ Hpath Hv) as Hall.
  split; [now apply Forall_forall|].
  apply present_all. intros item Hitem.
  destruct (Hall item Hitem) as (p & _ & ->). discriminate.
Qed.

Lemma fetch_single_series_entries_witness :
  patient_path Sample.p1 <> ""%string /\
  Forall (series_entry_of "adc")
    [Some (mkSeries "adc" (PathStr "/data/p1/ADC/adc.nii.gz"))].
Proof.
  assert (patient_path Sample.p1 <> ""%string) as H
    by (vm_compute; discriminate).
  split; [exact H|].
  exact (proj1 (fetch_single_series_entries Sample.p1 "adc" ".nii.gz"
                  series_config (Sample.at_start Sample.tree) _ H eq_refl)).
Defined.

(** X8.  When the patient directory cannot be listed, series discovery
    and mask discovery both raise the [OSError] of [os.listdir] for the
    patient path and write nothing; [fetch_all] over a non-empty list of
    kinds then fails with that error, from the mask side, and leaves both
    indices as they were. *)
Theorem patient_directory_unlistable self w :
  os.lookup (patient_path self) (fs w) = None ->
  (forall kind ext kw,
     _fetch_single_series self kind ext kw w =
     (Raise (OSError (patient_path self)), w)) /\
  (forall kind ext kw,
     _fetch_single_mask self kind ext kw w =
     (Raise (OSError (patient_path self)), w)) /\
  (forall kind kinds mc sc,
     value (fetch_all self (kind :: kinds) mc sc w) =
     Raise (OSError (patient_path self)) /\
     cls_images (after (fetch_all self (kind :: kinds) mc sc w)) =
     cls_images w /\
     cls_masks (after (fetch_all self (kind :: kinds) mc sc w)) =
     cls_masks w).
Proof.
  intros Hls.
  assert (forall kind ext kw,
            _fetch_single_mask self kind ext kw w =
            (Raise (OSError (patient_path self)), w)) as Hmask.
  { intros. unfold _fetch_single_mask.
    erewrite bind_raise; [reflexivity | now apply listdir_missing]. }
  split; [|split; [exact Hmask|]].
  - intros. unfold _fetch_single_series.
    erewrite bind_raise; [reflexivity | now apply listdir_missing].
  - intros kind kinds mc sc.
    destruct (fetch_masks_first_raise self kind kinds default_extension mc w
                (OSError (patient_path self))) as (Hv & Hm & Hi);
      [now rewrite Hmask|].
    unfold fetch_all. erewrite bind_value_raise by exact Hv. simpl.
    tauto.
Qed.

Lemma patient_directory_unlistable_witness :
  os.lookup (patient_path (Sample.patient "p9"))
    (fs (Sample.at_start Sample.tree)) = None /\
  value (fetch_all (Sample.patient "p9") series_to_fetch mask_config
           series_config (Sample.at_start Sample.tree)) =
  Raise (OSError "/data/p9").
Proof.
  split; [reflexivity|].
  destruct (patient_directory_unlistable (Sample.patient "p9")
              (Sample.at_start Sample.tree) eq_refl) as (_ & _ & H).
  exact (proj1 (H "adc" ["dwi"] mask_config series_config)).
Defined.

(** ** Paths handed to [os.path.join] twice *)

Lemma startswith_slash_app a b :
  Str.startswith "/" a = true -> Str.startswith "/" (a ++ b) = true.
Proof. destruct a as [|c a]; simpl; [discriminate | tauto]. Qed.

Lemma join_absolute a b :
  Str.startswith "/" a = true -> Str.startswith "/" (os.join a b) = true.
Proof.
  intros Ha. unfold os.join.
  destruct (Str.startswith "/" b) eqn:Eb; [exact Eb|].
  destruct (Str.is_empty a || Str.endswith_char "/" a);
    now apply startswith_slash_app.
Qed.

Lemma join_absolute_twice a b :
  Str.startswith "/" a = true -> os.join a (os.join a b) = os.join a b.
Proof.
  intros Ha. unfold os.join at 1. now rewrite (join_absolute a b Ha).
Qed.

Lemma string_length_app (a b : string) :
  String.length (a ++ b) = String.length a + String.length b.
Proof. induction a as [|c a IH]; simpl; [reflexivity | now rewrite IH]. Qed.

Lemma join_relative_twice a b :
  a <> ""%string -> Str.startswith "/" a = false ->
  Str.startswith "/" b = false ->
  os.join a (os.join a b) <> os.join a b.
Proof.
  intros Hne Ha Hb.
  assert (exists sep, forall x, Str.startswith "/" x = false ->
            os.join a x = (a ++ sep ++ x)%string) as [sep Hsep].
  { destruct (Str.is_empty a || Str.endswith_char "/" a) eqn:E.
    - exists ""%string. intros x Hx. unfold os.join. now rewrite Hx, E.
    - exists "/"%string. intros x Hx. unfold os.join. now rewrite Hx, E. }
  assert (Str.startswith "/" (os.join a b) = false) as Hab.
  { rewrite (Hsep b Hb). destruct a as [|c a]; [contradiction|].
    simpl in *. exact Ha. }
  rewrite (Hsep _ Hab). intros E.
  apply (f_equal String.length) in E.
  rewrite !string_length_app in E.
  destruct a; [contradiction | simpl in E; lia].
Qed.

(** X9.  Mask discovery joins the patient path to the masks folder
    twice.  For an absolute patient path the second join changes
    nothing.  For a relative, non-empty patient path the folder that is
    listed is the patient path followed by the patient path and the
    masks folder, a different path: when that folder cannot be listed,
    mask discovery raises [OSError] for it although the patient directory
    holds exactly one masks folder. *)
Theorem mask_folder_joined_twice self kind ext kw w entries m :
  os.lookup (patient_path self) (fs w) = Some entries ->
  matching_folders mask_folder_name entries = [m] ->
  (Str.startswith "/" (patient_path self) = true ->
   os.join (patient_path self) (os.join (patient_path self) m) =
   os.join (patient_path self) m) /\
  (patient_path self <> ""%string ->
   Str.startswith "/" (patient_path self) = false ->
   Str.startswith "/" m = false ->
   os.lookup (os.join (patient_path self) (os.join (patient_path self) m))
     (fs w) = None ->
   os.join (patient_path self) (os.join (patient_path self) m) <>
   os.join (patient_path self) m /\
   _fetch_single_mask self kind ext kw w =
   (Raise (OSError (os.join (patient_path self)
                      (os.join (patient_path self) m))), w)).
Proof.
  intros Hls Hm. split; [apply join_absolute_twice|].
  intros Hne Hrel Hmrel Hnone.
  split; [now apply join_relative_twice|].
  unfold _fetch_single_mask.
  erewrite bind_ok by (apply listdir_value; exact Hls).
  change (filter _ entries) with (matching_folders mask_folder_name entries).
  rewrite Hm. cbn [map length Nat.ltb Nat.leb]. rewrite !bind_ret.
  erewrite bind_raise; [reflexivity | now apply listdir_missing].
Qed.

Lemma mask_folder_joined_twice_witness :
  os.lookup (patient_path Sample.relative_patient)
    (fs (Sample.at_start Sample.tree_relative)) = Some ["ADC"; "MASKS"] /\
  os.lookup "data/p1/MASKS" (fs (Sample.at_start Sample.tree_relative)) =
  Some ["doctorA"] /\
  _fetch_single_mask Sample.relative_patient "adc" ".nii.gz" mask_config
    (Sample.at_start Sample.tree_relative) =
  (Raise (OSError "data/p1/data/p1/MASKS"),
   Sample.at_start Sample.tree_relative).
Proof.
  split; [reflexivity|]. split; [reflexivity|].
  destruct (mask_folder_joined_twice Sample.relative_patient "adc" ".nii.gz"
              mask_config (Sample.at_start Sample.tree_relative)
              ["ADC"; "MASKS"] "MASKS" eq_refl eq_refl) as [_ H].
  apply H; try reflexivity. vm_compute. discriminate.
Defined.

(** ** What a discovered mask can be *)

Lemma get_tabulate_inv {V} (g : string -> V) ks k v :
  Dict.get k (Dict.tabulate g ks) = Some v -> In k ks /\ v = g k.
Proof.
  induction ks as [|k0 ks IH]; simpl; [discriminate|].
  destruct (String.eqb k k0) eqn:E.
  - apply String.eqb_eq in E. subst k0. intros H. injection H as <-.
    split; [now left | reflexivity].
  - intros H. destruct (IH H) as [Hin Hv]. split; [now right | exact Hv].
Qed.

(** X10.  On a patient with exactly one masks folder whose listing has
    no repeated name, every mask that [_fetch_single_mask] returns under a
    doctor is of the requested kind and attributed to that doctor, never
    to [None]; its path is a non-empty list, and each path in it is a
    name of that doctor's subfolder, without exception word, joined to
    the subfolder.  A file lying directly in the masks folder is never
    part of a mask. *)
Theorem discovered_masks_belong_to_doctors self kind ext kw w entries m sub
    index :
  os.lookup (patient_path self) (fs w) = Some entries ->
  matching_folders mask_folder_name entries = [m] ->
  os.lookup (os.join (patient_path self) (os.join (patient_path self) m))
    (fs w) = Some sub ->
  NoDup sub ->
  value (_fetch_single_mask self kind ext kw w) = Ok index ->
  forall doctor items mask,
    Dict.get doctor index = Some items -> In (Some mask) items ->
    In doctor sub /\
    os.lookup
      (os.join (os.join (patient_path self) (os.join (patient_path self) m))
         doctor) (fs w) <> None /\
    get_type (mask_base mask) = kind /\
    get_doctor mask = Some doctor /\
    exists paths,
      get_path (mask_base mask) = PathList paths /\ paths <> [] /\
      forall p, In p paths ->
        exists name,
          p = os.join
                (os.join
                   (os.join (patient_path self)
                      (os.join (patient_path self) m)) doctor) name /\
          In name
            (listing (fs w)
               (os.join
                  (os.join (patient_path self)
                     (os.join (patient_path self) m)) doctor)) /\
          survives (exceptions kw) name = true.
Proof.
  intros Hls Hm Hsub Hnd Hv doctor items mask Hget Hin.
  destruct (fetch_single_mask_run self kind ext kw w entries m sub
              Hls Hm Hsub Hnd) as (w' & Hrun & _).
  rewrite Hrun in Hv. simpl in Hv. injection Hv as <-.
  set (mfp := os.join (patient_path self) (os.join (patient_path self) m))
    in *.
  apply get_tabulate_inv in Hget as [Hdoc ->].
  pose proof (doctors_of_listable _ _ _ _ Hdoc) as Hlx.
  unfold doctors_of in Hdoc. apply filter_In in Hdoc as [Hds _].
  split; [exact Hds|]. split; [rewrite Hlx; discriminate|].
  cbv beta in Hin. destruct Hin as [Hin|[]].
  unfold _create_mask in Hin.
  destruct (resolved_paths (fs w) kind ext kw (os.join mfp doctor))
    as [|p0 ps] eqn:Er; simpl in Hin; [discriminate|].
  injection Hin as <-. simpl.
  split; [reflexivity|]. split; [reflexivity|].
  eexists. split; [reflexivity|]. split; [discriminate|].
  intros p Hp. rewrite <- Er in Hp. unfold resolved_paths in Hp.
  apply in_map_iff in Hp as (name & <- & Hname).
  exists name. split; [reflexivity|].
  apply selected_names_sound in Hname. tauto.
Qed.

Lemma discovered_masks_belong_to_doctors_witness :
  os.lookup "/data/p1/MASKS" (fs (Sample.at_start Sample.tree)) =
  Some ["doctorA"; "notes.txt"] /\
  forall doctor items mask,
    Dict.get doctor
      [("doctorA",
        [Some (mkMask
                 (mkSeries "adc"
                    (PathList ["/data/p1/MASKS/doctorA/adc.nii.gz"]))
                 (Some "doctorA"))])] = Some items ->
    In (Some mask) items -> get_doctor mask = Some doctor.
Proof.
  split; [reflexivity|].
  intros doctor items mask Hget Hin.
  assert (NoDup ["doctorA"; "notes.txt"]) as Hnd
    by (repeat constructor; simpl; intuition discriminate).
  destruct (discovered_masks_belong_to_doctors Sample.p1 "adc" ".nii.gz"
              mask_config (Sample.at_start Sample.tree) ["ADC"; "MASKS"]
              "MASKS" ["doctorA"; "notes.txt"] _ eq_refl eq_refl eq_refl
              Hnd eq_refl doctor items mask Hget Hin)
    as (_ & _ & _ & H & _).
  exact H.
Defined.

(** ** Discovery loops: repetition and failure half-way *)

Section FetchLoopPrefix.
Context {V : Type}.
Variables (self : Patient) (who ext : string) (kw : kwargs).
Variables (F : string -> M V) (store : string -> V -> M unit).
Variables (get : world -> Dict.t V) (R : world -> world -> Prop).
Variable dflt : V.

Hypothesis F_reader : forall k, reader (F k).
Hypothesis R_refl : forall w, R w w.
Hypothesis R_trans : forall w1 w2 w3, R w1 w2 -> R w2 w3 -> R w1 w3.
Hypothesis R_fs : forall w w', R w w' -> fs w' = fs w.
Hypothesis R_frame :
  forall w w', frame w w' -> R w w' /\ get w' = get w.
Hypothesis store_run :
  forall k v w, exists w',
    store k v w = (Ok tt, w') /\ R w w' /\ get w' = Dict.set k v (get w).

(** The keys before the first failing one are stored; the loop then
    ends with the exception of the failing discovery. *)
Lemma fetch_loop_prefix ks1 k ks2 w0 e : forall w,
  fs w = fs w0 ->
  (forall k', In k' ks1 -> exists v, value (F k' w0) = Ok v) ->
  value (F k w0) = Raise e ->
  exists w',
    foldM (fun (_ : unit) (k : string) =>
             _write_log self (RunFetch who k ext kw) ;;;
             v <- F k ;; store k v)
      (ks1 ++ k :: ks2) tt w = (Raise e, w') /\
    R w w' /\
    get w' = assign_all (fun k => discovered (F k) w0 dflt) ks1 (get w).
Proof.
  induction ks1 as [|k1 ks1 IH]; intros w Hfs Hall Hk; simpl.
  - destruct (fetch_turn self who ext kw F store get R F_reader R_trans
                R_frame store_run k w0 w Hfs)
      as [(v & w1 & Hv & _)|(e' & w1 & Hv & Hb & HR & Hg)];
      [congruence|].
    assert (e' = e) by congruence. subst e'.
    exists w1. erewrite bind_raise by exact Hb. tauto.
  - destruct (fetch_turn self who ext kw F store get R F_reader R_trans
                R_frame store_run k1 w0 w Hfs)
      as [(v & w1 & Hv & Hb & HR & Hg)|(e' & w1 & Hv & _)].
    + erewrite bind_ok by exact Hb.
      destruct (IH w1) as (w' & Hrun & HR' & Hg').
      * rewrite (R_fs _ _ HR). exact Hfs.
      * intros k' Hk'. apply Hall. now right.
      * exact Hk.
      * exists w'. split; [exact Hrun|]. split;
          [eapply R_trans; eassumption|].
        rewrite Hg', Hg. unfold assign_all; simpl.
        unfold discovered at 3. now rewrite Hv.
    + destruct (Hall k1 (or_introl eq_refl)) as [v Hv']. congruence.
Qed.
End FetchLoopPrefix.

(** X11.  [fetch_series] and [fetch_masks] are not atomic: when the
    discoveries of the first kinds of the list succeed and the next one
    raises, the call raises that exception, the kinds before it are
    already stored in the index with their new entries, the later kinds
    are not visited, and the other index is untouched. *)
Theorem fetch_stops_at_first_failure self ks1 k ks2 ext kw w e :
  ((forall k', In k' ks1 ->
      exists v, value (_fetch_single_series self k' ext kw w) = Ok v) ->
   value (_fetch_single_series self k ext kw w) = Raise e ->
   value (fetch_series self (ks1 ++ k :: ks2) ext kw w) = Raise e /\
   cls_images (after (fetch_series self (ks1 ++ k :: ks2) ext kw w)) =
   assign_all
     (fun k => discovered (_fetch_single_series self k ext kw) w [])
     ks1 (cls_images w) /\
   cls_masks (after (fetch_series self (ks1 ++ k :: ks2) ext kw w)) =
   cls_masks w) /\
  ((forall k', In k' ks1 ->
      exists v, value (_fetch_single_mask self k' ext kw w) = Ok v) ->
   value (_fetch_single_mask self k ext kw w) = Raise e ->
   value (fetch_masks self (ks1 ++ k :: ks2) ext kw w) = Raise e /\
   cls_masks (after (fetch_masks self (ks1 ++ k :: ks2) ext kw w)) =
   assign_all
     (fun k => discovered (_fetch_single_mask self k ext kw) w [])
     ks1 (cls_masks w) /\
   cls_images (after (fetch_masks self (ks1 ++ k :: ks2) ext kw w)) =
   cls_images w).
Proof.
  split; intros Hall Hk.
  - destruct (fetch_loop_prefix self "_fetch_single_series" ext kw
                (fun k => _fetch_single_series self k ext kw)
                (set_self_images self) cls_images frame_but_images [])
      with (ks1 := ks1) (k := k) (ks2 := ks2) (w0 := w) (e := e) (w := w)
      as (w' & Hrun & HR & Hg); try loop_side; try assumption.
    unfold fetch_series. erewrite bind_raise by exact Hrun. simpl.
    unfold frame_but_images in HR. tauto.
  - destruct (fetch_loop_prefix self "_fetch_single_mask" ext kw
                (fun k => _fetch_single_mask self k ext kw)
                (set_self_masks self) cls_masks frame_but_masks [])
      with (ks1 := ks1) (k := k) (ks2 := ks2) (w0 := w) (e := e) (w := w)
      as (w' & Hrun & HR & Hg); try loop_side; try assumption.
    unfold fetch_masks. erewrite bind_raise by exact Hrun. simpl.
    unfold frame_but_masks in HR. tauto.
Qed.

Lemma fetch_stops_at_first_failure_witness :
  value (fetch_series Sample.p1 ["adc"; "mask"; "dwi"] ".nii.gz" no_kwargs
           (Sample.at_start Sample.tree_two_masks)) =
  Raise (AttributeError "write_warning") /\
  cls_images (after (fetch_series Sample.p1 ["adc"; "mask"; "dwi"] ".nii.gz"
                       no_kwargs (Sample.at_start Sample.tree_two_masks))) =
  [("adc", [Some (mkSeries "adc" (PathStr "/data/p1/ADC/adc.nii.gz"))])].
Proof.
  destruct (fetch_stops_at_first_failure Sample.p1 ["adc"] "mask" ["dwi"]
              ".nii.gz" no_kwargs (Sample.at_start Sample.tree_two_masks)
              (AttributeError "write_warning")) as [H _].
  destruct H as (Hv & Hi & _).
  - intros k' [<-|[]]. eexists. vm_compute. reflexivity.
  - vm_compute. reflexivity.
  - split; [exact Hv|]. simpl app in Hi. rewrite Hi. vm_compute.
    reflexivity.
Defined.

Lemma set_present_same {V} (d : Dict.t V) k v :
  Dict.get k d = Some v -> Dict.set k v d = d.
Proof.
  induction d as [|[k0 v0] d IH]; simpl; [discriminate|].
  destruct (String.eqb k k0) eqn:E.
  - apply String.eqb_eq in E. subst k0. intros H. now injection H as ->.
  - intros H. now rewrite IH.
Qed.

Lemma assign_all_fixed {V} (f : string -> V) ks d :
  (forall k, In k ks -> Dict.get k d = Some (f k)) -> assign_all f ks d = d.
Proof.
  unfold assign_all. induction ks as [|k ks IH]; intros H; simpl;
    [reflexivity|].
  rewrite set_present_same by (apply H; now left).
  apply IH. intros k' Hk'. apply H. now right.
Qed.

Lemma assign_all_twice {V} (f : string -> V) ks d :
  assign_all f ks (assign_all f ks d) = assign_all f ks d.
Proof.
  apply assign_all_fixed. intros k Hk. now apply get_assign_all_in.
Qed.

Lemma fetch_all_total self ks mc sc w :
  (forall k, In k ks ->
     exists v, value (_fetch_single_mask self k default_extension mc w)
               = Ok v) ->
  (forall k, In k ks ->
     exists v, value (_fetch_single_series self k default_extension sc w)
               = Ok v) ->
  exists r w', fetch_all self ks mc sc w = (Ok r, w').
Proof.
  intros Hm Hs. unfold fetch_all.
  destruct (fetch_masks_total self ks default_extension mc w Hm)
    as (w1 & H1).
  pose proof (fetch_masks_ok _ _ _ _ _ _ _ H1)
    as (_ & _ & _ & _ & Hfs & _).
  destruct (fetch_series_total self ks default_extension sc w1)
    as (w2 & H2).
  { intros k Hk. destruct (Hs k Hk) as [v Hv]. exists v.
    rewrite <- Hv. apply reader_value;
      [apply reader_fetch_single_series | exact Hfs]. }
  erewrite bind_ok by exact H1. erewrite bind_ok by exact H2.
  eexists. eexists. reflexivity.
Qed.

(** X12.  Discovery replaces, it does not append: when [fetch_all]
    succeeds, running it again with the same kinds and configuration on
    the world it left succeeds too and leaves both indices exactly as the
    first run left them. *)
Theorem fetch_all_twice self ks mc sc w r w1 :
  fetch_all self ks mc sc w = (Ok r, w1) ->
  exists r2 w2,
    fetch_all self ks mc sc w1 = (Ok r2, w2) /\
    cls_images w2 = cls_images w1 /\ cls_masks w2 = cls_masks w1.
Proof.
  intros Hrun.
  pose proof (fetch_all_ok _ _ _ _ _ _ _ Hrun)
    as (_ & Hm & Hs & Hmget & Hsget & _ & Hfs & _).
  assert (forall k,
            discovered (_fetch_single_mask self k default_extension mc) w1 []
            = discovered (_fetch_single_mask self k default_extension mc) w [])
    as Dm
    by (intros k; apply discovered_fs;
        [apply reader_fetch_single_mask | exact Hfs]).
  assert (forall k,
            discovered (_fetch_single_series self k default_extension sc)
              w1 []
            = discovered (_fetch_single_series self k default_extension sc)
                w [])
    as Ds
    by (intros k; apply discovered_fs;
        [apply reader_fetch_single_series | exact Hfs]).
  destruct (fetch_all_total self ks mc sc w1) as (r2 & w2 & Hrun2).
  - intros k Hk. eexists. rewrite <- (Hm k Hk).
    apply reader_value; [apply reader_fetch_single_mask | exact Hfs].
  - intros k Hk. eexists. rewrite <- (Hs k Hk).
    apply reader_value; [apply reader_fetch_single_series | exact Hfs].
  - exists r2, w2. split; [exact Hrun2|].
    pose proof (fetch_all_ok _ _ _ _ _ _ _ Hrun2)
      as (_ & _ & _ & Hmget2 & Hsget2 & _).
    rewrite Hsget2, Hmget2.
    rewrite (assign_all_ext _ _ ks (cls_images w1) Ds).
    rewrite (assign_all_ext _ _ ks (cls_masks w1) Dm).
    rewrite Hsget, Hmget. split; apply assign_all_twice.
Qed.

Lemma fetch_all_twice_witness :
  exists r2 w2,
    fetch_all Sample.p1 series_to_fetch mask_config series_config
      (after (fetch_all Sample.p1 series_to_fetch mask_config series_config
                (Sample.at_start Sample.tree))) = (Ok r2, w2) /\
    cls_images w2 =
    cls_images (after (fetch_all Sample.p1 series_to_fetch mask_config
                         series_config (Sample.at_start Sample.tree))).
Proof.
  destruct (fetch_all Sample.p1 series_to_fetch mask_config series_config
              (Sample.at_start Sample.tree)) as [[r|e] w1] eqn:E;
    [|vm_compute in E; discriminate].
  destruct (fetch_all_twice _ _ _ _ _ _ _ E) as (r2 & w2 & H2 & Hi & _).
  exists r2, w2. split; [exact H2 | exact Hi].
Defined.

(** ** Queries on a patient without masks folder *)



(** ** Loops as folds over one list *)

Lemma foldM_ext {A S} (body1 body2 : S -> A -> M S) l :
  (forall s x w, In x l -> body1 s x w = body2 s x w) ->
  forall acc w, foldM body1 l acc w = foldM body2 l acc w.
Proof.
  induction l as [|x l IHl]; intros H acc w; simpl; [reflexivity|].
  unfold bind. rewrite (H acc x w (or_introl eq_refl)).
  destruct (body2 acc x w) as [[s|e] w1]; [|reflexivity].
  apply IHl. intros s0 y w0 Hy. apply H. now right.
Qed.

Lemma bind_assoc {A B C} (m : M A) (f : A -> M B) (g : B -> M C) w :
  bind (bind m f) g w = bind m (fun a => bind (f a) g) w.
Proof. unfold bind. now destruct (m w) as [[a|e] w1]. Qed.

Lemma bind_ext {A B} (m : M A) (k1 k2 : A -> M B) w :
  (forall a w', k1 a w' = k2 a w') -> bind m k1 w = bind m k2 w.
Proof.
  intros H. unfold bind. destruct (m w) as [[a|e] w1];
    [apply H | reflexivity].
Qed.

Lemma foldM_app {A S} (body : S -> A -> M S) l1 l2 acc w :
  foldM body (l1 ++ l2) acc w =
  bind (foldM body l1 acc) (fun a => foldM body l2 a) w.
Proof.
  revert acc w. induction l1 as [|x l1 IH]; intros acc w; simpl;
    [reflexivity|].
  rewrite bind_assoc. apply bind_ext. intros a w'. apply IH.
Qed.

Lemma foldM_concat {A S} (body : S -> A -> M S) ls acc w :
  foldM (fun a l => foldM body l a) ls acc w = foldM body (concat ls) acc w.
Proof.
  revert acc w. induction ls as [|l ls IH]; intros acc w; simpl;
    [reflexivity|].
  rewrite foldM_app. apply bind_ext. intros a w'. apply IH.
Qed.

Lemma foldM_map {A B S} (f : A -> B) (body : S -> B -> M S) l acc w :
  foldM (fun a x => body a (f x)) l acc w = foldM body (map f l) acc w.
Proof.
  revert acc w. induction l as [|x l IH]; intros acc w; simpl;
    [reflexivity|].
  apply bind_ext. intros a w'. apply IH.
Qed.

Lemma foldM_somes {A S} (body : S -> A -> M S) l acc w :
  foldM (fun a o => match o with Some x => body a x | None => ret a end)
    l acc w =
  foldM body (somes l) acc w.
Proof.
  revert acc w. induction l as [|[x|] l IH]; intros acc w; simpl;
    [reflexivity| |].
  - apply bind_ext. intros a w'. apply IH.
  - rewrite bind_ret. apply IH.
Qed.

(** ** Counting into a dictionary *)

Lemma incr_item_tabulate (g : string -> nat) ks k w :
  NoDup ks -> In k ks ->
  incr_item (Dict.tabulate g ks) k w =
  (Ok (Dict.tabulate (Dict.override g k (g k + 1)) ks), w).
Proof.
  intros Hnd Hin. unfold incr_item, getitem.
  rewrite DictFacts.get_tabulate by exact Hin.
  unfold bind, ret. now rewrite DictFacts.set_tabulate.
Qed.

Lemma incr_item_missing (g : string -> nat) ks k w :
  ~ In k ks ->
  incr_item (Dict.tabulate g ks) k w = (Raise (KeyError k), w).
Proof.
  intros Hin. unfold incr_item, getitem.
  destruct (Dict.get k (Dict.tabulate g ks)) as [v|] eqn:E; [|reflexivity].
  apply get_tabulate_inv in E. tauto.
Qed.

Lemma occurrences_cons k t ts :
  occurrences k (t :: ts) =
  (if String.eqb k t then 1 else 0) + occurrences k ts.
Proof. unfold occurrences; simpl. now destruct (String.eqb k t). Qed.

Lemma occurrences_app k l1 l2 :
  occurrences k (l1 ++ l2) = occurrences k l1 + occurrences k l2.
Proof. unfold occurrences. now rewrite filter_app, length_app. Qed.

(** Incrementing the counter of each key of a list, all of them keys of
    the dictionary, adds to every counter the occurrences of its key. *)
Lemma count_loop ks ts : NoDup ks -> (forall t, In t ts -> In t ks) ->
  forall g w,
    foldM incr_item ts (Dict.tabulate g ks) w =
    (Ok (Dict.tabulate (fun k => g k + occurrences k ts) ks), w).
Proof.
  intros Hnd. induction ts as [|t ts IH]; intros Hin g w; simpl.
  - unfold ret. do 2 f_equal. apply DictFacts.tabulate_ext.
    intros k _. unfold occurrences; simpl. lia.
  - erewrite bind_ok
      by (apply incr_item_tabulate; [exact Hnd | apply Hin; now left]).
    rewrite IH by (intros t' Ht'; apply Hin; now right).
    do 2 f_equal. apply DictFacts.tabulate_ext. intros k _.
    rewrite occurrences_cons. unfold Dict.override.
    destruct (String.eqb k t) eqn:E.
    + apply String.eqb_eq in E. subst k. lia.
    + lia.
Qed.

(** The first key that the dictionary lacks ends the loop. *)
Lemma count_loop_missing ks ts1 t ts2 : NoDup ks ->
  (forall t', In t' ts1 -> In t' ks) -> ~ In t ks ->
  forall g w,
    foldM incr_item (ts1 ++ t :: ts2) (Dict.tabulate g ks) w =
    (Raise (KeyError t), w).
Proof.
  intros Hnd H1 Ht g w. rewrite foldM_app.
  erewrite bind_ok by (apply count_loop; assumption).
  simpl. erewrite bind_raise by (apply incr_item_missing; exact Ht).
  reflexivity.
Qed.

(** Groups of keys, every group under a key of its own and holding
    only that key: counting all of them gives each group's size. *)
Lemma grouped_counts (groups : list (string * list string)) :
  NoDup (map fst groups) ->
  (forall k ts t, In (k, ts) groups -> In t ts -> t = k) ->
  Dict.tabulate (fun k => 0 + occurrences k (concat (map snd groups)))
    (map fst groups) =
  map (fun g => (fst g, length (snd g))) groups.
Proof.
  induction groups as [|[k0 ts0] groups IH]; intros Hnd Hown;
    [reflexivity|].
  simpl in Hnd. inversion Hnd as [|? ? Hfresh Hnd']; subst.
  assert (occurrences k0 ts0 = length ts0) as Hsame.
  { assert (forall t, In t ts0 -> t = k0) as H0
      by (intros t Ht; eapply Hown; [now left | exact Ht]).
    clear -H0. unfold occurrences.
    induction ts0 as [|t ts0 IH0]; simpl; [reflexivity|].
    rewrite (H0 t (or_introl eq_refl)), String.eqb_refl. simpl.
    f_equal. apply IH0. intros t' Ht'. apply H0. now right. }
  assert (forall k, k <> k0 -> occurrences k ts0 = 0) as Hother.
  { intros k Hk.
    assert (forall t, In t ts0 -> t = k0) as H0
      by (intros t Ht; eapply Hown; [now left | exact Ht]).
    clear -H0 Hk. unfold occurrences.
    induction ts0 as [|t ts0 IH0]; simpl; [reflexivity|].
    rewrite (H0 t (or_introl eq_refl)).
    destruct (String.eqb k k0) eqn:E;
      [apply String.eqb_eq in E; contradiction|].
    apply IH0. intros t' Ht'. apply H0. now right. }
  assert (occurrences k0 (concat (map snd groups)) = 0) as Hrest.
  { assert (forall k ts, In (k, ts) groups -> k <> k0) as Hne.
    { intros k ts Hin ->. apply Hfresh.
      apply in_map_iff. now exists (k0, ts). }
    assert (forall k ts t, In (k, ts) groups -> In t ts -> t = k) as Hown'
      by (intros k ts t Hin; apply Hown; now right).
    clear -Hne Hown'. induction groups as [|[k ts] groups IHg];
      [reflexivity|].
    simpl. rewrite occurrences_app.
    rewrite IHg; [|intros k' ts' Hin; apply (Hne k' ts'); now right
                  |intros k' ts' t Hin; apply (Hown' k' ts' t); now right].
    assert (k <> k0) as Hk by (apply (Hne k ts); now left).
    assert (forall t, In t ts -> t = k) as H0
      by (intros t Ht; apply (Hown' k ts t); [now left | exact Ht]).
    clear -Hk H0. unfold occurrences.
    induction ts as [|t ts IH0]; simpl; [reflexivity|].
    rewrite (H0 t (or_introl eq_refl)).
    destruct (String.eqb k0 k) eqn:E;
      [apply String.eqb_eq in E; now subst|].
    rewrite IH0; [reflexivity | intros t' Ht'; apply H0; now right]. }
  simpl. rewrite occurrences_app, Hsame, Hrest. f_equal; [f_equal; lia|].
  rewrite <- IH; [|exact Hnd' | intros k ts t Hin; apply Hown; now right].
  apply DictFacts.tabulate_ext. intros k Hk.
  rewrite occurrences_app, Hother; [reflexivity|].
  intros ->. contradiction.
Qed.

(** ** The series index stays well formed *)

Lemma in_set_inv {V} (d : Dict.t V) k v k' v' :
  In (k', v') (Dict.set k v d) -> (k' = k /\ v' = v) \/ In (k', v') d.
Proof.
  induction d as [|[k0 v0] d IH]; simpl.
  - intros [H|[]]. injection H as <- <-. now left.
  - destruct (String.eqb k k0) eqn:E; simpl.
    + intros [H|H]; [injection H as <- <-; now left | right; now right].
    + intros [H|H]; [right; now left|].
      destruct (IH H) as [Hl|Hr]; [now left | right; now right].
Qed.

Lemma keys_set_absent {V} (d : Dict.t V) k v :
  ~ In k (Dict.keys d) -> Dict.keys (Dict.set k v d) = Dict.keys d ++ [k].
Proof.
  induction d as [|[k0 v0] d IH]; simpl; [reflexivity|].
  intros H. destruct (String.eqb k k0) eqn:E.
  - apply String.eqb_eq in E. subst k0. exfalso. apply H. now left.
  - simpl. f_equal. apply IH. intros Hin. apply H. now right.
Qed.

Lemma NoDup_keys_set {V} (d : Dict.t V) k v :
  NoDup (Dict.keys d) -> NoDup (Dict.keys (Dict.set k v d)).
Proof.
  intros Hnd. destruct (in_dec string_dec k (Dict.keys d)) as [Hin|Hout].
  - now rewrite DictFacts.keys_set_present.
  - rewrite keys_set_absent by exact Hout.
    apply NoDup_app; [exact Hnd | repeat constructor; intros [] |].
    intros x Hx [<-|[]]. contradiction.
Qed.

Lemma images_wf_empty : images_wf [].
Proof. split; [constructor | intros k l s []]. Qed.

Lemma images_wf_set d k v :
  images_wf d -> (forall s, In (Some s) v -> series_type s = k) ->
  images_wf (Dict.set k v d).
Proof.
  intros [Hnd Hty] Hv. split; [now apply NoDup_keys_set|].
  intros k' l s Hin Hs. apply in_set_inv in Hin as [[-> ->]|Hin];
    [now apply Hv | eapply Hty; eassumption].
Qed.

Lemma images_wf_assign_all f ks d :
  images_wf d ->
  (forall k s, In k ks -> In (Some s) (f k) -> series_type s = k) ->
  images_wf (assign_all f ks d).
Proof.
  unfold assign_all. revert d. induction ks as [|k ks IH]; intros d Hd Hf;
    simpl; [exact Hd|].
  apply IH.
  - apply images_wf_set; [exact Hd|]. intros s. apply Hf. now left.
  - intros k' s Hk'. apply Hf. now right.
Qed.

Lemma fetch_single_series_typed self kind ext kw w items s :
  value (_fetch_single_series self kind ext kw w) = Ok items ->
  In (Some s) items -> series_type s = kind.
Proof.
  intros Hv Hin.
  pose proof (run_eta (_fetch_single_series self kind ext kw w)) as Hrun.
  rewrite Hv in Hrun. unfold _fetch_single_series in Hrun.
  apply bind_ok_inv in Hrun as (entries & w1 & _ & Hrun).
  apply bind_ok_inv in Hrun as (u1 & w2 & _ & Hrun).
  apply bind_ok_inv in Hrun as (u2 & w3 & _ & Hrun).
  apply bind_ok_inv in Hrun as (file_list & w4 & _ & Hrun).
  apply bind_ok_inv in Hrun as (u3 & w5 & _ & Hret).
  injection Hret as <- _.
  apply in_map_iff in Hin as (p & Hp & _).
  destruct p as [|c p]; simpl in Hp; [discriminate|].
  injection Hp as <-. reflexivity.
Qed.

Lemma discovered_series_typed self kind ext kw w s :
  In (Some s) (discovered (_fetch_single_series self kind ext kw) w []) ->
  series_type s = kind.
Proof.
  unfold discovered.
  destruct (value (_fetch_single_series self kind ext kw w)) as [items|e]
    eqn:E; [|intros []].
  eapply fetch_single_series_typed. exact E.
Qed.

Lemma somes_app {A} (l1 l2 : list (option A)) :
  somes (l1 ++ l2) = somes l1 ++ somes l2.
Proof.
  induction l1 as [|[x|] l1 IH]; simpl; [reflexivity | now rewrite IH
                                        | exact IH].
Qed.

Lemma in_somes {A} (l : list (option A)) x : In x (somes l) <-> In (Some x) l.
Proof.
  induction l as [|[y|] l IH]; simpl; [tauto| |].
  - rewrite IH. split; intros [H|H]; try (now right).
    + left. now subst.
    + left. now injection H.
  - rewrite IH. split; [now right | intros [H|H]; [discriminate | exact H]].
Qed.

(** The counting loop of [count_series_per_type] on a well-formed
    index. *)
Lemma count_series_loop images w :
  images_wf images ->
  foldM (fun count series_list =>
           foldM (fun count series =>
                    match series with
                    | Some series => incr_item count (get_type series)
                    | None => ret count
                    end) series_list count)
    (Dict.values images) (Dict.from_keys (Dict.keys images) 0) w =
  (Ok (map (fun kv => (fst kv, present (snd kv))) images), w).
Proof.
  intros [Hnd Hty].
  rewrite (foldM_concat
             (fun count series =>
                match series with
                | Some series => incr_item count (get_type series)
                | None => ret count
                end)).
  rewrite (foldM_somes (fun a s => incr_item a (get_type s))).
  rewrite (foldM_map get_type incr_item).
  rewrite DictFacts.from_keys_tabulate by exact Hnd.
  set (groups := map (fun kv : string * list (option Series) =>
                        (fst kv, map get_type (somes (snd kv)))) images).
  assert (map fst groups = Dict.keys images) as Hk
    by (unfold groups, Dict.keys; rewrite map_map; reflexivity).
  assert (concat (map snd groups) =
          map get_type (somes (concat (Dict.values images)))) as Hc.
  { unfold groups, Dict.values. clear.
    induction images as [|[k l] images IH]; simpl; [reflexivity|].
    now rewrite somes_app, map_app, IH. }
  assert (forall k ts t, In (k, ts) groups -> In t ts -> t = k) as Hown.
  { intros k ts t Hin Ht. unfold groups in Hin.
    apply in_map_iff in Hin as ([k' l] & E & Hkl). simpl in E.
    injection E as <- <-.
    apply in_map_iff in Ht as (s & <- & Hs).
    apply in_somes in Hs. eapply Hty; eassumption. }
  rewrite count_loop.
  - rewrite <- Hc, <- Hk. rewrite grouped_counts;
      [|rewrite Hk; exact Hnd | exact Hown].
    unfold groups. rewrite map_map. do 2 f_equal.
    apply map_ext. intros [k l]. simpl. unfold present.
    now rewrite length_map.
  - exact Hnd.
  - intros t Ht. rewrite <- Hc in Ht. apply in_concat in Ht as (ts & Hts & Ht).
    apply in_map_iff in Hts as ([k ts'] & E & Hg). simpl in E. subst ts'.
    rewrite (Hown k ts t Hg Ht). rewrite <- Hk.
    apply in_map_iff. now exists (k, ts).
Qed.

Lemma get_map_values {V W} (f : V -> W) (d : Dict.t V) k :
  Dict.get k (map (fun kv => (fst kv, f (snd kv))) d) =
  option_map f (Dict.get k d).
Proof.
  induction d as [|[k0 v0] d IH]; simpl; [reflexivity|].
  destruct (String.eqb k k0); [reflexivity | exact IH].
Qed.

(** X14.  On a series index that holds no kind twice and under each
    kind only entries of that kind (as the empty index does, and as
    discovery keeps it), a count of series by type whose discovery
    succeeds answers, for every kind of the index in index order, the
    number of entries under that kind that are not [None]; it never ends
    with [KeyError].  For a default kind this is the number of entries
    the new discovery returned, and the index it leaves is again well
    formed. *)
Theorem count_series_per_type_counts self w r w1 :
  images_wf (cls_images w) ->
  fetch_all self series_to_fetch mask_config series_config w = (Ok r, w1) ->
  images_wf (cls_images w1) /\
  count_series_per_type self w =
  (Ok (map (fun kv => (fst kv, present (snd kv))) (cls_images w1)), w1) /\
  (forall kind, In kind series_to_fetch ->
     Dict.get kind
       (map (fun kv => (fst kv, present (snd kv))) (cls_images w1)) =
     Some (present
             (discovered (_fetch_single_series self kind default_extension
                            series_config) w []))) /\
  (forall kind, ~ In kind series_to_fetch ->
     Dict.get kind
       (map (fun kv => (fst kv, present (snd kv))) (cls_images w1)) =
     option_map present (Dict.get kind (cls_images w))).
Proof.
  intros Hwf Hrun.
  pose proof (fetch_all_ok _ _ _ _ _ _ _ Hrun)
    as (_ & _ & _ & _ & Hsget & _).
  assert (images_wf (cls_images w1)) as Hwf1.
  { rewrite Hsget. apply images_wf_assign_all; [exact Hwf|].
    intros k s _. apply discovered_series_typed. }
  split; [exact Hwf1|]. split; [|split].
  - unfold count_series_per_type. erewrite bind_ok by exact Hrun.
    unfold bind at 1. unfold self_images at 1.
    now apply count_series_loop.
  - intros kind Hk. rewrite get_map_values, Hsget.
    now rewrite get_assign_all_in.
  - intros kind Hk. rewrite get_map_values, Hsget.
    now rewrite get_assign_all_notin.
Qed.

Lemma count_series_per_type_counts_witness :
  images_wf (cls_images (Sample.at_start Sample.tree)) /\
  value (count_series_per_type Sample.p1 (Sample.at_start Sample.tree)) =
  Ok [("adc", 1); ("dwi", 0)].
Proof.
  split; [apply images_wf_empty|].
  destruct (fetch_all Sample.p1 series_to_fetch mask_config series_config
              (Sample.at_start Sample.tree)) as [[r|e] w1] eqn:E;
    [|vm_compute in E; discriminate].
  destruct (count_series_per_type_counts Sample.p1
              (Sample.at_start Sample.tree) r w1 images_wf_empty E)
    as (_ & -> & _).
  replace w1
    with (after (fetch_all Sample.p1 series_to_fetch mask_config
                   series_config (Sample.at_start Sample.tree)))
    by (now rewrite E).
  vm_compute. reflexivity.
Defined.

(** ** Walking the mask index *)

Lemma all_masks_items d : all_masks d = somes (mask_items d).
Proof. reflexivity. Qed.

(** The three nested loops of the mask queries visit the items of the
    index one after the other. *)
Lemma mask_walk_values {S} (body : S -> option Mask -> M S)
    (masks : masks_index) acc w :
  foldM (fun acc mask_per_doctor =>
           foldM (fun acc mask_list => foldM body mask_list acc)
             (Dict.values mask_per_doctor) acc)
    (Dict.values masks) acc w =
  foldM body (mask_items masks) acc w.
Proof.
  unfold mask_items. rewrite flat_map_concat_map.
  rewrite <- (foldM_concat body).
  rewrite <- (foldM_map
                (fun doctor_dict : doctor_index =>
                   concat (Dict.values doctor_dict))
                (fun a l => foldM body l a)).
  apply foldM_ext. intros s doctor_dict w0 _.
  now rewrite <- (foldM_concat body).
Qed.

Lemma mask_walk {S} (body : S -> option Mask -> M S) (masks : masks_index)
    acc w :
  foldM (fun acc item =>
           let '(_, doctor_dict) := (item : string * doctor_index) in
           foldM (fun acc item' =>
                    let '(_, mask_list) :=
                      (item' : string * list (option Mask)) in
                    foldM body mask_list acc)
             doctor_dict acc)
    masks acc w =
  foldM body (mask_items masks) acc w.
Proof.
  rewrite <- mask_walk_values. unfold Dict.values at 2.
  rewrite <- (foldM_map (@snd string doctor_index)
                (fun a mask_per_doctor =>
                   foldM (fun a0 mask_list => foldM body mask_list a0)
                     (Dict.values mask_per_doctor) a)).
  apply foldM_ext. intros s [k doctor_dict] w0 _. simpl.
  unfold Dict.values.
  rewrite <- (foldM_map (@snd string (list (option Mask)))
                (fun a mask_list => foldM body mask_list a)).
  apply foldM_ext. intros s0 [doc l] w1 _. reflexivity.
Qed.

Lemma foldM_collect {A} (l : list A) acc w :
  foldM (fun result x => ret (result ++ [x])) l acc w = (Ok (acc ++ l), w).
Proof.
  revert acc. induction l as [|x l IH]; intros acc; simpl.
  - now rewrite app_nil_r.
  - rewrite bind_ret, IH, <- app_assoc. reflexivity.
Qed.

(** X15.  When its discovery succeeds, [get_mask_list] returns every
    mask of the index the discovery leaves, kind after kind and doctor
    after doctor in index order, without the [None] items, and leaves
    the world the discovery left. *)
Theorem get_mask_list_lists_all self w r w1 :
  fetch_all self series_to_fetch mask_config series_config w = (Ok r, w1) ->
  get_mask_list self w = (Ok (all_masks (cls_masks w1)), w1) /\
  forall m,
    In m (all_masks (cls_masks w1)) <->
    exists kind doctor_dict doc l,
      In (kind, doctor_dict) (cls_masks w1) /\ In (doc, l) doctor_dict /\
      In (Some m) l.
Proof.
  intros Hrun. split.
  - unfold get_mask_list. erewrite bind_ok by exact Hrun.
    unfold bind at 1. unfold self_masks at 1.
    rewrite (mask_walk_values
               (fun result mask =>
                  match mask with
                  | Some mask => ret (result ++ [mask])
                  | None => ret result
                  end)).
    rewrite (foldM_somes (fun result m => ret (result ++ [m]))).
    now rewrite foldM_collect.
  - intros m. rewrite all_masks_items, in_somes. unfold mask_items.
    rewrite in_flat_map. split.
    + intros (doctor_dict & Hdd & Hin).
      apply in_map_iff in Hdd as ([kind dd] & E & Hk). simpl in E. subst dd.
      apply in_concat in Hin as (l & Hl & Hm).
      apply in_map_iff in Hl as ([doc l'] & E & Hd). simpl in E. subst l'.
      now exists kind, doctor_dict, doc, l.
    + intros (kind & doctor_dict & doc & l & Hk & Hd & Hm).
      exists doctor_dict. split.
      * apply in_map_iff. now exists (kind, doctor_dict).
      * apply in_concat. exists l. split; [|exact Hm].
        apply in_map_iff. now exists (doc, l).
Qed.

Lemma get_mask_list_lists_all_witness :
  value (get_mask_list Sample.p1 (Sample.at_start Sample.tree)) =
  Ok [mkMask (mkSeries "adc"
                (PathList ["/data/p1/MASKS/doctorA/adc.nii.gz"]))
        (Some "doctorA")].
Proof.
  destruct (fetch_all Sample.p1 series_to_fetch mask_config series_config
              (Sample.at_start Sample.tree)) as [[r|e] w1] eqn:E;
    [|vm_compute in E; discriminate].
  destruct (get_mask_list_lists_all Sample.p1
              (Sample.at_start Sample.tree) r w1 E) as [-> _].
  replace w1
    with (after (fetch_all Sample.p1 series_to_fetch mask_config
                   series_config (Sample.at_start Sample.tree)))
    by (now rewrite E).
  vm_compute. reflexivity.
Defined.

(** ** The mask index stays well formed *)

Lemma get_in {V} (d : Dict.t V) k v : Dict.get k d = Some v -> In (k, v) d.
Proof.
  induction d as [|[k0 v0] d IH]; simpl; [discriminate|].
  destruct (String.eqb k k0) eqn:E.
  - apply String.eqb_eq in E. subst k0. intros H. injection H as ->.
    now left.
  - intros H. right. now apply IH.
Qed.

Lemma from_keys_values {V} ks (v0 : V) k l :
  In (k, l) (Dict.from_keys ks v0) -> l = v0.
Proof.
  unfold Dict.from_keys.
  enough (forall d0, (forall k' l', In (k', l') d0 -> l' = v0) ->
            In (k, l) (fold_left (fun d k0 => Dict.set k0 v0 d) ks d0) ->
            l = v0) as H by (apply H; intros k' l' []).
  induction ks as [|k0 ks IH]; intros d0 Hd0; simpl; [apply Hd0|].
  apply IH. intros k' l' Hin.
  apply in_set_inv in Hin as [[_ ->]|Hin]; [reflexivity | eapply Hd0; eauto].
Qed.

Lemma fetch_single_mask_typed self kind ext kw w index doc l m :
  value (_fetch_single_mask self kind ext kw w) = Ok index ->
  In (doc, l) index -> In (Some m) l ->
  series_type (mask_base m) = kind /\ doctor m = Some doc.
Proof.
  intros Hv.
  pose proof (run_eta (_fetch_single_mask self kind ext kw w)) as Hrun.
  rewrite Hv in Hrun. unfold _fetch_single_mask in Hrun.
  apply bind_ok_inv in Hrun as (entries & w1 & _ & Hrun).
  apply bind_ok_inv in Hrun as (u1 & w2 & _ & Hrun).
  apply bind_ok_inv in Hrun as (first & w3 & _ & Hrun).
  apply bind_ok_inv in Hrun as (sub & w4 & _ & Hrun).
  apply bind_ok_inv in Hrun as (doctors & w5 & _ & Hrun).
  apply bind_ok_inv in Hrun as (file_dict & w6 & _ & Hrun).
  apply bind_ok_inv in Hrun as (u2 & w7 & _ & Hrun).
  apply bind_ok_inv in Hrun as (masks_dict & w8 & Hloop & Hret).
  injection Hret as <- _.
  revert doc l m. revert Hloop.
  apply (foldM_invariant
           (fun md : doctor_index =>
              forall doc l m, In (doc, l) md -> In (Some m) l ->
                series_type (mask_base m) = kind /\ doctor m = Some doc)).
  - intros md [doc0 path0] w0 md' w0' Hmd _ Hbody doc l m Hin Hm.
    unfold extend_item in Hbody.
    apply bind_ok_inv in Hbody as (cur & wa & Hcur & Hret).
    injection Hret as <- _.
    unfold getitem in Hcur.
    destruct (Dict.get doc0 md) as [cur'|] eqn:Eg; [|discriminate].
    injection Hcur as -> _.
    apply in_set_inv in Hin as [[-> ->]|Hin]; [|eapply Hmd; eassumption].
    apply in_app_or in Hm as [Hm|[Hm|[]]].
    + eapply Hmd; [apply get_in; exact Eg | exact Hm].
    + unfold _create_mask in Hm.
      destruct path0 as [|p0 ps]; simpl in Hm; [discriminate|].
      injection Hm as <-. now split.
  - intros doc l m Hin Hm. apply from_keys_values in Hin. subst l.
    destruct Hm.
Qed.

Lemma discovered_masks_typed self kind ext kw w doc l m :
  In (doc, l) (discovered (_fetch_single_mask self kind ext kw) w []) ->
  In (Some m) l ->
  series_type (mask_base m) = kind /\ doctor m = Some doc.
Proof.
  unfold discovered.
  destruct (value (_fetch_single_mask self kind ext kw w)) as [index|e]
    eqn:E; [|intros []].
  eapply fetch_single_mask_typed. exact E.
Qed.

Lemma masks_wf_empty : masks_wf [].
Proof. split; [constructor | intros k dd doc l m []]. Qed.

Lemma masks_wf_assign_all f ks d :
  masks_wf d ->
  (forall k doc l m, In k ks -> In (doc, l) (f k) -> In (Some m) l ->
     series_type (mask_base m) = k /\ doctor m = Some doc) ->
  masks_wf (assign_all f ks d).
Proof.
  unfold assign_all. revert d. induction ks as [|k ks IH]; intros d Hd Hf;
    simpl; [exact Hd|].
  apply IH; [|intros k' doc l m Hk'; apply Hf; now right].
  destruct Hd as [Hnd Hty]. split; [now apply NoDup_keys_set|].
  intros k' dd doc l m Hin Hd Hm.
  apply in_set_inv in Hin as [[-> ->]|Hin].
  - eapply Hf; [now left | exact Hd | exact Hm].
  - eapply Hty; eassumption.
Qed.

Lemma fetch_all_keeps_masks_wf self ks mc sc w r w1 :
  masks_wf (cls_masks w) ->
  fetch_all self ks mc sc w = (Ok r, w1) ->
  masks_wf (cls_masks w1).
Proof.
  intros Hwf Hrun.
  pose proof (fetch_all_ok _ _ _ _ _ _ _ Hrun)
    as (_ & _ & _ & Hmget & _).
  rewrite Hmget. apply masks_wf_assign_all; [exact Hwf|].
  intros k doc l m _. apply discovered_masks_typed.
Qed.

Lemma count_masks_per_walk self count_type w r w1 count0 :
  fetch_all self series_to_fetch mask_config series_config w = (Ok r, w1) ->
  (if String.eqb (Str.lower count_type) "series_type" then
     ret (Dict.from_keys (Dict.keys (cls_masks w1)) 0)
   else if String.eqb (Str.lower count_type) "doctor" then
     match Dict.values (cls_masks w1) with
     | [] => raise StopIteration
     | d :: _ => ret (Dict.from_keys (Dict.keys d) 0)
     end
   else raise (Exception "Invalid count_type")) w1 = (Ok count0, w1) ->
  count_masks_per self count_type w =
  foldM (fun count mask =>
           match mask with
           | Some mask =>
               if String.eqb (Str.lower count_type) "series_type" then
                 incr_item count (get_type (mask_base mask))
               else if String.eqb (Str.lower count_type) "doctor" then
                 incr_item count (doctor_key (get_doctor mask))
               else ret count
           | None => ret count
           end) (mask_items (cls_masks w1)) count0 w1.
Proof.
  intros Hrun Hcount. unfold count_masks_per.
  erewrite bind_ok by exact Hrun.
  unfold bind at 1. unfold self_masks at 1.
  erewrite bind_ok by exact Hcount.
  apply (mask_walk
           (fun count mask =>
              match mask with
              | Some mask =>
                  if String.eqb (Str.lower count_type) "series_type" then
                    incr_item count (get_type (mask_base mask))
                  else if String.eqb (Str.lower count_type) "doctor" then
                    incr_item count (doctor_key (get_doctor mask))
                  else ret count
              | None => ret count
              end)).
Qed.

(** ** Counting masks *)

Lemma mask_items_cons k dd (d : masks_index) :
  mask_items ((k, dd) :: d) = concat (Dict.values dd) ++ mask_items d.
Proof. reflexivity. Qed.

Lemma in_mask_items (d : masks_index) item :
  In item (mask_items d) ->
  exists k dd doc l, In (k, dd) d /\ In (doc, l) dd /\ In item l.
Proof.
  unfold mask_items. rewrite in_flat_map.
  intros (dd & Hdd & Hin).
  apply in_map_iff in Hdd as ([k dd'] & E & Hk). simpl in E. subst dd'.
  apply in_concat in Hin as (l & Hl & Hm).
  apply in_map_iff in Hl as ([doc l'] & E & Hd). simpl in E. subst l'.
  now exists k, dd, doc, l.
Qed.

(** X16.  On a mask index that holds no kind twice and under each kind
    only masks of that kind (as the empty index does, and as discovery
    keeps it), the mask count by series type, when its discovery
    succeeds, answers for every kind of the index, in index order, the
    number of masks under that kind over all doctors; it never ends with
    [KeyError], and the counts add up to the number of masks that
    [get_mask_list] lists. *)
Theorem count_masks_per_series_type self count_type w r w1 :
  Str.lower count_type = "series_type" ->
  masks_wf (cls_masks w) ->
  fetch_all self series_to_fetch mask_config series_config w = (Ok r, w1) ->
  masks_wf (cls_masks w1) /\
  count_masks_per self count_type w =
  (Ok (map (fun kd => (fst kd, present (concat (Dict.values (snd kd)))))
         (cls_masks w1)), w1) /\
  list_sum
    (map (fun kd => present (concat (Dict.values (snd kd))))
       (cls_masks w1)) =
  length (all_masks (cls_masks w1)).
Proof.
  intros Hct Hwf Hrun.
  pose proof (fetch_all_keeps_masks_wf _ _ _ _ _ _ _ Hwf Hrun) as Hwf1.
  split; [exact Hwf1|].
  set (M1 := cls_masks w1) in *. destruct Hwf1 as [Hnd Hty]. split.
  - rewrite (count_masks_per_walk self count_type w r w1
               (Dict.from_keys (Dict.keys M1) 0) Hrun)
      by (rewrite Hct; reflexivity).
    rewrite Hct. simpl String.eqb. fold M1.
    rewrite (foldM_somes (fun count m => incr_item count (mask_type m))).
    rewrite (foldM_map mask_type incr_item).
    rewrite DictFacts.from_keys_tabulate by exact Hnd.
    set (groups := map (fun kd : string * doctor_index =>
                          (fst kd,
                           map mask_type
                             (somes (concat (Dict.values (snd kd))))))
                     M1).
    assert (map fst groups = Dict.keys M1) as Hk
      by (unfold groups, Dict.keys; rewrite map_map; reflexivity).
    assert (concat (map snd groups) = map mask_type (somes (mask_items M1)))
      as Hc.
    { unfold groups. clear. induction M1 as [|[k dd] M1 IH];
        [reflexivity|].
      rewrite mask_items_cons, somes_app, map_app. simpl. now rewrite IH. }
    assert (forall k ts t, In (k, ts) groups -> In t ts -> t = k) as Hown.
    { intros k ts t Hin Ht. unfold groups in Hin.
      apply in_map_iff in Hin as ([k' dd] & E & Hkd). simpl in E.
      injection E as <- <-.
      apply in_map_iff in Ht as (m & <- & Hm). apply in_somes in Hm.
      apply in_concat in Hm as (l & Hl & Hm).
      apply in_map_iff in Hl as ([doc l'] & E & Hd). simpl in E. subst l'.
      exact (proj1 (Hty k' dd doc l m Hkd Hd Hm)). }
    rewrite count_loop.
    + rewrite <- Hc, <- Hk. rewrite grouped_counts;
        [|rewrite Hk; exact Hnd | exact Hown].
      unfold groups. rewrite map_map. do 2 f_equal.
      apply map_ext. intros [k dd]. simpl. unfold present.
      now rewrite length_map.
    + exact Hnd.
    + intros t Ht. rewrite <- Hc in Ht.
      apply in_concat in Ht as (ts & Hts & Ht).
      apply in_map_iff in Hts as ([k ts'] & E & Hg). simpl in E. subst ts'.
      rewrite (Hown k ts t Hg Ht). rewrite <- Hk.
      apply in_map_iff. now exists (k, ts).
  - rewrite all_masks_items. clear. induction M1 as [|[k dd] M1 IH];
      [reflexivity|].
    rewrite mask_items_cons, somes_app, length_app. simpl.
    unfold present at 1. now rewrite IH.
Qed.

Lemma count_masks_per_series_type_witness :
  Str.lower "Series_Type" = "series_type" /\
  masks_wf (cls_masks (Sample.at_start Sample.tree)) /\
  value (count_masks_per Sample.p1 "Series_Type"
           (Sample.at_start Sample.tree)) = Ok [("adc", 1); ("dwi", 0)].
Proof.
  split; [reflexivity|]. split; [apply masks_wf_empty|].
  destruct (fetch_all Sample.p1 series_to_fetch mask_config series_config
              (Sample.at_start Sample.tree)) as [[r|e] w1] eqn:E;
    [|vm_compute in E; discriminate].
  destruct (count_masks_per_series_type Sample.p1 "Series_Type"
              (Sample.at_start Sample.tree) r w1 eq_refl masks_wf_empty E)
    as (_ & -> & _).
  replace w1
    with (after (fetch_all Sample.p1 series_to_fetch mask_config
                   series_config (Sample.at_start Sample.tree)))
    by (now rewrite E).
  vm_compute. reflexivity.
Defined.

(** X17.  The mask count by doctor takes its keys from the doctors of
    the first kind of the index.  When its discovery succeeds and those
    doctors are pairwise distinct: if the doctor of every mask of the
    index is among them, the count answers for each of them, in order,
    the number of masks attributed to that doctor over all kinds;
    otherwise it ends with [KeyError] for the doctor of the first mask,
    in walking order, that is not among them. *)
Theorem count_masks_per_doctor self count_type w r w1 first_dict others :
  Str.lower count_type = "doctor" ->
  fetch_all self series_to_fetch mask_config series_config w = (Ok r, w1) ->
  Dict.values (cls_masks w1) = first_dict :: others ->
  NoDup (Dict.keys first_dict) ->
  ((forall m, In m (all_masks (cls_masks w1)) ->
      In (mask_doctor_key m) (Dict.keys first_dict)) ->
   count_masks_per self count_type w =
   (Ok (Dict.tabulate
          (fun doc =>
             occurrences doc
               (map mask_doctor_key (all_masks (cls_masks w1))))
          (Dict.keys first_dict)), w1)) /\
  (forall before m later,
     all_masks (cls_masks w1) = before ++ m :: later ->
     (forall m', In m' before ->
        In (mask_doctor_key m') (Dict.keys first_dict)) ->
     ~ In (mask_doctor_key m) (Dict.keys first_dict) ->
     count_masks_per self count_type w =
     (Raise (KeyError (mask_doctor_key m)), w1)).
Proof.
  intros Hct Hrun Hfirst Hnd.
  assert (count_masks_per self count_type w =
          foldM incr_item (map mask_doctor_key (all_masks (cls_masks w1)))
            (Dict.tabulate (fun _ => 0) (Dict.keys first_dict)) w1) as Hwalk.
  { rewrite (count_masks_per_walk self count_type w r w1
               (Dict.from_keys (Dict.keys first_dict) 0) Hrun)
      by (rewrite Hct, Hfirst; reflexivity).
    rewrite Hct. simpl String.eqb.
    rewrite (foldM_somes
               (fun count m => incr_item count (mask_doctor_key m))).
    rewrite (foldM_map mask_doctor_key incr_item).
    now rewrite DictFacts.from_keys_tabulate by exact Hnd. }
  split.
  - intros Hall. rewrite Hwalk. rewrite count_loop; [reflexivity | exact Hnd|].
    intros t Ht. apply in_map_iff in Ht as (m & <- & Hm). now apply Hall.
  - intros before m later Hsplit Hbefore Hm. rewrite Hwalk, Hsplit.
    rewrite map_app. simpl map.
    apply count_loop_missing; [exact Hnd | | exact Hm].
    intros t Ht. apply in_map_iff in Ht as (m' & <- & Hm').
    now apply Hbefore.
Qed.

Lemma count_masks_per_doctor_witness :
  value (count_masks_per Sample.p1 "Doctor" (Sample.at_start Sample.tree)) =
  Ok [("doctorA", 1)] /\
  value (count_masks_per Sample.p2 "doctor" Sample.after_foreign_masks) =
  Raise (KeyError "doctorB").
Proof.
  split.
  - destruct (fetch_all Sample.p1 series_to_fetch mask_config series_config
                (Sample.at_start Sample.tree)) as [[r|e] w1] eqn:E;
      [|vm_compute in E; discriminate].
    assert (w1 = after (fetch_all Sample.p1 series_to_fetch mask_config
                          series_config (Sample.at_start Sample.tree)))
      as Hw by (now rewrite E).
    edestruct (count_masks_per_doctor Sample.p1 "Doctor"
                 (Sample.at_start Sample.tree) r w1) as [Hok _];
      [reflexivity | exact E
      | rewrite Hw; vm_compute; reflexivity
      | repeat constructor; simpl; intuition discriminate |].
    rewrite Hok.
    + rewrite Hw. vm_compute. reflexivity.
    + rewrite Hw. vm_compute. intros m [<-|[]]. now left.
  - destruct (fetch_all Sample.p2 series_to_fetch mask_config series_config
                Sample.after_foreign_masks) as [[r|e] w1] eqn:E;
      [|vm_compute in E; discriminate].
    assert (w1 = after (fetch_all Sample.p2 series_to_fetch mask_config
                          series_config Sample.after_foreign_masks))
      as Hw by (now rewrite E).
    edestruct (count_masks_per_doctor Sample.p2 "doctor"
                 Sample.after_foreign_masks r w1) as [_ Hbad];
      [reflexivity | exact E
      | rewrite Hw; vm_compute; reflexivity
      | repeat constructor; simpl; intuition discriminate |].
    rewrite (Hbad
               [mkMask
                  (mkSeries "t1"
                     (PathList ["/data/p1/MASKS/doctorA/adc.nii.gz";
                                "/data/p1/MASKS/doctorA/adc_v2.nii.gz"]))
                  (Some "doctorA")]
               (mkMask
                  (mkSeries "dwi"
                     (PathList ["/data/p2/MASKS/doctorB/dwi.nii.gz"]))
                  (Some "doctorB"))
               []).
    + reflexivity.
    + rewrite Hw. vm_compute. reflexivity.
    + intros m' [<-|[]]. vm_compute. now left.
    + vm_compute. intros [H|[]]. discriminate.
Defined.

(** ** The overall mask count *)

Lemma get_none_notin {V} (d : Dict.t V) k :
  ~ In k (Dict.keys d) -> Dict.get k d = None.
Proof.
  induction d as [|[k0 v0] d IH]; simpl; [reflexivity|].
  intros H. destruct (String.eqb k k0) eqn:E.
  - apply String.eqb_eq in E. subst k0. exfalso. apply H. now left.
  - apply IH. intros Hin. apply H. now right.
Qed.

Lemma get_merge {V} (a b : Dict.t V) k :
  NoDup (Dict.keys b) ->
  Dict.get k (merge a b) =
  match Dict.get k b with Some v => Some v | None => Dict.get k a end.
Proof.
  unfold merge. revert a. induction b as [|[k0 v0] b IH]; intros a Hnd;
    simpl; [reflexivity|].
  simpl in Hnd. inversion Hnd as [|? ? Hfresh Hnd']; subst.
  rewrite IH by exact Hnd'.
  destruct (String.eqb k k0) eqn:E.
  - apply String.eqb_eq in E. subst k0.
    rewrite get_none_notin by exact Hfresh.
    apply DictFacts.get_set_same.
  - destruct (Dict.get k b); [reflexivity|].
    apply DictFacts.get_set_other. intros ->.
    now rewrite String.eqb_refl in E.
Qed.

(** X18.  [count_masks_overall] runs the count by series type and then,
    in the world that left, the count by doctor, so it discovers twice;
    when both succeed it answers their union, in which a name that is
    both a kind and a doctor carries the doctor's count, every other kind
    its count by type; when the first count fails the second is not
    run. *)
Theorem count_masks_overall_merges self w :
  (forall tc w1 dc w2,
     count_masks_per self "series_type" w = (Ok tc, w1) ->
     count_masks_per self "doctor" w1 = (Ok dc, w2) ->
     NoDup (Dict.keys dc) ->
     count_masks_overall self w = (Ok (merge tc dc), w2) /\
     forall k,
       Dict.get k (merge tc dc) =
       match Dict.get k dc with
       | Some n => Some n
       | None => Dict.get k tc
       end) /\
  (forall e w1,
     count_masks_per self "series_type" w = (Raise e, w1) ->
     count_masks_overall self w = (Raise e, w1)) /\
  (forall tc w1 e w2,
     count_masks_per self "series_type" w = (Ok tc, w1) ->
     count_masks_per self "doctor" w1 = (Raise e, w2) ->
     count_masks_overall self w = (Raise e, w2)).
Proof.
  unfold count_masks_overall. split; [|split].
  - intros tc w1 dc w2 H1 H2 Hnd. split.
    + erewrite bind_ok by exact H1. erewrite bind_ok by exact H2.
      reflexivity.
    + intros k. now apply get_merge.
  - intros e w1 H1. erewrite bind_raise by exact H1. reflexivity.
  - intros tc w1 e w2 H1 H2. erewrite bind_ok by exact H1.
    erewrite bind_raise by exact H2. reflexivity.
Qed.

Lemma count_masks_overall_merges_witness :
  value (count_masks_overall Sample.p1 (Sample.at_start Sample.tree)) =
  Ok [("adc", 1); ("dwi", 0); ("doctorA", 1)].
Proof.
  destruct (count_masks_overall_merges Sample.p1
              (Sample.at_start Sample.tree)) as [H _].
  destruct (count_masks_per Sample.p1 "series_type"
              (Sample.at_start Sample.tree)) as [[tc|e] w1] eqn:E1;
    [|vm_compute in E1; discriminate].
  assert (w1 = after (count_masks_per Sample.p1 "series_type"
                        (Sample.at_start Sample.tree))) as Hw1
    by (now rewrite E1).
  assert (tc = [("adc", 1); ("dwi", 0)]) as Htc.
  { assert (value (count_masks_per Sample.p1 "series_type"
                     (Sample.at_start Sample.tree)) = Ok tc) as Hv
      by (now rewrite E1).
    vm_compute in Hv. now injection Hv. }
  destruct (count_masks_per Sample.p1 "doctor" w1) as [[dc|e] w2] eqn:E2.
  - assert (value (count_masks_per Sample.p1 "doctor" w1) = Ok dc) as Hv
      by (now rewrite E2).
    rewrite Hw1 in Hv. vm_compute in Hv. injection Hv as <-.
    destruct (H tc w1 _ w2 eq_refl E2) as [-> _].
    + repeat constructor; simpl; intuition discriminate.
    + rewrite Htc. reflexivity.
  - assert (value (count_masks_per Sample.p1 "doctor" w1) = Raise e) as Hv
      by (now rewrite E2).
    rewrite Hw1 in Hv. vm_compute in Hv. discriminate.
Defined.

(** ** Series of a kind that is not a default one *)

(** X19.  For a kind outside the default list, [get_series_by_type]
    still runs the default discovery and then answers from the index
    as it was: the entries stored under that kind before the call,
    whichever patient's discovery stored them, and [KeyError] when the
    index had no such key. *)
Theorem get_series_by_type_other_kind self kind w r w1 :
  ~ In kind series_to_fetch ->
  fetch_all self series_to_fetch mask_config series_config w = (Ok r, w1) ->
  get_series_by_type self kind w =
  (match Dict.get kind (cls_images w) with
   | Some entries => Ok entries
   | None => Raise (KeyError kind)
   end, w1).
Proof.
  intros Hk Hrun.
  pose proof (fetch_all_ok _ _ _ _ _ _ _ Hrun)
    as (_ & _ & _ & _ & Hsget & _).
  unfold get_series_by_type. erewrite bind_ok by exact Hrun.
  unfold bind, self_images, getitem. rewrite Hsget.
  rewrite get_assign_all_notin by exact Hk.
  now destruct (Dict.get kind (cls_images w)).
Qed.

Lemma get_series_by_type_other_kind_witness :
  ~ In "t2" series_to_fetch /\
  value (get_series_by_type Sample.p1 "t2" (Sample.at_start Sample.tree)) =
  Raise (KeyError "t2").
Proof.
  assert (~ In "t2" series_to_fetch) as Hk
    by (simpl; intuition discriminate).
  split; [exact Hk|].
  destruct (fetch_all Sample.p1 series_to_fetch mask_config series_config
              (Sample.at_start Sample.tree)) as [[r|e] w1] eqn:E;
    [|vm_compute in E; discriminate].
  now rewrite (get_series_by_type_other_kind Sample.p1 "t2"
                 (Sample.at_start Sample.tree) r w1 Hk E).
Defined.

(** ** The kinds a patient has *)

Lemma series_types_inner (l : list (option Series)) acc w :
  foldM (fun acc series =>
           match series with
           | Some series => ret (acc ++ [get_type series])
           | None => raise (AttributeError "get_type")
           end) l acc w =
  (if forallb (fun o => match o with Some _ => true | None => false end) l
   then Ok (acc ++ map get_type (somes l))
   else Raise (AttributeError "get_type"), w).
Proof.
  revert acc. induction l as [|[s|] l IH]; intros acc; simpl.
  - now rewrite app_nil_r.
  - rewrite bind_ret, IH.
    destruct (forallb _ l); [|reflexivity].
    now rewrite <- app_assoc.
  - reflexivity.
Qed.

Lemma series_types_outer self (images : images_index) : forall acc w,
  forallb (fun o => match o with Some _ => true | None => false end)
    (concat (Dict.values images)) = true ->
  exists w',
    foldM (fun acc item =>
             let '(series_type, series_list) :=
               (item : string * list (option Series)) in
             (if (1 <? length series_list)%nat
              then _write_warning self (MultipleSeriesForType series_type)
              else ret tt) ;;;
             foldM (fun acc series =>
                      match series with
                      | Some series => ret (acc ++ [get_type series])
                      | None => raise (AttributeError "get_type")
                      end) series_list acc)
      images acc w =
    (Ok (acc ++ map get_type (somes (concat (Dict.values images)))), w') /\
    frame w w' /\
    sink w' =
    sink w ++
    map (fun kv => warning_line self (MultipleSeriesForType (fst kv)))
      (filter (fun kv => (1 <? length (snd kv))%nat) images).
Proof.
  induction images as [|[k l] images IH]; intros acc w Hall; simpl.
  - exists w. rewrite !app_nil_r. split; [reflexivity|].
    split; [apply frame_refl | reflexivity].
  - simpl in Hall. rewrite forallb_app in Hall.
    apply andb_true_iff in Hall as [Hl Hrest].
    assert (exists w1,
              (if (1 <? length l)%nat
               then _write_warning self (MultipleSeriesForType k)
               else ret tt) w = (Ok tt, w1) /\ frame w w1 /\
              sink w1 =
              sink w ++
              (if (1 <? length l)%nat
               then [warning_line self (MultipleSeriesForType k)]
               else [])) as (w1 & H1 & F1 & S1).
    { destruct (1 <? length l)%nat.
      - eexists. split; [reflexivity|]. split; [|reflexivity].
        apply (append_line_frame
                 (warning_line self (MultipleSeriesForType k)) w).
      - exists w. rewrite app_nil_r. split; [reflexivity|].
        split; [apply frame_refl | reflexivity]. }
    erewrite bind_ok
      by (erewrite bind_ok by exact H1; rewrite series_types_inner, Hl;
          reflexivity).
    destruct (IH (acc ++ map get_type (somes l)) w1 Hrest)
      as (w2 & H2 & F2 & S2).
    exists w2. rewrite H2. split; [|split].
    + now rewrite somes_app, map_app, app_assoc.
    + eapply frame_trans; eassumption.
    + rewrite S2, S1, <- app_assoc. f_equal.
      now destruct (1 <? length l)%nat.
Qed.

(** X20.  [get_series_types] does not run discovery: it reads the index
    as it is and leaves everything but the sink as it was.  When no item
    of the index is [None] it answers the kinds of the entries of the
    index, each once, and appends one warning for every kind that holds
    more than one entry, in index order, and nothing else; a kind with an
    empty list of entries is not among the answer.  On an index with a
    [None] item it raises [AttributeError]. *)
Theorem get_series_types_reads_index self w :
  frame w (after (get_series_types self w)) /\
  (forallb (fun o => match o with Some _ => true | None => false end)
     (concat (Dict.values (cls_images w))) = true ->
   value (get_series_types self w) =
   Ok (nodup string_dec
         (map get_type (somes (concat (Dict.values (cls_images w)))))) /\
   sink (after (get_series_types self w)) =
   sink w ++
   map (fun kv => warning_line self (MultipleSeriesForType (fst kv)))
     (filter (fun kv => (1 <? length (snd kv))%nat) (cls_images w)) /\
   forall kind,
     In kind
       (nodup string_dec
          (map get_type (somes (concat (Dict.values (cls_images w)))))) <->
     exists k entries s,
       In (k, entries) (cls_images w) /\ In (Some s) entries /\
       series_type s = kind) /\
  (forallb (fun o => match o with Some _ => true | None => false end)
     (concat (Dict.values (cls_images w))) = false ->
   value (get_series_types self w) = Raise (AttributeError "get_type")).
Proof.
  split; [|split].
  - unfold get_series_types. unfold bind at 1. unfold self_images at 1.
    apply reader_frame. reader_auto.
  - intros Hall.
    destruct (series_types_outer self (cls_images w) [] w Hall)
      as (w' & Hrun & Hf & Hs).
    assert (get_series_types self w =
            (Ok (nodup string_dec
                   (map get_type
                      (somes (concat (Dict.values (cls_images w)))))), w'))
      as Heq.
    { unfold get_series_types. unfold bind at 1. unfold self_images at 1.
      erewrite bind_ok by exact Hrun. reflexivity. }
    rewrite Heq. simpl.
    split; [reflexivity|]. split; [exact Hs|].
    intros kind. rewrite nodup_In, in_map_iff. split.
    + intros (s & Ht & Hin). apply in_somes in Hin.
      apply in_concat in Hin as (l & Hl & Hin).
      apply in_map_iff in Hl as ([k l'] & E & Hk). simpl in E. subst l'.
      now exists k, l, s.
    + intros (k & l & s & Hk & Hin & Ht). exists s. split; [exact Ht|].
      apply in_somes. apply in_concat. exists l. split; [|exact Hin].
      apply in_map_iff. now exists (k, l).
  - intros Hbad. unfold get_series_types.
    unfold bind at 1. unfold self_images at 1.
    enough (forall images acc w0,
              forallb (fun o => match o with
                                | Some _ => true
                                | None => false
                                end) (concat (Dict.values images)) = false ->
              value
                (foldM (fun acc item =>
                          let '(series_type, series_list) :=
                            (item : string * list (option Series)) in
                          (if (1 <? length series_list)%nat
                           then _write_warning self
                                  (MultipleSeriesForType series_type)
                           else ret tt) ;;;
                          foldM (fun acc series =>
                                   match series with
                                   | Some series =>
                                       ret (acc ++ [get_type series])
                                   | None =>
                                       raise (AttributeError "get_type")
                                   end) series_list acc)
                   images acc w0) = Raise (AttributeError "get_type")) as H.
    { erewrite bind_value_raise by (apply H; exact Hbad). reflexivity. }
    clear. induction images as [|[k l] images IH]; intros acc w0 Hbad;
      simpl in *; [discriminate|].
    rewrite forallb_app in Hbad.
    destruct (forallb _ l) eqn:El.
    + simpl in Hbad.
      assert (exists w1,
                (if (1 <? length l)%nat
                 then _write_warning self (MultipleSeriesForType k)
                 else ret tt) w0 = (Ok tt, w1)) as (w1 & H1)
        by (destruct (1 <? length l)%nat; eexists; reflexivity).
      erewrite bind_ok
        by (erewrite bind_ok by exact H1; rewrite series_types_inner, El;
            reflexivity).
      now apply IH.
    + assert (exists w1,
                (if (1 <? length l)%nat
                 then _write_warning self (MultipleSeriesForType k)
                 else ret tt) w0 = (Ok tt, w1)) as (w1 & H1)
        by (destruct (1 <? length l)%nat; eexists; reflexivity).
      erewrite bind_raise
        by (erewrite bind_ok by exact H1; rewrite series_types_inner, El;
            reflexivity).
      reflexivity.
Qed.

Lemma get_series_types_reads_index_witness :
  forallb (fun o => match o with Some _ => true | None => false end)
    (concat (Dict.values (cls_images Sample.after_custom_discovery))) = true
  /\
  value (get_series_types Sample.p1 Sample.after_custom_discovery) =
  Ok ["adc"] /\
  length (sink (after (get_series_types Sample.p1
                         Sample.after_custom_discovery))) =
  length (sink Sample.after_custom_discovery) + 1.
Proof.
  assert (forallb (fun o => match o with Some _ => true | None => false end)
            (concat (Dict.values (cls_images Sample.after_custom_discovery)))
          = true) as H by (vm_compute; reflexivity).
  split; [exact H|].
  destruct (get_series_types_reads_index Sample.p1
              Sample.after_custom_discovery) as (_ & Hok & _).
  destruct (Hok H) as (-> & -> & _).
  split; [vm_compute; reflexivity|].
  rewrite length_app. vm_compute. reflexivity.
Defined.

(** ** Building the catalog *)

Lemma lookup_add_entry p dir name t :
  os.lookup p (add_entry dir name t) =
  if String.eqb p dir then
    option_map (fun entries =>
                  if existsb (String.eqb name) entries then entries
                  else entries ++ [name]) (os.lookup p t)
  else os.lookup p t.
Proof.
  induction t as [|[d entries] t IH]; simpl.
  - now destruct (String.eqb p dir).
  - destruct (String.eqb dir d) eqn:Ed; simpl.
    + apply String.eqb_eq in Ed. subst d.
      now destruct (String.eqb p dir).
    + destruct (String.eqb p d) eqn:Ep; [|exact IH].
      apply String.eqb_eq in Ep. subst d.
      assert (String.eqb p dir = false) as ->; [|reflexivity].
      rewrite String.eqb_sym. exact Ed.
Qed.

Lemma is_directory_add_entry w t d dir name p :
  is_directory (with_catalog w (add_entry dir name t) d) p =
  is_directory (with_catalog w t d) p.
Proof.
  unfold is_directory, with_catalog; simpl. rewrite lookup_add_entry.
  destruct (String.eqb p dir); [|reflexivity].
  now destruct (os.lookup p t).
Qed.

Lemma existsb_snoc (name : string) entries :
  existsb (String.eqb name) (entries ++ [name]) = true.
Proof.
  rewrite existsb_app. simpl. rewrite String.eqb_refl.
  now rewrite orb_true_r.
Qed.

(** Creating a file that exists changes nothing, and a file once created
    exists whatever is created after it. *)
Lemma add_entry_twice dir name other t :
  add_entry dir name (add_entry dir other (add_entry dir name t)) =
  add_entry dir other (add_entry dir name t).
Proof.
  induction t as [|[d entries] t IH]; simpl; [reflexivity|].
  destruct (String.eqb dir d) eqn:Ed; simpl; rewrite Ed; simpl;
    [|rewrite Ed; now rewrite IH].
  rewrite Ed. f_equal. f_equal.
  assert (existsb (String.eqb name)
            (if existsb (String.eqb name) entries then entries
             else entries ++ [name]) = true) as H1.
  { destruct (existsb (String.eqb name) entries) eqn:E;
      [exact E | apply existsb_snoc]. }
  destruct (existsb (String.eqb other)
              (if existsb (String.eqb name) entries then entries
               else entries ++ [name]));
    [now rewrite H1|].
  rewrite existsb_app, H1. reflexivity.
Qed.

Lemma with_catalog_same w : with_catalog w (fs w) (cls_patients w) = w.
Proof. now destruct w. Qed.

(** Opening a file named without directory part. *)
Lemma open_append_bare name w :
  os.split name = (EmptyString, name) ->
  Str.is_empty name || String.eqb name "." || String.eqb name ".." = false ->
  open_append name w =
  if is_directory w (cwd w)
     && negb (is_directory w (os.join (cwd w) name))
  then (Ok tt, with_catalog w (add_entry (cwd w) name (fs w))
                 (cls_patients w))
  else (Raise (OSError name), w).
Proof.
  intros Hsplit Hname. unfold open_append, is_directory. rewrite Hsplit.
  change (Str.is_empty EmptyString) with true. cbv iota. rewrite Hname.
  destruct (os.lookup (cwd w) (fs w)); [|reflexivity].
  now destruct (os.lookup (os.join (cwd w) name) (fs w)).
Qed.

Lemma registers_only_refl w : registers_only w w.
Proof. unfold registers_only. tauto. Qed.

Lemma registers_only_trans w1 w2 w3 :
  registers_only w1 w2 -> registers_only w2 w3 -> registers_only w1 w3.
Proof.
  unfold registers_only.
  intros (Hc & Hi & Hm & Hco & Hs & Hd & Hl)
         (Hc' & Hi' & Hm' & Hco' & Hs' & Hd' & Hl').
  split; [congruence|]. split; [congruence|]. split; [congruence|].
  split; [congruence|]. split; [congruence|]. split.
  - intros p. now rewrite Hd', Hd.
  - intros p Hp. rewrite Hl' by (now rewrite Hc). now apply Hl.
Qed.

Lemma registers_only_open name w :
  os.split name = (EmptyString, name) ->
  Str.is_empty name || String.eqb name "." || String.eqb name ".." = false ->
  registers_only w (after (open_append name w)).
Proof.
  intros Hsplit Hname. rewrite open_append_bare by assumption.
  destruct (is_directory w (cwd w)
            && negb (is_directory w (os.join (cwd w) name)));
    [|apply registers_only_refl].
  unfold registers_only, after, with_catalog; simpl.
  repeat split; try reflexivity.
  - intros p. unfold is_directory; simpl. rewrite lookup_add_entry.
    destruct (String.eqb p (cwd w)); [|reflexivity].
    now destruct (os.lookup p (fs w)).
  - intros p Hp. rewrite lookup_add_entry.
    apply String.eqb_neq in Hp. now rewrite Hp.
Qed.

Lemma registers_only_bind {A B} (m : M A) (k : A -> M B) w :
  registers_only w (after (m w)) ->
  (forall a w1, registers_only w1 (after (k a w1))) ->
  registers_only w (after (bind m k w)).
Proof.
  intros Hm Hk. unfold bind.
  destruct (m w) as [[a|e] w1]; simpl in *; [|exact Hm].
  eapply registers_only_trans; [exact Hm | apply Hk].
Qed.

Lemma registers_only_foldM {A} (body : unit -> A -> M unit) l :
  (forall u x w, registers_only w (after (body u x w))) ->
  forall u w, registers_only w (after (foldM body l u w)).
Proof.
  intros Hb. induction l as [|x l IH]; intros u w; simpl.
  - apply registers_only_refl.
  - apply registers_only_bind; [apply Hb | intros; apply IH].
Qed.

Lemma registers_only_init id p w :
  registers_only w (after (Patient_init id p None None w)).
Proof.
  unfold Patient_init.
  apply registers_only_bind.
  - apply registers_only_bind;
      [now apply registers_only_open | intros; apply registers_only_refl].
  - intros wf w1.
    apply registers_only_bind; [|intros; apply registers_only_refl].
    apply registers_only_bind;
      [now apply registers_only_open | intros; apply registers_only_refl].
Qed.

Lemma registers_only_turn self id w :
  registers_only w
    (after ((let patient_path := os.join (root self) id in
             isd <- os.isdir patient_path ;;
             if negb isd then ret tt
             else
               patient <- Patient_init id patient_path None None ;;
               set_patient self id patient) w)).
Proof.
  cbv zeta. apply registers_only_bind; [apply registers_only_refl|].
  intros isd w1. destruct isd; simpl; [|apply registers_only_refl].
  apply registers_only_bind; [apply registers_only_init|].
  intros patient w2. unfold registers_only, set_patient, after; simpl.
  tauto.
Qed.

(** The constructor when both files can be opened, when the working
    directory is missing, and when only the log file cannot be opened. *)
Lemma Patient_init_ready id p w :
  diagnostics_ready w = true ->
  Patient_init id p None None w =
  (Ok (mkPatient id p (os.join (cwd w) "warnings.txt")
         (os.join (cwd w) "logs.txt")),
   with_catalog w (with_diagnostics w) (cls_patients w)).
Proof.
  unfold diagnostics_ready. intros H.
  apply andb_true_iff in H as [H Hl]. apply andb_true_iff in H as [Hc Hw].
  unfold Patient_init.
  erewrite bind_ok.
  2:{ erewrite bind_ok
        by (rewrite open_append_bare by reflexivity; rewrite Hc, Hw;
            reflexivity).
      reflexivity. }
  erewrite bind_ok.
  2:{ erewrite bind_ok.
      2:{ rewrite open_append_bare by reflexivity.
          rewrite !is_directory_add_entry, with_catalog_same.
          simpl cwd. rewrite Hc, Hl. reflexivity. }
      reflexivity. }
  reflexivity.
Qed.

Lemma Patient_init_no_cwd id p w :
  is_directory w (cwd w) = false ->
  Patient_init id p None None w = (Raise (OSError "warnings.txt"), w).
Proof.
  intros Hc. unfold Patient_init.
  erewrite bind_raise; [reflexivity|].
  erewrite bind_raise; [reflexivity|].
  rewrite open_append_bare by reflexivity. now rewrite Hc.
Qed.

Lemma Patient_init_no_log id p w :
  is_directory w (cwd w) = true ->
  is_directory w (os.join (cwd w) "warnings.txt") = false ->
  is_directory w (os.join (cwd w) "logs.txt") = true ->
  Patient_init id p None None w =
  (Raise (OSError "logs.txt"),
   with_catalog w (add_entry (cwd w) "warnings.txt" (fs w))
     (cls_patients w)).
Proof.
  intros Hc Hw Hl. unfold Patient_init.
  erewrite bind_ok.
  2:{ erewrite bind_ok
        by (rewrite open_append_bare by reflexivity; rewrite Hc, Hw;
            reflexivity).
      reflexivity. }
  erewrite bind_raise; [reflexivity|].
  erewrite bind_raise; [reflexivity|].
  rewrite open_append_bare by reflexivity.
  rewrite !is_directory_add_entry, with_catalog_same.
  simpl cwd. rewrite Hc, Hl. reflexivity.
Qed.

Lemma fetch_patients_skip self id w :
  is_directory w (os.join (root self) id) = false ->
  (let patient_path := os.join (root self) id in
   isd <- os.isdir patient_path ;;
   if negb isd then ret tt
   else
     patient <- Patient_init id patient_path None None ;;
     set_patient self id patient) w = (Ok tt, w).
Proof.
  unfold is_directory, bind, os.isdir. cbv zeta.
  now destruct (os.lookup (os.join (root self) id) (fs w)).
Qed.

Lemma fetch_patients_enter self id w :
  is_directory w (os.join (root self) id) = true ->
  (let patient_path := os.join (root self) id in
   isd <- os.isdir patient_path ;;
   if negb isd then ret tt
   else
     patient <- Patient_init id patient_path None None ;;
     set_patient self id patient) w =
  (patient <- Patient_init id (os.join (root self) id) None None ;;
   set_patient self id patient) w.
Proof.
  unfold is_directory, os.isdir. cbv zeta. unfold bind at 1.
  now destruct (os.lookup (os.join (root self) id) (fs w)).
Qed.

Lemma fold_left_pointwise {A B} (f g : A -> B -> A) l : forall a,
  (forall a b, f a b = g a b) -> fold_left f l a = fold_left g l a.
Proof.
  induction l as [|b l IH]; intros a H; simpl; [reflexivity|].
  rewrite H. now apply IH.
Qed.

Lemma with_diagnostics_twice w d :
  with_diagnostics (with_catalog w (with_diagnostics w) d) =
  with_diagnostics w.
Proof.
  unfold with_diagnostics, with_catalog; simpl.
  rewrite add_entry_twice. apply add_entry_twice.
Qed.

Lemma fetch_patients_loop self ids : forall w,
  diagnostics_ready w = true ->
  foldM (fun (_ : unit) patient_id =>
           let patient_path := os.join (root self) patient_id in
           d <- os.isdir patient_path ;;
           if negb d then ret tt
           else
             patient <- Patient_init patient_id patient_path None None ;;
             set_patient self patient_id patient)
    ids tt w =
  (Ok tt,
   with_catalog w
     (if constructs self w ids then with_diagnostics w else fs w)
     (registered self w ids)).
Proof.
  induction ids as [|id ids IH]; intros w Hready.
  - simpl. now destruct w.
  - cbn [foldM].
    destruct (is_directory w (os.join (root self) id)) eqn:Ed.
    + set (w1 := with_catalog w (with_diagnostics w)
                   (Dict.set id (new_patient self w id) (cls_patients w))).
      assert (forall p, is_directory w1 p = is_directory w p) as Hdir.
      { intros p. unfold w1, with_diagnostics.
        rewrite !is_directory_add_entry.
        unfold is_directory, with_catalog. reflexivity. }
      rewrite (bind_ok _ _ w tt w1).
      2:{ rewrite fetch_patients_enter by exact Ed.
          erewrite bind_ok by (now apply Patient_init_ready).
          reflexivity. }
      rewrite IH.
      2:{ unfold diagnostics_ready. rewrite !Hdir. exact Hready. }
      unfold constructs; cbn [existsb]. rewrite Ed. cbn [orb].
      f_equal. unfold with_catalog. f_equal.
      * replace (with_diagnostics w1) with (with_diagnostics w)
          by (symmetry; apply with_diagnostics_twice).
        now destruct (existsb _ ids).
      * unfold registered. cbn [fold_left]. rewrite Ed.
        apply fold_left_pointwise. intros d id'. rewrite Hdir. reflexivity.
    + erewrite bind_ok by (now apply fetch_patients_skip).
      rewrite IH by exact Hready.
      unfold constructs, registered; cbn [existsb fold_left].
      now rewrite Ed.
Qed.

Lemma fetch_patients_loop_blocked self ids w e w' :
  (forall id p, Patient_init id p None None w = (Raise e, w')) ->
  foldM (fun (_ : unit) patient_id =>
           let patient_path := os.join (root self) patient_id in
           d <- os.isdir patient_path ;;
           if negb d then ret tt
           else
             patient <- Patient_init patient_id patient_path None None ;;
             set_patient self patient_id patient)
    ids tt w =
  if constructs self w ids then (Raise e, w') else (Ok tt, w).
Proof.
  intros Hinit. induction ids as [|id ids IH]; [reflexivity|].
  cbn [foldM]. unfold constructs; cbn [existsb].
  destruct (is_directory w (os.join (root self) id)) eqn:Ed; cbn [orb].
  - erewrite bind_raise; [reflexivity|].
    rewrite fetch_patients_enter by exact Ed.
    erewrite bind_raise by apply Hinit. reflexivity.
  - erewrite bind_ok by (now apply fetch_patients_skip). exact IH.
Qed.

Lemma get_registered self w ids : forall d id,
  Dict.get id
    (fold_left (fun d id =>
                  if is_directory w (os.join (root self) id)
                  then Dict.set id (new_patient self w id) d else d)
       ids d) =
  if existsb (String.eqb id) ids
     && is_directory w (os.join (root self) id)
  then Some (new_patient self w id) else Dict.get id d.
Proof.
  induction ids as [|id0 ids IH]; intros d id; simpl; [reflexivity|].
  rewrite IH. destruct (String.eqb id id0) eqn:E.
  - apply String.eqb_eq in E. subst id0. simpl.
    destruct (is_directory w (os.join (root self) id)) eqn:Ed.
    + rewrite andb_true_r. rewrite DictFacts.get_set_same.
      now destruct (existsb (String.eqb id) ids).
    + now rewrite andb_false_r.
  - simpl. destruct (existsb (String.eqb id) ids
                     && is_directory w (os.join (root self) id));
      [reflexivity|].
    destruct (is_directory w (os.join (root self) id0)); [|reflexivity].
    apply DictFacts.get_set_other. intros ->.
    now rewrite String.eqb_refl in E.
Qed.

(** X21.  [fetch_patients] never discovers: whatever its outcome it
    leaves both indices, the copies and the sink as they were, no
    directory appears or disappears, and only the catalog and the entries
    of the working directory can change.  Building a patient opens the
    two diagnostic files in the working directory.  When both can be
    opened, the call succeeds: the catalog it returns and leaves holds,
    for every listed id whose directory exists under the root, a patient
    with that id, that directory as path and the two diagnostic files; an
    id without directory is skipped, every other entry of the catalog
    stays, and the two files are created once some patient is built.
    When the working directory does not exist, the call raises [OSError]
    for "warnings.txt" as soon as a listed id has its directory, and
    registers nothing.  When only "logs.txt" cannot be opened because it
    is a directory, the call raises [OSError] for it after "warnings.txt"
    was created.  With no listed id that has a directory nothing is
    opened and the catalog is returned as it was.  The modalities and
    both configurations play no part. *)
Theorem fetch_patients_registers self ids modalities mc sc w :
  registers_only w (after (fetch_patients self ids modalities mc sc w)) /\
  (diagnostics_ready w = true ->
   fetch_patients self ids modalities mc sc w =
   (Ok (registered self w ids),
    with_catalog w
      (if constructs self w ids then with_diagnostics w else fs w)
      (registered self w ids))) /\
  (is_directory w (cwd w) = false ->
   fetch_patients self ids modalities mc sc w =
   (if constructs self w ids then Raise (OSError "warnings.txt")
    else Ok (cls_patients w), w)) /\
  (is_directory w (cwd w) = true ->
   is_directory w (os.join (cwd w) "warnings.txt") = false ->
   is_directory w (os.join (cwd w) "logs.txt") = true ->
   fetch_patients self ids modalities mc sc w =
   if constructs self w ids
   then (Raise (OSError "logs.txt"),
         with_catalog w (add_entry (cwd w) "warnings.txt" (fs w))
           (cls_patients w))
   else (Ok (cls_patients w), w)) /\
  (forall id,
     Dict.get id (registered self w ids) =
     if existsb (String.eqb id) ids
        && is_directory w (os.join (root self) id)
     then Some (new_patient self w id)
     else Dict.get id (cls_patients w)).
Proof.
  split; [|split; [|split; [|split]]].
  - unfold fetch_patients. apply registers_only_bind.
    + apply registers_only_foldM. intros u id w0.
      apply registers_only_turn.
    + intros u w1. apply registers_only_refl.
  - intros Hready. unfold fetch_patients.
    erewrite bind_ok by (now apply fetch_patients_loop). reflexivity.
  - intros Hc.
    pose proof (fetch_patients_loop_blocked self ids w
                  (OSError "warnings.txt") w
                  (fun id p => Patient_init_no_cwd id p w Hc)) as Hloop.
    unfold fetch_patients.
    destruct (constructs self w ids).
    + erewrite bind_raise by exact Hloop. reflexivity.
    + erewrite bind_ok by exact Hloop. reflexivity.
  - intros Hc Hw Hl.
    pose proof (fetch_patients_loop_blocked self ids w (OSError "logs.txt")
                  (with_catalog w (add_entry (cwd w) "warnings.txt" (fs w))
                     (cls_patients w))
                  (fun id p => Patient_init_no_log id p w Hc Hw Hl))
      as Hloop.
    unfold fetch_patients.
    destruct (constructs self w ids).
    + erewrite bind_raise by exact Hloop. reflexivity.
    + erewrite bind_ok by exact Hloop. reflexivity.
  - intros id. apply get_registered.
Qed.

Lemma fetch_patients_registers_witness :
  diagnostics_ready (Sample.at_start Sample.tree) = true /\
  value (fetch_patients Sample.dataset ["p1"; "p3"; "p2"] [] None None
           (Sample.at_start Sample.tree)) =
  Ok [("p1", Sample.p1); ("p2", Sample.p2)] /\
  os.lookup Sample.home
    (fs (after (fetch_patients Sample.dataset ["p1"; "p3"; "p2"] [] None None
                  (Sample.at_start Sample.tree)))) =
  Some ["warnings.txt"; "logs.txt"] /\
  is_directory (Sample.at_start Sample.tree_no_masks) Sample.home = false /\
  fetch_patients Sample.dataset ["p3"; "p1"] [] None None
    (Sample.at_start Sample.tree_no_masks) =
  (Raise (OSError "warnings.txt"), Sample.at_start Sample.tree_no_masks).
Proof.
  destruct (fetch_patients_registers Sample.dataset ["p1"; "p3"; "p2"] []
              None None (Sample.at_start Sample.tree))
    as (_ & Hok & _).
  destruct (fetch_patients_registers Sample.dataset ["p3"; "p1"] []
              None None (Sample.at_start Sample.tree_no_masks))
    as (_ & _ & Hbad & _).
  split; [reflexivity|]. split; [|split; [|split]].
  - rewrite (Hok eq_refl). reflexivity.
  - rewrite (Hok eq_refl). reflexivity.
  - reflexivity.
  - rewrite (Hbad eq_refl). reflexivity.
Defined.

(** ** The paths of a kind over the dataset *)

Lemma mapM_get_path (items : list (option Series)) w :
  (forall item, In item items -> item <> None) ->
  mapM (fun ser =>
          match ser with
          | Some ser => ret (get_path ser)
          | None => raise (AttributeError "get_path")
          end) items w =
  (Ok (map get_path (somes items)), w).
Proof.
  induction items as [|[s|] items IH]; intros H; simpl; [reflexivity| |].
  - rewrite bind_ret.
    erewrite bind_ok
      by (apply IH; intros item Hi; apply H; now right).
    reflexivity.
  - exfalso. now apply (H None (or_introl eq_refl)).
Qed.

Lemma discovered_series_present self kind ext kw w item :
  patient_path self <> ""%string ->
  In item (discovered (_fetch_single_series self kind ext kw) w []) ->
  item <> None.
Proof.
  intros Hpath. unfold discovered.
  destruct (value (_fetch_single_series self kind ext kw w)) as [items|e]
    eqn:E; [|intros []].
  intros Hin.
  destruct (fetch_single_series_items_of _ _ _ _ _ _ Hpath E item Hin)
    as (p & _ & ->).
  discriminate.
Qed.

(** X22.  Although all patients share one series index, the paths of a
    default kind over the dataset are those of each patient: when the
    default discovery succeeds for every patient of the catalog (none of
    them with an empty path), [get_series_paths] maps every patient id,
    in catalog order, to the paths of the entries that series discovery
    of that kind returns on that patient's own directory. *)
Theorem get_series_paths_per_patient self kind w :
  In kind series_to_fetch ->
  (forall p, In p (Dict.values (cls_patients w)) ->
     patient_path p <> ""%string /\
     (forall k, In k series_to_fetch ->
        exists v, value (_fetch_single_mask p k default_extension
                           mask_config w) = Ok v) /\
     (forall k, In k series_to_fetch ->
        exists v, value (_fetch_single_series p k default_extension
                           series_config w) = Ok v)) ->
  value (get_series_paths self kind w) =
  Ok (fold_left
        (fun d p =>
           Dict.set (get_id p)
             (map get_path
                (somes (discovered
                          (_fetch_single_series p kind default_extension
                             series_config) w []))) d)
        (Dict.values (cls_patients w)) []).
Proof.
  intros Hkind Hall. unfold get_series_paths.
  enough (forall ps acc w0,
            (forall p, In p ps -> In p (Dict.values (cls_patients w))) ->
            fs w0 = fs w ->
            exists w1,
              foldM (fun result patient =>
                       series <- get_series_by_type patient kind ;;
                       paths <- mapM (fun ser =>
                                  match ser with
                                  | Some ser => ret (get_path ser)
                                  | None => raise (AttributeError "get_path")
                                  end) series ;;
                       ret (Dict.set (get_id patient) paths result))
                ps acc w0 =
              (Ok (fold_left
                     (fun d p =>
                        Dict.set (get_id p)
                          (map get_path
                             (somes (discovered
                                       (_fetch_single_series p kind
                                          default_extension series_config)
                                       w []))) d) ps acc), w1)) as H.
  { destruct (H (Dict.values (cls_patients w)) [] w (fun p Hp => Hp) eq_refl)
      as (w1 & ->). reflexivity. }
  induction ps as [|p ps IH]; intros acc w0 Hin Hfs; simpl.
  - now exists w0.
  - destruct (Hall p (Hin p (or_introl eq_refl))) as (Hpath & Hm & Hs).
    destruct (fetch_all_total p series_to_fetch mask_config series_config w0)
      as (r & w1 & Hrun).
    { intros k Hk. destruct (Hm k Hk) as [v Hv]. exists v. rewrite <- Hv.
      apply reader_value; [apply reader_fetch_single_mask | exact Hfs]. }
    { intros k Hk. destruct (Hs k Hk) as [v Hv]. exists v. rewrite <- Hv.
      apply reader_value; [apply reader_fetch_single_series | exact Hfs]. }
    pose proof (fetch_all_ok _ _ _ _ _ _ _ Hrun)
      as (_ & _ & _ & _ & Hsget & _ & Hfs1 & _).
    assert (get_series_by_type p kind w0 =
            (Ok (discovered (_fetch_single_series p kind default_extension
                               series_config) w []), w1)) as Hget.
    { unfold get_series_by_type. erewrite bind_ok by exact Hrun.
      unfold bind, self_images, getitem. rewrite Hsget.
      rewrite get_assign_all_in by exact Hkind.
      rewrite (discovered_fs _ w0 w []
                 (reader_fetch_single_series p kind default_extension
                    series_config) Hfs).
      reflexivity. }
    erewrite bind_ok.
    + apply IH; [intros q Hq; apply Hin; now right|].
      now rewrite Hfs1.
    + erewrite bind_ok by exact Hget.
      erewrite bind_ok
        by (apply mapM_get_path; intros item;
            apply discovered_series_present; exact Hpath).
      reflexivity.
Qed.

Lemma get_series_paths_per_patient_witness :
  value (get_series_paths Sample.dataset "dwi" Sample.catalog) =
  Ok [("p1", []); ("p2", [PathStr "/data/p2/DWI/dwi.nii.gz"])].
Proof.
  rewrite (get_series_paths_per_patient Sample.dataset "dwi" Sample.catalog).
  - vm_compute. reflexivity.
  - right. now left.
  - intros p Hp. vm_compute in Hp.
    destruct Hp as [<-|[<-|[]]];
      (split; [vm_compute; discriminate|]);
      split; intros k [<-|[<-|[]]]; eexists; vm_compute; reflexivity.
Defined.

(** ** What the loader is given *)

Lemma startswith_slash_inv p :
  Str.startswith "/" p = true -> exists rest, p = String "/" rest.
Proof.
  destruct p as [|c p]; [discriminate|].
  intros H. cbn [Str.startswith] in H.
  apply andb_true_iff in H as [H _]. apply Ascii.eqb_eq in H. subst c.
  now exists p.
Qed.

(** X23.  [get_data] hands the loader [self.path[0]].  For a mask built
    by [_create_mask] from a list of paths that is the first path of the
    list, and the list is never empty.  For an entry returned by series
    discovery (of a patient with a non-empty path) the path is a string,
    so the loader is given its first character only, and for a patient
    with an absolute path that is "/". *)
Theorem get_data_loads_first_item {Data} (nb_load : string -> M Data) :
  (forall kind paths doc m,
     _create_mask (Some kind) (Some (PathList paths)) doc = Some m ->
     exists p rest,
       paths = p :: rest /\ get_data nb_load (mask_base m) = nb_load p) /\
  (forall self kind ext kw w items s,
     patient_path self <> ""%string ->
     value (_fetch_single_series self kind ext kw w) = Ok items ->
     In (Some s) items ->
     exists c rest,
       get_path s = PathStr (String c rest) /\
       get_data nb_load s = nb_load (String c EmptyString) /\
       (Str.startswith "/" (patient_path self) = true -> c = "/"%char)).
Proof.
  split.
  - intros kind paths doc m Hm. unfold _create_mask in Hm.
    destruct paths as [|p rest]; simpl in Hm; [discriminate|].
    injection Hm as <-. now exists p, rest.
  - intros self kind ext kw w items s Hpath Hv Hin.
    destruct (fetch_single_series_built _ _ _ _ _ _ Hv)
      as (file_list & -> & Hbuilt).
    apply in_map_iff in Hin as (p & Hp & Hfile).
    destruct (Hbuilt p Hfile) as (name & file & Ep).
    assert (p <> ""%string) as Hne
      by (rewrite Ep; apply join_nonempty; now apply join_nonempty).
    destruct p as [|c rest]; [contradiction|].
    simpl in Hp. injection Hp as <-.
    exists c, rest. split; [reflexivity|]. split; [reflexivity|].
    intros Habs.
    assert (Str.startswith "/" (String c rest) = true) as Hs
      by (rewrite Ep; apply join_absolute; now apply join_absolute).
    apply startswith_slash_inv in Hs as [rest' E]. now injection E.
Qed.

Lemma get_data_loads_first_item_witness :
  exists c rest,
    get_path (mkSeries "adc" (PathStr "/data/p1/ADC/adc.nii.gz")) =
    PathStr (String c rest) /\
    get_data (fun p : string => ret p)
      (mkSeries "adc" (PathStr "/data/p1/ADC/adc.nii.gz")) =
    ret (String c EmptyString) /\
    (Str.startswith "/" (patient_path Sample.p1) = true -> c = "/"%char).
Proof.
  assert (patient_path Sample.p1 <> ""%string) as H
    by (vm_compute; discriminate).
  exact (proj2 (get_data_loads_first_item (fun p : string => ret p))
           Sample.p1 "adc" ".nii.gz" series_config
           (Sample.at_start Sample.tree) _ _ H eq_refl (or_introl eq_refl)).
Defined.

(** ** Selecting patients by a rule on their mask count *)

(** X24.  [get_patients_by_mask_count] only answers patients of the
    catalog, and each of them only after a mask count of that patient
    succeeded and the caller's rule answered [True] on that count; it
    answers no more patients than the catalog has.  With an empty
    catalog it answers the empty list and runs nothing. *)
Theorem get_patients_by_mask_count_sound self count_type rule w selected w' :
  get_patients_by_mask_count self count_type rule w = (Ok selected, w') ->
  (forall p, In p selected ->
     In p (Dict.values (cls_patients w)) /\
     exists w0 count w1 w2,
       count_masks_per p count_type w0 = (Ok count, w1) /\
       rule count w1 = (Ok true, w2)) /\
  length selected <= length (Dict.values (cls_patients w)) /\
  (cls_patients w = [] -> selected = [] /\ w' = w).
Proof.
  unfold get_patients_by_mask_count. intros Hrun. split; [|split].
  - revert Hrun.
    apply (foldM_invariant
             (fun sel : list Patient =>
                forall p, In p sel ->
                  In p (Dict.values (cls_patients w)) /\
                  exists w0 count w1 w2,
                    count_masks_per p count_type w0 = (Ok count, w1) /\
                    rule count w1 = (Ok true, w2)));
      [|intros p []].
    intros sel q w0 sel' w0' Hsel Hq Hbody p Hp.
    apply bind_ok_inv in Hbody as (count & w1 & Hcount & Hbody).
    apply bind_ok_inv in Hbody as (b & w2 & Hrule & Hret).
    injection Hret as <- _.
    destruct b; [|now apply Hsel].
    apply in_app_or in Hp as [Hp|[<-|[]]]; [now apply Hsel|].
    split; [exact Hq|]. now exists w0, count, w1, w2.
  - revert Hrun.
    generalize (Dict.values (cls_patients w)) as ps.
    intros ps.
    enough (forall acc w0 sel w1,
              foldM (fun selected patient =>
                       count <- count_masks_per patient count_type ;;
                       b <- rule count ;;
                       ret (if b then selected ++ [patient] else selected))
                ps acc w0 = (Ok sel, w1) ->
              length sel <= length acc + length ps) as H
      by (intros Hrun; apply (H _ _ _ _ Hrun)).
    induction ps as [|q ps IH]; intros acc w0 sel w1 Hrun; simpl in Hrun.
    + injection Hrun as <- _. simpl. lia.
    + apply bind_ok_inv in Hrun as (acc' & w2 & Hbody & Hrest).
      apply bind_ok_inv in Hbody as (count & w3 & _ & Hbody).
      apply bind_ok_inv in Hbody as (b & w4 & _ & Hret).
      injection Hret as <- _.
      apply IH in Hrest. destruct b; [rewrite length_app in Hrest|];
        simpl in *; lia.
  - intros Hempty. rewrite Hempty in Hrun. simpl in Hrun.
    injection Hrun as <- <-. now split.
Qed.

Lemma get_patients_by_mask_count_sound_witness :
  value (get_patients_by_mask_count Sample.dataset "series_type"
           (fun count =>
              ret (match Dict.get "adc" count with
                   | Some n => (0 <? n)%nat
                   | None => false
                   end)) Sample.catalog) = Ok [Sample.p1] /\
  In Sample.p1 (Dict.values (cls_patients Sample.catalog)).
Proof.
  split; [vm_compute; reflexivity|].
  destruct (get_patients_by_mask_count Sample.dataset "series_type"
              (fun count =>
                 ret (match Dict.get "adc" count with
                      | Some n => (0 <? n)%nat
                      | None => false
                      end)) Sample.catalog) as [[sel|e] w1] eqn:E.
  - assert (value (get_patients_by_mask_count Sample.dataset "series_type"
                     (fun count =>
                        ret (match Dict.get "adc" count with
                             | Some n => (0 <? n)%nat
                             | None => false
                             end)) Sample.catalog) = Ok sel) as Hv
      by (now rewrite E).
    vm_compute in Hv. injection Hv as <-.
    destruct (get_patients_by_mask_count_sound _ _ _ _ _ _ E) as [H _].
    apply (H Sample.p1). vm_compute. now left.
  - assert (value (get_patients_by_mask_count Sample.dataset "series_type"
                     (fun count =>
                        ret (match Dict.get "adc" count with
                             | Some n => (0 <? n)%nat
                             | None => false
                             end)) Sample.catalog) = Raise e) as Hv
      by (now rewrite E).
    vm_compute in Hv. discriminate.
Defined.

(** ** Series counts over the dataset *)

Lemma keys_set_value {V} (d : Dict.t V) k v v' :
  Dict.keys (Dict.set k v d) = Dict.keys (Dict.set k v' d).
Proof.
  induction d as [|[k0 v0] d IH]; simpl; [reflexivity|].
  destruct (String.eqb k k0); simpl; [reflexivity | now rewrite IH].
Qed.

Lemma keys_assign_all_ext {V} (f g : string -> V) ks : forall d d',
  Dict.keys d = Dict.keys d' ->
  Dict.keys (assign_all f ks d) = Dict.keys (assign_all g ks d').
Proof.
  unfold assign_all. induction ks as [|k ks IH]; intros d d' H; simpl;
    [exact H|].
  apply IH. rewrite (keys_set_value d k (f k) (g k)).
  clear IH. revert d' H. induction d as [|[k0 v0] d IHd];
    intros [|[k1 v1] d'] H; simpl in *; try discriminate; [reflexivity|].
  injection H as -> H. destruct (String.eqb k k1); simpl;
    [now rewrite H | now rewrite (IHd d' H)].
Qed.

Lemma get_some_in_keys {V} (d : Dict.t V) k v :
  Dict.get k d = Some v -> In k (Dict.keys d).
Proof.
  intros H. apply get_in in H. unfold Dict.keys.
  apply in_map_iff. now exists (k, v).
Qed.

Lemma keys_assign_all_present {V} (f : string -> V) ks : forall d,
  (forall k, In k ks -> In k (Dict.keys d)) ->
  Dict.keys (assign_all f ks d) = Dict.keys d.
Proof.
  unfold assign_all. induction ks as [|k ks IH]; intros d H; simpl;
    [reflexivity|].
  rewrite IH.
  - apply DictFacts.keys_set_present. apply H. now left.
  - intros k' Hk'. rewrite DictFacts.keys_set_present by (apply H; now left).
    apply H. now right.
Qed.

Lemma dict_ext {V} (d1 : Dict.t V) : forall d2,
  NoDup (Dict.keys d1) -> Dict.keys d1 = Dict.keys d2 ->
  (forall k, Dict.get k d1 = Dict.get k d2) -> d1 = d2.
Proof.
  induction d1 as [|[k v] d1 IH]; intros [|[k' v'] d2] Hnd Hk Hg;
    simpl in *; try discriminate; [reflexivity|].
  injection Hk as <- Hk. inversion Hnd as [|? ? Hfresh Hnd']; subst.
  pose proof (Hg k) as Hgk. rewrite String.eqb_refl in Hgk.
  injection Hgk as <-. f_equal. apply IH; [exact Hnd' | exact Hk|].
  intros k0. specialize (Hg k0). destruct (String.eqb k0 k) eqn:E; [|exact Hg].
  apply String.eqb_eq in E. subst k0.
  rewrite get_none_notin by exact Hfresh.
  rewrite get_none_notin; [reflexivity | now rewrite <- Hk].
Qed.

Lemma NoDup_keys_assign_all {V} (f : string -> V) ks : forall d,
  NoDup (Dict.keys d) -> NoDup (Dict.keys (assign_all f ks d)).
Proof.
  unfold assign_all. induction ks as [|k ks IH]; intros d H; simpl;
    [exact H|].
  apply IH. now apply NoDup_keys_set.
Qed.

(** A second assignment of the same keys makes the first one
    unobservable. *)
Lemma assign_all_override {V} (f g : string -> V) ks d :
  NoDup (Dict.keys d) ->
  assign_all f ks (assign_all g ks d) = assign_all f ks d.
Proof.
  intros Hnd. apply dict_ext.
  - apply NoDup_keys_assign_all. now apply NoDup_keys_assign_all.
  - rewrite keys_assign_all_present.
    + now apply keys_assign_all_ext.
    + intros k Hk. eapply get_some_in_keys. now apply get_assign_all_in.
  - intros k. destruct (in_dec string_dec k ks) as [Hin|Hout].
    + now rewrite !get_assign_all_in.
    + now rewrite !get_assign_all_notin.
Qed.

(** X25.  Although all patients share one series index, the series
    counts over the dataset are those of each patient: on a well-formed
    index, when the default discovery succeeds for every patient of the
    catalog, [get_series_type_count] maps every patient id, in catalog
    order, to the count of the index in which the default kinds hold
    that patient's own entries and the other kinds what the index held
    before the call. *)
Theorem get_series_type_count_per_patient self w :
  images_wf (cls_images w) ->
  (forall p, In p (Dict.values (cls_patients w)) ->
     (forall k, In k series_to_fetch ->
        exists v, value (_fetch_single_mask p k default_extension
                           mask_config w) = Ok v) /\
     (forall k, In k series_to_fetch ->
        exists v, value (_fetch_single_series p k default_extension
                           series_config w) = Ok v)) ->
  value (get_series_type_count self w) =
  Ok (fold_left
        (fun d p =>
           Dict.set (get_id p)
             (map (fun kv => (fst kv, present (snd kv)))
                (assign_all
                   (fun k =>
                      discovered (_fetch_single_series p k default_extension
                                    series_config) w [])
                   series_to_fetch (cls_images w))) d)
        (Dict.values (cls_patients w)) []).
Proof.
  intros Hwf Hall. unfold get_series_type_count.
  enough (forall ps acc w0,
            (forall p, In p ps -> In p (Dict.values (cls_patients w))) ->
            fs w0 = fs w -> images_wf (cls_images w0) ->
            (forall f : string -> list (option Series),
               assign_all f series_to_fetch (cls_images w0) =
               assign_all f series_to_fetch (cls_images w)) ->
            exists w1,
              foldM (fun result patient =>
                       c <- count_series_per_type patient ;;
                       ret (Dict.set (get_id patient) c result))
                ps acc w0 =
              (Ok (fold_left
                     (fun d p =>
                        Dict.set (get_id p)
                          (map (fun kv => (fst kv, present (snd kv)))
                             (assign_all
                                (fun k =>
                                   discovered
                                     (_fetch_single_series p k
                                        default_extension series_config)
                                     w [])
                                series_to_fetch (cls_images w))) d)
                     ps acc), w1)) as H.
  { destruct (H (Dict.values (cls_patients w)) [] w (fun p Hp => Hp)
                eq_refl Hwf (fun f => eq_refl)) as (w1 & ->). reflexivity. }
  induction ps as [|p ps IH]; intros acc w0 Hin Hfs Hwf0 Hsame; simpl.
  - now exists w0.
  - destruct (Hall p (Hin p (or_introl eq_refl))) as (Hm & Hs).
    destruct (fetch_all_total p series_to_fetch mask_config series_config w0)
      as (r & w1 & Hrun).
    { intros k Hk. destruct (Hm k Hk) as [v Hv]. exists v. rewrite <- Hv.
      apply reader_value; [apply reader_fetch_single_mask | exact Hfs]. }
    { intros k Hk. destruct (Hs k Hk) as [v Hv]. exists v. rewrite <- Hv.
      apply reader_value; [apply reader_fetch_single_series | exact Hfs]. }
    pose proof (fetch_all_ok _ _ _ _ _ _ _ Hrun)
      as (_ & _ & _ & _ & Hsget & _ & Hfs1 & _).
    assert (cls_images w1 =
            assign_all
              (fun k => discovered (_fetch_single_series p k
                                      default_extension series_config) w [])
              series_to_fetch (cls_images w)) as Himg.
    { rewrite Hsget, Hsame. apply assign_all_ext. intros k.
      apply discovered_fs; [apply reader_fetch_single_series | exact Hfs]. }
    assert (images_wf (cls_images w1)) as Hwf1.
    { rewrite Himg. apply images_wf_assign_all; [exact Hwf|].
      intros k s _. apply discovered_series_typed. }
    assert (count_series_per_type p w0 =
            (Ok (map (fun kv => (fst kv, present (snd kv))) (cls_images w1)),
             w1)) as Hcount.
    { unfold count_series_per_type. erewrite bind_ok by exact Hrun.
      unfold bind at 1. unfold self_images at 1.
      now apply count_series_loop. }
    erewrite bind_ok
      by (erewrite bind_ok by exact Hcount; rewrite Himg; reflexivity).
    apply IH.
    + intros q Hq. apply Hin. now right.
    + now rewrite Hfs1.
    + exact Hwf1.
    + intros f. rewrite Himg. apply assign_all_override. apply Hwf.
Qed.

Lemma get_series_type_count_per_patient_witness :
  images_wf (cls_images Sample.catalog) /\
  value (get_series_type_count Sample.dataset Sample.catalog) =
  Ok [("p1", [("adc", 1); ("dwi", 0)]); ("p2", [("adc", 0); ("dwi", 1)])].
Proof.
  assert (images_wf (cls_images Sample.catalog)) as Hwf
    by apply images_wf_empty.
  split; [exact Hwf|].
  rewrite (get_series_type_count_per_patient Sample.dataset Sample.catalog
             Hwf).
  - vm_compute. reflexivity.
  - intros p Hp. vm_compute in Hp.
    destruct Hp as [<-|[<-|[]]];
      split; intros k [<-|[<-|[]]]; eexists; vm_compute; reflexivity.
Defined.

(** ** A patient that cannot be discovered *)

Section KeepsTree.
Context {A B : Type}.

Lemma keeps_tree_ret (a : A) : keeps_tree (ret a).
Proof. intros w. reflexivity. Qed.

Lemma keeps_tree_raise e : keeps_tree (@raise A e).
Proof. intros w. reflexivity. Qed.

Lemma keeps_tree_bind (m : M A) (k : A -> M B) :
  keeps_tree m -> (forall a, keeps_tree (k a)) -> keeps_tree (bind m k).
Proof.
  intros Hm Hk w. unfold bind. specialize (Hm w).
  destruct (m w) as [[a|e] w1]; simpl in *;
    [now rewrite Hk | exact Hm].
Qed.

Lemma keeps_tree_foldM (body : B -> A -> M B) l acc :
  (forall s x, keeps_tree (body s x)) -> keeps_tree (foldM body l acc).
Proof.
  intros Hb. revert acc. induction l as [|x l IH]; intros acc; simpl.
  - intros w. reflexivity.
  - intros w. unfold bind. pose proof (Hb acc x w) as Hx.
    destruct (body acc x w) as [[s|e] w1]; simpl in *;
      [now rewrite IH | exact Hx].
Qed.

Lemma keeps_tree_reader (m : M A) : reader m -> keeps_tree m.
Proof. intros H w. apply frame_fs. now apply reader_frame. Qed.

Lemma keeps_tree_stateless (m : M A) : stateless m -> keeps_tree m.
Proof. intros H w. now rewrite H. Qed.
End KeepsTree.

Lemma keeps_tree_mapM {A B} (f : A -> M B) l :
  (forall x, keeps_tree (f x)) -> keeps_tree (mapM f l).
Proof.
  intros Hf. induction l as [|x l IH]; simpl.
  - apply keeps_tree_ret.
  - apply keeps_tree_bind; [apply Hf|]. intros y.
    apply keeps_tree_bind; [exact IH|]. intros ys. apply keeps_tree_ret.
Qed.

Lemma keeps_tree_fetch_all self ks mc sc :
  keeps_tree (fetch_all self ks mc sc).
Proof.
  unfold fetch_all, fetch_masks, fetch_series.
  repeat first
    [ apply keeps_tree_ret
    | apply keeps_tree_reader; apply reader_write_log
    | apply keeps_tree_reader; apply reader_fetch_single_mask
    | apply keeps_tree_reader; apply reader_fetch_single_series
    | intros w; reflexivity
    | apply keeps_tree_bind; [|intros]
    | apply keeps_tree_foldM; intros ].
Qed.

Lemma keeps_tree_count_masks_per self count_type :
  keeps_tree (count_masks_per self count_type).
Proof.
  unfold count_masks_per.
  apply keeps_tree_bind; [apply keeps_tree_fetch_all|]. intros _.
  apply keeps_tree_stateless. stateless_auto.
Qed.

Lemma keeps_tree_count_masks_overall self :
  keeps_tree (count_masks_overall self).
Proof.
  unfold count_masks_overall.
  apply keeps_tree_bind; [apply keeps_tree_count_masks_per|]. intros tc.
  apply keeps_tree_bind; [apply keeps_tree_count_masks_per|]. intros dc.
  apply keeps_tree_ret.
Qed.

Lemma keeps_tree_count_series_per_type self :
  keeps_tree (count_series_per_type self).
Proof.
  unfold count_series_per_type.
  apply keeps_tree_bind; [apply keeps_tree_fetch_all|]. intros _.
  apply keeps_tree_stateless. stateless_auto.
Qed.

Lemma keeps_tree_get_series_by_type self series_type :
  keeps_tree (get_series_by_type self series_type).
Proof.
  unfold get_series_by_type.
  apply keeps_tree_bind; [apply keeps_tree_fetch_all|]. intros _.
  apply keeps_tree_stateless. stateless_auto.
Qed.

Lemma raise_through_bind {A B} (m : M A) (k : A -> M B) w e :
  value (m w) = Raise e -> value (bind m k w) = Raise e.
Proof. intros H. now rewrite (bind_value_raise m k w e H). Qed.

(** A loop over patients whose turn always leaves the directory tree
    alone, and raises for one patient of the list whenever it is reached
    on that tree, raises. *)
Lemma foldM_blocked {S} (body : S -> Patient -> M S) (t : filesystem) p :
  (forall acc q, keeps_tree (body acc q)) ->
  (forall acc w, fs w = t -> exists e, value (body acc p w) = Raise e) ->
  forall ps acc w, In p ps -> fs w = t ->
    exists e, value (foldM body ps acc w) = Raise e.
Proof.
  intros Hkeep Hblock. induction ps as [|q ps IH]; intros acc w Hin Hfs;
    [destruct Hin|].
  simpl. unfold bind.
  destruct (body acc q w) as [[acc'|e] w1] eqn:E.
  - destruct Hin as [->|Hin].
    + destruct (Hblock acc w Hfs) as [e He]. rewrite E in He. discriminate.
    + apply IH; [exact Hin|].
      pose proof (Hkeep acc q w) as Hk. rewrite E in Hk. simpl in Hk.
      now rewrite Hk.
  - now exists e.
Qed.

Lemma fetch_all_no_masks_folder self w entries :
  os.lookup (patient_path self) (fs w) = Some entries ->
  (forall folder, In folder entries ->
     Str.contains "masks" (Str.lower folder) = false) ->
  value (fetch_all self series_to_fetch mask_config series_config w) =
  Raise IndexError.
Proof.
  intros Hls Hnone.
  assert (matching_folders mask_folder_name entries = []) as Hm
    by (apply matching_folders_none; exact Hnone).
  destruct (fetch_masks_first_raise self "adc" ["dwi"] default_extension
              mask_config w IndexError) as (Hv & _).
  { erewrite fetch_single_mask_no_folder by eassumption. reflexivity. }
  unfold fetch_all. erewrite bind_value_raise by exact Hv. reflexivity.
Qed.


